(** * geoio.base: windowed raster access, coordinate transforms, iteration
    strategies and the writer of [GeoImage], embedded from
    [src/geoio/base.py].

  Numbers.  Pixel offsets and sizes are Python ints, modelled as [Z].
  Projected coordinates and geo-transform coefficients are floats; they are
  modelled as exact rationals ([Qc]), and a float that is not finite (the
  [inf] or [nan] numpy produces on a division by zero) is [None] of
  [option Qc].  Rounding is not modelled. *)

From Stdlib Require Import ZArith QArith Qcanon Qround List String Bool Lia.
From stdpp Require Import gmap strings.
Import ListNotations.

Local Open Scope Z_scope.

(** ** Errors

  Every exception the module raises is a [ValueError] with a message, an
  [OverlapError] (its own subclass of [ValueError]), a [NotImplementedError],
  or an exception of a collaborator (GDAL, numpy, the interpreter). *)

Inductive value_error : Type :=
| MixedTypes            (* "The type of x and y should be the same ..." *)
| TypeNotRecognized     (* "The input type was not recognized." *)
| BroadcastError        (* numpy: operands could not be broadcast together *)
| ComponentZero         (* "Component should be specified as based 1." *)
| ComponentTooLarge     (* "You've requested a component value greater ..." *)
| WindowAndGeom         (* "The arguments window and geom are mutually exclusive" *)
| WindowLength          (* "Window must be length four ..." *)
| BufferLength          (* "Buffer must be either length one or two." *)
| VirtualNotBoolean     (* "virtual keyword argument should be boolean." *)
| NegativeDimensions    (* numpy: negative dimensions are not allowed *)
| EmptySequence         (* min() / max() of an empty sequence *)
| UnpackError           (* wrong number of values to unpack *)
| BadGeometry           (* "A geometry object was not able to be created ..." *)
| SizeNotPositive       (* "No value in win_size/stride can be ... zero." *)
| StrideWithoutSize     (* "Setting stride and not setting win_size ..." *)
| WindowArgInvalid      (* iter_vector: "The window argument is not valid ..." *)
| GeomArgInvalid        (* iter_vector: "The geom argument is not valid ..." *)
| PropertiesMissing     (* "One or more of the requested properties ..." *)
| PropertiesInvalid     (* "Invalid properties argument." *)
| FilterMalformed       (* "Filters should be passed in as a list ..." *)
| TooManyDimensions     (* "This can't handle Arrays larger than three ..." *)
| SizeMismatch          (* "Data in is not the same size as ..." *)
| DTypeUnsupported.     (* "The data type of the provided numpy array ..." *)

Inductive error : Type :=
| ValueError (e : value_error)
| OverlapError
| NotImplementedError
| IndexError            (* interpreter: list index out of range *)
| ZeroDivisionError     (* interpreter: integer modulo by zero *)
| TypeError             (* interpreter / numpy: wrong kind of operand *)
| FloatError            (* math.floor / math.ceil of inf or nan *)
| NameError             (* interpreter: a name that is not bound *)
| KeyError              (* interpreter: key not in dict *)
| AttributeError        (* interpreter: attribute of None *)
| GdalError (code : Z). (* RuntimeError raised by the GDAL bindings *)

Inductive result (A : Type) : Type :=
| Ok (a : A)
| Raise (e : error).
Arguments Ok {A} a.
Arguments Raise {A} e.

Definition rbind {A B} (r : result A) (k : A -> result B) : result B :=
  match r with
  | Ok a => k a
  | Raise e => Raise e
  end.

Notation "x <- r ;; k" := (rbind r (fun x => k))
  (at level 100, r at next level, right associativity).

(** A call into GDAL returns, or raises a RuntimeError with GDAL's error
  number.  GDAL knows nothing of the exception classes of this module. *)
Inductive gdal (A : Type) : Type :=
| Done (a : A)
| Failed (code : Z).
Arguments Done {A} a.
Arguments Failed {A} code.

Definition from_gdal {A} (r : gdal A) : result A :=
  match r with
  | Done a => Ok a
  | Failed code => Raise (GdalError code)
  end.

(** ** Affine transform: [proj_to_raster] and [raster_to_proj] *)

Module Affine.

(** A float: the number it stands for when it is finite, or [None] for
    [inf]/[nan].  The arithmetic below is that of the formulas, without the
    rounding of IEEE doubles: what is proved of it is what does not depend
    on rounding (the value on inputs that doubles compute exactly, an order
    between results, a divisor that is zero). *)
Definition float := option Qc.

Definition fin (q : Qc) : float := Some q.
Definition of_Z (z : Z) : float := Some (Q2Qc (inject_Z z)).

Definition lift2 (f : Qc -> Qc -> Qc) (a b : float) : float :=
  match a, b with
  | Some x, Some y => Some (f x y)
  | _, _ => None
  end.

Definition fadd := lift2 Qcplus.
Definition fsub := lift2 Qcminus.
Definition fmul := lift2 Qcmult.

(** numpy division: a zero divisor gives [inf] or [nan], no exception. *)
Definition fdiv (a b : float) : float :=
  match a, b with
  | Some x, Some y => if Qc_eq_dec y 0%Qc then None else Some (x / y)%Qc
  | _, _ => None
  end.

(** [self.meta.geo_transform]: the six coefficients [gm[0] .. gm[5]]. *)
Record geo_transform : Type := GT {
  gm0 : Qc; gm1 : Qc; gm2 : Qc; gm3 : Qc; gm4 : Qc; gm5 : Qc
}.

(** The values the two methods accept for one coordinate.  [PInt] and
    [PFloat] have no [__iter__]; [PSet] stands for any other iterable. *)
Inductive pyval : Type :=
| PInt (z : Z)
| PFloat (x : float)
| PList (l : list float)
| PTuple (l : list float)
| PArray (l : list float)
| PSet (l : list float).

(** [type(v)] *)
Inductive pytype : Type := TInt | TFloat | TList | TTuple | TArray | TSet.

Definition type_of (v : pyval) : pytype :=
  match v with
  | PInt _ => TInt
  | PFloat _ => TFloat
  | PList _ => TList
  | PTuple _ => TTuple
  | PArray _ => TArray
  | PSet _ => TSet
  end.

Definition pytype_eqb (a b : pytype) : bool :=
  match a, b with
  | TInt, TInt | TFloat, TFloat | TList, TList
  | TTuple, TTuple | TArray, TArray | TSet, TSet => true
  | _, _ => false
  end.

(** [np.asarray(v)]: a 0-d array for a scalar, a 1-d array otherwise. *)
Inductive ndarray : Type :=
| Arr0 (x : float)
| Arr1 (l : list float).

Definition asarray (v : pyval) : ndarray :=
  match v with
  | PInt z => Arr0 (of_Z z)
  | PFloat x => Arr0 x
  | PList l | PTuple l | PArray l | PSet l => Arr1 l
  end.

(** Element-wise binary operation with numpy broadcasting of 0-d and 1-d
    arrays: equal lengths pair up, a length-1 array stretches, any other
    pair of lengths raises. *)
Fixpoint zip_with (f : float -> float -> float) (l1 l2 : list float)
  : list float :=
  match l1, l2 with
  | a :: l1', b :: l2' => f a b :: zip_with f l1' l2'
  | _, _ => []
  end.

Definition broadcast2 (f : float -> float -> float) (a b : ndarray)
  : result ndarray :=
  match a, b with
  | Arr0 x, Arr0 y => Ok (Arr0 (f x y))
  | Arr0 x, Arr1 l => Ok (Arr1 (map (fun y => f x y) l))
  | Arr1 l, Arr0 y => Ok (Arr1 (map (fun x => f x y) l))
  | Arr1 l1, Arr1 l2 =>
      if (length l1 =? length l2)%nat then Ok (Arr1 (zip_with f l1 l2))
      else match l1, l2 with
           | [x], _ => Ok (Arr1 (map (fun y => f x y) l2))
           | _, [y] => Ok (Arr1 (map (fun x => f x y) l1))
           | _, _ => Raise (ValueError BroadcastError)
           end
  end.

(** A Python float scalar combined with an array. *)
Definition scal (f : float -> float -> float) (c : Qc) (a : ndarray)
  : ndarray :=
  match a with
  | Arr0 x => Arr0 (f (fin c) x)
  | Arr1 l => Arr1 (map (fun x => f (fin c) x) l)
  end.

Definition rscal (f : float -> float -> float) (a : ndarray) (c : float)
  : ndarray :=
  match a with
  | Arr0 x => Arr0 (f x c)
  | Arr1 l => Arr1 (map (fun x => f x c) l)
  end.

(** The input-type tag [intype] of both methods. *)
Definition intype (v : pyval) : result Z :=
  match v with
  | PInt _ | PFloat _ => Ok 1
  | PList _ => Ok 2
  | PTuple _ => Ok 3
  | PArray _ => Ok 4
  | PSet _ => Raise (ValueError TypeNotRecognized)
  end.

(** "Return to input type". *)
Definition head_float (a : ndarray) : result float :=
  match a with
  | Arr0 x => Ok x
  | Arr1 [x] => Ok x              (* float() of a one-element array *)
  | Arr1 _ => Raise TypeError
  end.

Definition elements (a : ndarray) : list float :=
  match a with
  | Arr0 x => [x]
  | Arr1 l => l
  end.

Definition to_intype (t : Z) (a : ndarray) : result pyval :=
  if t =? 1 then x <- head_float a ;; Ok (PFloat x)
  else if t =? 2 then Ok (PList (elements a))
  else if t =? 3 then Ok (PTuple (elements a))
  else Ok (PArray (elements a)).

Definition proj_to_raster (gm : geo_transform) (projx projy : pyval)
  : result (pyval * pyval) :=
  if negb (pytype_eqb (type_of projx) (type_of projy))
  then Raise (ValueError MixedTypes)
  else
    t <- intype projx ;;
    let px := asarray projx in
    let py := asarray projy in
    (* x = (gm[5]*(projx - gm[0]) - gm[2]*(projy - gm[3]))
           / (gm[5]*gm[1] + gm[4]*gm[2]) *)
    num <- broadcast2 fsub
             (scal fmul (gm5 gm) (rscal fsub px (fin (gm0 gm))))
             (scal fmul (gm2 gm) (rscal fsub py (fin (gm3 gm)))) ;;
    let den := fin (gm5 gm * gm1 gm + gm4 gm * gm2 gm)%Qc in
    let x := rscal fdiv num den in
    (* y = (projy - gm[3] - x*gm[4]) / gm[5] *)
    d <- broadcast2 fsub (rscal fsub py (fin (gm3 gm)))
                         (rscal fmul x (fin (gm4 gm))) ;;
    let y := rscal fdiv d (fin (gm5 gm)) in
    rx <- to_intype t x ;;
    ry <- to_intype t y ;;
    Ok (rx, ry).

Definition raster_to_proj (gm : geo_transform) (x y : pyval)
  : result (pyval * pyval) :=
  if negb (pytype_eqb (type_of x) (type_of y))
  then Raise (ValueError MixedTypes)
  else
    t <- intype x ;;
    let ax := asarray x in
    let ay := asarray y in
    (* projx = gm[0] + gm[1]*x + gm[2]*y *)
    sx <- broadcast2 fadd (scal fadd (gm0 gm) (scal fmul (gm1 gm) ax))
                          (scal fmul (gm2 gm) ay) ;;
    (* projy = gm[3] + gm[4]*x + gm[5]*y *)
    sy <- broadcast2 fadd (scal fadd (gm3 gm) (scal fmul (gm4 gm) ax))
                          (scal fmul (gm5 gm) ay) ;;
    rx <- to_intype t sx ;;
    ry <- to_intype t sy ;;
    Ok (rx, ry).

End Affine.

(** ** Arrays: pixel blocks as nested lists (band, row, column) *)

Module Block.

Abbreviation band A := (list (list A)) (only parsing).
Abbreviation block A := (list (list (list A))) (only parsing).

(** The 2-d array of shape (rows, cols) whose element at row [r], column
    [c] is [f r c]. *)
Definition tabulate {A} (rows cols : nat) (f : Z -> Z -> A) : band A :=
  map (fun r => map (fun c => f (Z.of_nat r) (Z.of_nat c)) (seq 0 cols))
      (seq 0 rows).

(** [np.pad(a, ((top, bottom), (left, right)), 'constant',
    constant_values=c)] on a 2-d array of [cols] columns. *)
Definition pad_row {A} (c : A) (left right : nat) (r : list A) : list A :=
  replicate left c ++ r ++ replicate right c.

Definition pad_band {A} (c : A) (top bottom left right cols : nat)
    (a : band A) : band A :=
  replicate top (replicate (left + cols + right) c)
  ++ map (pad_row c left right) a
  ++ replicate bottom (replicate (left + cols + right) c).

(** The pad tuple of the band axis is (0, 0). *)
Definition pad_block {A} (c : A) (top bottom left right cols : nat)
    (d : block A) : block A :=
  map (pad_band c top bottom left right cols) d.

(** [d[b, r, c]] *)
Definition at3 {A} (d : block A) (b r c : nat) : option A :=
  match d !! b with
  | Some rows =>
      match rows !! r with
      | Some row => row !! c
      | None => None
      end
  | None => None
  end.

(** [d.shape == (bands, rows, cols)] *)
Definition block_shape {A} (bands rows cols : nat) (d : block A) : Prop :=
  length d = bands /\
  Forall (fun a => length a = rows /\ Forall (fun r => length r = cols) a) d.

End Block.

(** ** The image object, the window resolver and [get_data] *)

Module Geo.
Import Affine Block.

(** An open GDAL dataset, through the operations [get_data] and
    [iter_window] call on it: the raster size, the block size, and
    [GetRasterBand(b).ReadAsArray(xoff, yoff, win_xsize, win_ysize)].  A read
    raises (so does [GetRasterBand] of a band that does not exist), or
    returns an array of shape (win_ysize, win_xsize); the array is given by
    its element at row [r], column [c] of the window.  Pixel values are
    integers.  The bands of a dataset are taken to share one data type, as
    those of a GeoTIFF do: [get_data] allocates its array with the type of
    the first band it reads, and assigning a band of that type into it
    converts nothing. *)
Record dataset : Type := Dataset {
  RasterCount : Z;
  RasterXSize : Z;
  RasterYSize : Z;
  GetBlockSize : list Z;          (* of band 1: [x, y] *)
  ReadAsArray : Z -> Z -> Z -> Z -> Z -> gdal (Z -> Z -> Z)
}.

(** The geo-transform handed to the temporary raster that is burnt. *)
Definition tds_transform : Type :=
  (float * float * float * float * float * float)%type.

(** An OGR geometry in image space, through the operations used on it:
    [GetEnvelope()] = (minX, maxX, minY, maxY), and the burn: creating a
    temporary byte raster of the given transform and size (x, y) and
    running [gdal.RasterizeLayer] on it (with ALL_TOUCHED or not) raises,
    or leaves a raster whose pixel at row [r], column [c] is burnt or not. *)
Record geometry : Type := Geometry {
  GetEnvelope : Qc * Qc * Qc * Qc;
  RasterizeLayer : tds_transform -> Z -> Z -> bool -> gdal (Z -> Z -> bool)
}.

(** The [geom] argument: a value [_instantiate_geom] turns into a geometry
    (an independent copy [g]), or one that no constructor accepts. *)
Inductive geom_arg : Type :=
| GeomFrom (g : geometry)
| GeomUnreadable.

Definition _instantiate_geom (a : geom_arg) : result geometry :=
  match a with
  | GeomFrom g => Ok g
  | GeomUnreadable => Raise (ValueError BadGeometry)
  end.

(** The fields of a [GeoImage] the modelled methods read. *)
Record GeoImage : Type := Image {
  _fobj : dataset;
  dfile_tiles : list dataset;     (* what opening each tile file gives *)
  geo_transform_of : geo_transform;
  projection_string : string;
  no_data_value : option Qc;
  driver_name : string
}.

(** [self.meta.shape = (nbands, x, y)], read from [_fobj]. *)
Definition shape0 (img : GeoImage) : Z := RasterCount (_fobj img).
Definition shape1 (img : GeoImage) : Z := RasterXSize (_fobj img).
Definition shape2 (img : GeoImage) : Z := RasterYSize (_fobj img).

(** [self.meta.resolution = (abs(gt[1]), abs(gt[5]))] *)
Definition qabs (q : Qc) : Qc := if Qle_bool 0 q then q else (- q)%Qc.
Definition resolution (img : GeoImage) : Qc * Qc :=
  (qabs (gm1 (geo_transform_of img)), qabs (gm5 (geo_transform_of img))).

(** Python list indexing [l[i]], negative indices counting from the end. *)
Definition py_index {A} (l : list A) (i : Z) : result A :=
  let n := Z.of_nat (length l) in
  let j := if i <? 0 then i + n else i in
  if (j <? 0) || (n <=? j) then Raise IndexError
  else match l !! Z.to_nat j with
       | Some a => Ok a
       | None => Raise IndexError
       end.

(** Lines 895-908: the dataset that is read. *)
Definition select_dataset (img : GeoImage) (component : option Z)
  : result dataset :=
  match component with
  | Some c =>
      if c =? 0 then Raise (ValueError ComponentZero)
      else if c >? Z.of_nat (length (dfile_tiles img))
      then Raise (ValueError ComponentTooLarge)
      else py_index (dfile_tiles img) (c - 1)
  | None => Ok (_fobj img)
  end.

(** *** [_extent_to_window] *)

Fixpoint all_finite (l : list float) : option (list Qc) :=
  match l with
  | [] => Some []
  | Some q :: l' => option_map (cons q) (all_finite l')
  | None :: _ => None
  end.

Definition qmin (a b : Qc) : Qc := if Qle_bool a b then a else b.
Definition qmax (a b : Qc) : Qc := if Qle_bool a b then b else a.

(** [int(math.floor(min(xs)))] and [int(math.ceil(max(xs)))]; [floor] and
    [ceil] raise on a float that is not finite. *)
Definition floor_min (l : list float) : result Z :=
  match all_finite l with
  | Some (q :: qs) => Ok (Qfloor (fold_left qmin qs q))
  | Some [] => Raise (ValueError EmptySequence)
  | None => Raise FloatError
  end.

Definition ceil_max (l : list float) : result Z :=
  match all_finite l with
  | Some (q :: qs) => Ok (Qceiling (fold_left qmax qs q))
  | Some [] => Raise (ValueError EmptySequence)
  | None => Raise FloatError
  end.

Definition tuple_items (v : pyval) : list float :=
  match v with
  | PInt z => [of_Z z]
  | PFloat x => [x]
  | PList l | PTuple l | PArray l | PSet l => l
  end.

(** The test of lines 726-727. *)
Definition no_content (img : GeoImage) (xoff yoff win_xsize win_ysize : Z)
  : bool :=
  (xoff + win_xsize <=? 0) || (yoff + win_ysize <=? 0)
  || (xoff >? shape1 img) || (yoff >? shape2 img).

(** Lines 683-717: the pixel window of an extent. *)
Definition extent_pixels (img : GeoImage) (extent : Qc * Qc * Qc * Qc)
    (coord_trans : option (Qc * Qc -> float * float))
  : result (Z * Z * Z * Z) :=
  let '(minX, maxX, minY, maxY) := extent in
  let ul_vec := (minX, maxY) in
  let lr_vec := (maxX, minY) in
  let ul_img := match coord_trans with
                | Some t => t ul_vec
                | None => (fin (fst ul_vec), fin (snd ul_vec))
                end in
  let lr_img := match coord_trans with
                | Some t => t lr_vec
                | None => (fin (fst lr_vec), fin (snd lr_vec))
                end in
  (* proj_to_raster receives the two x values and the two y values, each
     as a tuple *)
  p <- proj_to_raster (geo_transform_of img)
         (PTuple [fst ul_img; fst lr_img])
         (PTuple [snd ul_img; snd lr_img]) ;;
  let xs := tuple_items (fst p) in
  let ys := tuple_items (snd p) in
  xoff <- floor_min xs ;;
  yoff <- floor_min ys ;;
  xmax <- ceil_max xs ;;
  ymax <- ceil_max ys ;;
  let win_xsize := xmax - xoff in
  let win_ysize := ymax - yoff in
  Ok (xoff, yoff, win_xsize, win_ysize).

Definition _extent_to_window (img : GeoImage) (extent : Qc * Qc * Qc * Qc)
    (coord_trans : option (Qc * Qc -> float * float)) : result (list Z) :=
  w <- extent_pixels img extent coord_trans ;;
  let '(xoff, yoff, win_xsize, win_ysize) := w in
  if no_content img xoff yoff win_xsize win_ysize
  then Raise OverlapError
  else Ok [xoff; yoff; win_xsize; win_ysize].

(** *** The out-of-bounds handling of [get_data], lines 961-989 *)

Record resolved : Type := Resolved {
  r_xoff : Z; r_yoff : Z; r_win_xsize : Z; r_win_ysize : Z;
  np_xoff_buff : Z; np_yoff_buff : Z; np_xlim_buff : Z; np_ylim_buff : Z
}.

Definition clip_window (xlim ylim xoff yoff win_xsize win_ysize : Z)
  : resolved :=
  let np_xoff_buff := if xoff <? 0 then xoff else 0 in
  let win_xsize1 := if xoff <? 0 then win_xsize + xoff else win_xsize in
  let xoff1 := if xoff <? 0 then 0 else xoff in
  let np_yoff_buff := if yoff <? 0 then yoff else 0 in
  let win_ysize1 := if yoff <? 0 then win_ysize + yoff else win_ysize in
  let yoff1 := if yoff <? 0 then 0 else yoff in
  let xpos := xoff1 + win_xsize1 in
  let ypos := yoff1 + win_ysize1 in
  let np_xlim_buff := if xpos >? xlim then xpos - xlim else 0 in
  let win_xsize2 := if xpos >? xlim then win_xsize1 - (xpos - xlim)
                    else win_xsize1 in
  let np_ylim_buff := if ypos >? ylim then ypos - ylim else 0 in
  let win_ysize2 := if ypos >? ylim then win_ysize1 - (ypos - ylim)
                    else win_ysize1 in
  Resolved xoff1 yoff1 win_xsize2 win_ysize2
           np_xoff_buff np_yoff_buff np_xlim_buff np_ylim_buff.

(** *** Arguments of [get_data] *)

(** [buffer]: an int or a sequence of ints. *)
Inductive buffer_arg : Type :=
| BufInt (b : Z)
| BufSeq (l : list Z).

Definition buffer_truthy (b : option buffer_arg) : bool :=
  match b with
  | None | Some (BufInt 0) | Some (BufSeq []) => false
  | Some _ => true
  end.

(** [virtual]: [True], [False], or anything else. *)
Inductive virtual_arg : Type := VirtTrue | VirtFalse | VirtOther.

Record request : Type := Request {
  component : option Z;
  bands : option (list Z);
  window : option (list Z);
  buffer : option buffer_arg;
  geom : option geom_arg;
  mask : bool;
  mask_all_touched : bool;
  virtual : virtual_arg;
  return_location : bool
}.

(** The defaults of the signature. *)
Definition default_request : request :=
  Request None None None None None false false VirtFalse false.

(** What [get_data] returns: the array, the mask when the array is a
    masked array, and the location dictionary when it was asked for. *)
Record pixel_block : Type := PixelBlock {
  data : block Z;
  data_mask : option (block bool);
  upper_left_pixel : option (Z * Z)
}.

(** *** [get_data] *)

(** Lines 914-939: the requested extent before buffering. *)
Definition requested_extent (img : GeoImage) (rq : request)
  : result (option geometry * (Z * Z * Z * Z)) :=
  let window_truthy := match window rq with
                       | Some (_ :: _) => true
                       | _ => false
                       end in
  let geom_truthy := match geom rq with Some _ => true | None => false end in
  if window_truthy && geom_truthy then Raise (ValueError WindowAndGeom)
  else
    match window rq, geom rq with
    | Some (w0 :: ws), _ =>
        match w0 :: ws with
        | [xoff; yoff; win_xsize; win_ysize] =>
            Ok (None, (xoff, yoff, win_xsize, win_ysize))
        | _ => Raise (ValueError WindowLength)
        end
    | _, Some ga =>
        g <- _instantiate_geom ga ;;
        w <- _extent_to_window img (GetEnvelope g) None ;;
        match w with
        | [xoff; yoff; win_xsize; win_ysize] =>
            Ok (Some g, (xoff, yoff, win_xsize, win_ysize))
        | _ => Raise (ValueError WindowLength)
        end
    | _, None => Ok (None, (0, 0, shape1 img, shape2 img))
    end.

(** Lines 941-959: the buffer. *)
Definition apply_buffer (b : option buffer_arg) (w : Z * Z * Z * Z)
  : result (Z * Z * Z * Z) :=
  let '(xoff, yoff, win_xsize, win_ysize) := w in
  if buffer_truthy b then
    let l := match b with
             | Some (BufInt z) => [z]
             | Some (BufSeq l) => l
             | None => []
             end in
    match l with
    | [xbuff] =>
        Ok (xoff - xbuff, yoff - xbuff,
            win_xsize + 2 * xbuff, win_ysize + 2 * xbuff)
    | [xbuff; ybuff] =>
        Ok (xoff - xbuff, yoff - ybuff,
            win_xsize + 2 * xbuff, win_ysize + 2 * ybuff)
    | _ => Raise (ValueError BufferLength)
    end
  else Ok w.

(** Lines 1003-1021: one [ReadAsArray] per band into [data].  The array is
    allocated at the first band, after that band was read once. *)
Fixpoint read_bands (obj : dataset) (xoff yoff win_xsize win_ysize : Z)
    (bs : list Z) : result (block Z) :=
  match bs with
  | [] => Ok []
  | b :: bs' =>
      a <- from_gdal (ReadAsArray obj b xoff yoff win_xsize win_ysize) ;;
      rest <- read_bands obj xoff yoff win_xsize win_ysize bs' ;;
      Ok (tabulate (Z.to_nat win_ysize) (Z.to_nat win_xsize) a :: rest)
  end.

Definition read_data (obj : dataset) (xoff yoff win_xsize win_ysize : Z)
    (bs : list Z) : result (option (block Z)) :=
  match bs with
  | [] => Ok None                 (* the loop body never ran *)
  | b :: _ =>
      _ <- from_gdal (ReadAsArray obj b xoff yoff win_xsize win_ysize) ;;
      if (win_xsize <? 0) || (win_ysize <? 0)
      then Raise (ValueError NegativeDimensions)
      else d <- read_bands obj xoff yoff win_xsize win_ysize bs ;;
           Ok (Some d)
  end.

Definition use_data (d : option (block Z)) : result (block Z) :=
  match d with
  | Some d => Ok d
  | None => Raise NameError
  end.

(** [math.floor] of a coordinate of the envelope corner.  The corner went
    through [_extent_to_window] before, which raises on a float that is not
    finite, so that case is not met here. *)
Definition floor_float (v : pyval) : result Z :=
  match v with
  | PFloat (Some q) => Ok (Qfloor q)
  | PInt z => Ok z
  | PFloat None => Raise FloatError
  | _ => Raise TypeError
  end.

Definition float_of (v : pyval) : float :=
  match v with
  | PFloat x => x
  | PInt z => of_Z z
  | _ => None
  end.

(** Lines 1026-1063: the mask burnt from the geometry. *)
Definition geometry_mask (img : GeoImage) (g : geometry)
    (win_xsize win_ysize : Z) (all_touched : bool) (d : option (block Z))
  : result (block Z * block bool) :=
  let xres := fst (resolution img) in
  let yres := snd (resolution img) in
  let '(xmin, xmax, ymin, ymax) := GetEnvelope g in
  ul_raster <- proj_to_raster (geo_transform_of img)
                 (PFloat (fin xmin)) (PFloat (fin ymax)) ;;
  cx <- floor_float (fst ul_raster) ;;
  cy <- floor_float (snd ul_raster) ;;
  corner <- raster_to_proj (geo_transform_of img)
              (PFloat (of_Z cx)) (PFloat (of_Z cy)) ;;
  let xmin_corner := float_of (fst corner) in
  let ymax_corner := float_of (snd corner) in
  m <- from_gdal
         (RasterizeLayer g
            (xmin_corner, fin xres, fin 0%Qc, ymax_corner, fin 0%Qc,
             fin (- yres)%Qc)
            win_xsize win_ysize all_touched) ;;
  d <- use_data d ;;
  (* m = tds.ReadAsArray().astype('bool');
     mask = np.tile(~m, (data.shape[0], 1, 1)) *)
  let notm := tabulate (Z.to_nat win_ysize) (Z.to_nat win_xsize)
                (fun r c => negb (m r c)) in
  Ok (d, map (fun _ => notm) d).

(** Line 1068: every element equal to zero is masked. *)
Definition nonzero_mask (d : block Z) : block bool :=
  map (map (map (fun v => v =? 0))) d.

(** Lines 910-912: the bands that are read, [range(1, RasterCount + 1)]
    when none are requested. *)
Definition requested_bands (obj : dataset) (rq : request) : list Z :=
  match bands rq with
  | None | Some [] => map Z.of_nat (seq 1 (Z.to_nat (RasterCount obj)))
  | Some l => l
  end.

Definition get_data (img : GeoImage) (rq : request) : result pixel_block :=
  obj <- select_dataset img (component rq) ;;
  let bs := requested_bands obj rq in
  ext <- requested_extent img rq ;;
  let g := fst ext in
  w <- apply_buffer (buffer rq) (snd ext) ;;
  let '(xoff, yoff, win_xsize, win_ysize) := w in
  let r := clip_window (shape1 img) (shape2 img)
             xoff yoff win_xsize win_ysize in
  match virtual rq with
  | VirtTrue => Raise NotImplementedError
  | VirtOther => Raise (ValueError VirtualNotBoolean)
  | VirtFalse =>
      d <- read_data obj (r_xoff r) (r_yoff r)
             (r_win_xsize r) (r_win_ysize r) bs ;;
      let top := Z.abs_nat (np_yoff_buff r) in
      let bottom := Z.abs_nat (np_ylim_buff r) in
      let left := Z.abs_nat (np_xoff_buff r) in
      let right := Z.abs_nat (np_xlim_buff r) in
      let cols := Z.to_nat (r_win_xsize r) in
      let loc := if return_location rq
                 then Some (r_xoff r, r_yoff r) else None in
      if mask rq then
        dm <- match g with
              | Some g =>
                  geometry_mask img g (r_win_xsize r) (r_win_ysize r)
                    (mask_all_touched rq) d
              | None =>
                  d <- use_data d ;; Ok (d, nonzero_mask d)
              end ;;
        let mpad := pad_block true top bottom left right cols (snd dm) in
        let dpad := pad_block 0 top bottom left right cols (fst dm) in
        Ok (PixelBlock dpad (Some mpad) loc)
      else
        d <- use_data d ;;
        Ok (PixelBlock (pad_block 0 top bottom left right cols d) None loc)
  end.

End Geo.

(** ** Iteration strategies

  A generator is modelled by what its consumer sees when it runs it to the
  end: the values yielded, in order, and the exception that ended it, if
  one did. *)

Module Iter.
Import Affine Block Geo.

Definition trace (A : Type) : Type := (list A * option error)%type.

(** Yield the result of [get_data] for every request, in order, until one
    raises. *)
Fixpoint yield_all (img : GeoImage) (rqs : list request) : trace pixel_block :=
  match rqs with
  | [] => ([], None)
  | rq :: rqs' =>
      match get_data img rq with
      | Ok d => let t := yield_all img rqs' in (d :: fst t, snd t)
      | Raise e => ([], Some e)
      end
  end.

Definition with_window (kwargs : request) (w : list Z) : request :=
  Request (component kwargs) (bands kwargs) (Some w) (buffer kwargs)
          (geom kwargs) (mask kwargs) (mask_all_touched kwargs)
          (virtual kwargs) (return_location kwargs).

(** *** [iter_window] *)

(** The [while True] loop of lines 428-436 and 466-474: one window per
    turn, [xoff] advanced by [xstep], wrapped to [xoff_start] and [yoff]
    advanced by [ystep] once [xoff] is greater than the raster width, until
    [yoff] is greater than the raster height.  [None]: more than [fuel]
    turns. *)
Fixpoint window_loop (fuel : nat) (xs ys xsize ysize xstep ystep : Z)
    (xoff_start xoff yoff : Z) : option (list (list Z)) :=
  match fuel with
  | O => None
  | S fuel' =>
      let w := [xoff; yoff; xsize; ysize] in
      let xoff1 := xoff + xstep in
      let xoff2 := if xoff1 >? xs then xoff_start else xoff1 in
      let yoff2 := if xoff1 >? xs then yoff + ystep else yoff in
      if yoff2 >? ys then Some [w]
      else option_map (cons w)
             (window_loop fuel' xs ys xsize ysize xstep ystep
                xoff_start xoff2 yoff2)
  end.

Definition seq_truthy (l : option (list Z)) : bool :=
  match l with
  | Some (_ :: _) => true
  | _ => false
  end.

(** [xsize, ysize = win_size] *)
Definition unpack2 (l : list Z) : result (Z * Z) :=
  match l with
  | [a; b] => Ok (a, b)
  | _ => Raise (ValueError UnpackError)
  end.

(** Python [a % b] on ints. *)
Definition py_mod (a b : Z) : result Z :=
  if b =? 0 then Raise ZeroDivisionError else Ok (a mod b).

(** [int(n / 2.0)]: true division, then truncation towards zero. *)
Definition int_half (n : Z) : Z := Z.quot n 2.

(** The windows [iter_window] passes to [get_data], in order, for a raster
    of [xs] by [ys] pixels whose band 1 has block size [block_size]. *)
Definition tile_windows (fuel : nat) (xs ys : Z) (block_size : list Z)
    (win_size stride : option (list Z))
  : result (option (list (list Z))) :=
  if seq_truthy win_size
     && existsb (fun x => x <=? 0) (default [] win_size)
  then Raise (ValueError SizeNotPositive)
  else if seq_truthy stride
          && existsb (fun x => x <=? 0) (default [] stride)
  then Raise (ValueError SizeNotPositive)
  else
    let win_size :=
      if negb (seq_truthy win_size) && negb (seq_truthy stride)
      then Some block_size else win_size in
    if seq_truthy win_size && negb (seq_truthy stride) then
      let ws := default [] win_size in
      p <- unpack2 ws ;;
      x_extra_pixels <- py_mod xs (fst p) ;;
      let xoff := int_half x_extra_pixels in
      y_extra_pixels <- py_mod ys (snd p) ;;
      let yoff := int_half y_extra_pixels in
      Ok (window_loop fuel xs ys (fst p) (snd p) (fst p) (snd p)
            xoff xoff yoff)
    else if negb (seq_truthy win_size) && seq_truthy stride then
      Raise (ValueError StrideWithoutSize)
    else if seq_truthy win_size && seq_truthy stride then
      p <- unpack2 (default [] win_size) ;;
      s <- unpack2 (default [] stride) ;;
      x_extra_pixels <- py_mod (xs - fst p) (fst s) ;;
      let xoff := int_half x_extra_pixels in
      y_extra_pixels <- py_mod (ys - snd p) (snd s) ;;
      let yoff := int_half y_extra_pixels in
      Ok (window_loop fuel xs ys (fst p) (snd p) (fst s) (snd s)
            xoff xoff yoff)
    else Ok (Some []).

Definition iter_window (fuel : nat) (img : GeoImage)
    (win_size stride : option (list Z)) (kwargs : request)
  : option (trace pixel_block) :=
  match tile_windows fuel (shape1 img) (shape2 img)
          (GetBlockSize (_fobj img)) win_size stride with
  | Raise e => Some ([], Some e)
  | Ok None => None
  | Ok (Some ws) => Some (yield_all img (map (with_window kwargs) ws))
  end.

(** *** [iter_components]: [component] runs over [xrange(len(tiles))] *)
Definition with_component (kwargs : request) (c : Z) : request :=
  Request (Some c) (bands kwargs) (window kwargs) (buffer kwargs)
          (geom kwargs) (mask kwargs) (mask_all_touched kwargs)
          (virtual kwargs) (return_location kwargs).

Definition iter_components (img : GeoImage) (kwargs : request)
  : trace pixel_block :=
  yield_all img
    (map (fun c => with_component kwargs (Z.of_nat c))
         (seq 0 (length (dfile_tiles img)))).

(** *** [iter_vector] *)

(** A value of a feature attribute or of a filter entry. *)
Inductive propval : Type :=
| PVNone
| PVInt (z : Z)
| PVStr (s : string).

Definition propval_eqb (a b : propval) : bool :=
  match a, b with
  | PVNone, PVNone => true
  | PVInt x, PVInt y => x =? y
  | PVStr x, PVStr y => String.eqb x y
  | _, _ => false
  end.

(** A feature of the layer: [feat.items()], and [feat.geometry()] after
    [geom.Transform(coord_trans)] put it in image space. *)
Record feature : Type := Feature {
  items : gmap string propval;
  geometry_in_image : geom_arg
}.

(** The [properties] argument: [False], [None] or another falsy value that
    is no sequence; [True]; a list or tuple of names, or a str, which is
    taken as one name; any other truthy value.  An empty sequence is
    falsy. *)
Inductive properties_arg : Type :=
| PropsFalsy
| PropsTrue
| PropsNames (names : list string)
| PropsOther.


(** A dict given as its (key, value) entries in iteration order. *)
Definition pydict : Type := list (string * propval).

(** The [filter] argument: one dict, or a sequence of dicts. *)
Inductive filter_arg : Type :=
| FilterDict (d : pydict)
| FilterSeq (l : list pydict).

Definition filter_truthy (f : option filter_arg) : bool :=
  match f with
  | None | Some (FilterDict []) | Some (FilterSeq []) => false
  | Some _ => true
  end.


(** Lines 553-571: [prop_out].  [None] when the name is never bound. *)
Definition select_properties (p : properties_arg) (feat : feature)
  : result (option (gmap string propval)) :=
  match p with
  | PropsTrue => Ok (Some (items feat))
  | PropsFalsy => Ok None
  | PropsNames names =>
      let it := items feat in
      let present :=
        List.filter (fun x => bool_decide (is_Some (it !! x))) names in
      (* all(x for x in properties if x in it.keys()) *)
      if negb (forallb (fun x => negb (String.eqb x EmptyString)) present)
      then Raise (ValueError PropertiesMissing)
      else
        (* {x: it[x] for x in properties if x in it.keys()} *)
        let prop_out : gmap string propval :=
          list_to_map
            (omap (fun x => option_map (pair x) (it !! x)) names) in
        if bool_decide (prop_out = ∅) then Ok None else Ok (Some prop_out)
  | PropsOther => Raise (ValueError PropertiesInvalid)
  end.

(** [f.keys()[0]] and [f.values()[0]] *)
Definition first_entry (d : pydict) : result (string * propval) :=
  match d with
  | e :: _ => Ok e
  | [] => Raise IndexError
  end.

(** [any(f.keys()[0] not in prop_test.keys() for f in filter)] *)
Fixpoint any_key_missing (prop_test : gmap string propval)
    (fs : list pydict) : result bool :=
  match fs with
  | [] => Ok false
  | f :: fs' =>
      e <- first_entry f ;;
      if bool_decide (is_Some (prop_test !! fst e))
      then any_key_missing prop_test fs'
      else Ok true
  end.

(** [any(prop_test.get(d.keys()[0], None) == d.values()[0]
         for d in filter)] *)
Fixpoint any_match (prop_test : gmap string propval) (fs : list pydict)
  : result bool :=
  match fs with
  | [] => Ok false
  | d :: fs' =>
      e <- first_entry d ;;
      if propval_eqb (default PVNone (prop_test !! fst e)) (snd e)
      then Ok true
      else any_match prop_test fs'
  end.

(** Lines 576-610: [Ok true] when the feature passes the filter (or no
    filter is set), [Ok false] when it is suppressed. *)
Definition passes_filter (f : option filter_arg) (feat : feature)
  : result bool :=
  if filter_truthy f then
    match f with
    | Some (FilterDict d) =>
        if negb (length d =? 1)%nat
        then Raise (ValueError FilterMalformed)
        else _ <- any_key_missing (items feat) [d] ;;
             any_match (items feat) [d]
    | Some (FilterSeq l) =>
        _ <- any_key_missing (items feat) l ;;
        any_match (items feat) l
    | None => Ok true
    end
  else Ok true.





End Iter.

(** ** Writer: [create_geo_image] and [write_img_like_this]

  numpy arrays are objects: the caller and the callee hold references to
  the same buffer, and [a[np.newaxis, :, :]] is a view of the buffer of
  [a].  The heap maps a buffer address to its elements. *)

Module Writer.
Import Affine Geo.

(** An element of a float array. *)
Inductive elt : Type :=
| Num (q : Qc)
| NaN
| PosInf
| NegInf.

Definition isnan (e : elt) : bool :=
  match e with NaN => true | _ => false end.
Definition isinf (e : elt) : bool :=
  match e with PosInf | NegInf => true | _ => false end.

(** An array object: the address of the buffer it views, its shape and
    its dtype.  The elements lie in the buffer in row-major order. *)
Record ndarray : Type := NdArray {
  base : positive;
  shape : list Z;
  dtype : string
}.

Abbreviation heap := (gmap positive (list elt)).

Definition ndim (a : ndarray) : nat := length (shape a).

(** [a[np.newaxis, :, :]]: a view with a leading axis of length one. *)
Definition newaxis (a : ndarray) : ndarray :=
  NdArray (base a) (1 :: shape a) (dtype a).

(** [a[sel(a)] = v]: assignment through the array into its buffer. *)
Definition assign_where (sel : elt -> bool) (v : Qc) (a : ndarray)
    (h : heap) : heap :=
  match h !! base a with
  | Some buf => <[base a := map (fun e => if sel e then Num v else e) buf]> h
  | None => h
  end.

(** A dataset opened for writing by [driver.Create]: writing the array of
    band [b] with [GetRasterBand(b).WriteArray] returns or raises. *)
Record dst_dataset : Type := DstDataset {
  WriteArray : Z -> gdal unit
}.

(** A GDAL driver: its advertised creation data types, and [Create] on a
    file name, a size (x, y) and a number of bands. *)
Record driver : Type := Driver {
  DMD_CREATIONDATATYPES : list string;
  Create : string -> Z -> Z -> Z -> gdal dst_dataset
}.

(** The collaborators of the writer: [tt.files.filter(name, '*.VRT',
    case_sensitive=False)], [os.path.splitext(name)[0]], the table
    [const.DICT_NP_TO_GDAL] (dtype to GDAL type number),
    [gdal.GetDataTypeName], and [gdal.GetDriverByName], which is [None] for
    a name GDAL does not know. *)
Record collaborators : Type := Collaborators {
  is_vrt_name : string -> bool;
  splitext0 : string -> string;
  DICT_NP_TO_GDAL : string -> option Z;
  GetDataTypeName : Z -> string;
  GetDriverByName : string -> option driver
}.

(** The raster file that was written. *)
Record written : Type := Written {
  w_file_name : string;
  w_driver : string;
  w_size : Z * Z * Z;             (* x_size, y_size, n_bands *)
  w_geo_t : geo_transform;
  w_projection : string;
  w_pixels : list elt;            (* the bands, one after the other *)
  w_no_data : option Qc
}.

(** The [NDV] parameter: left at its default, which is 0, or passed:
    [None], or a number.  A no-data value that is itself NaN or Infinite is
    not among the values modelled. *)
Inductive ndv_arg : Type :=
| NdvDefault
| NdvPassed (v : option Qc).

Definition ndv_value (n : ndv_arg) : option Qc :=
  match n with
  | NdvDefault => Some 0%Qc
  | NdvPassed v => v
  end.

(** Lines 1320-1343: the driver and the file name that are used. *)
Definition resolve_driver (env : collaborators) (new_file_name : string)
    (gdal_driver_name vrt_fallback : string) : string * string :=
  if String.eqb gdal_driver_name "VRT" then
    let gdal_driver_name := vrt_fallback in
    if is_vrt_name env new_file_name then
      if String.eqb gdal_driver_name "GTiff"
      then (gdal_driver_name, (splitext0 env new_file_name ++ ".TIF")%string)
      else (gdal_driver_name, splitext0 env new_file_name)
    else (gdal_driver_name, new_file_name)
  else (gdal_driver_name, new_file_name).

(** Lines 1359-1367: the array with its band axis, and its shape
    (n_bands, y_size, x_size). *)
Definition with_band_axis (a : ndarray) : result (ndarray * (Z * Z * Z)) :=
  a3 <- (match ndim a with
         | 2%nat => Ok (newaxis a)
         | 3%nat => Ok a
         | _ => Raise (ValueError TooManyDimensions)
         end) ;;
  match shape a3 with
  | [n_bands; y_size; x_size] => Ok (a3, (n_bands, y_size, x_size))
  | _ => Raise (ValueError TooManyDimensions)
  end.

(** Lines 1369-1386: the driver is looked up, the dtype of the array is
    checked against it, and the file is created.  [options_ok] is false for
    a truthy [options] that is not a list: the error branch then names an
    exception class that is not bound. *)
Definition create_dataset (env : collaborators) (new_file_name : string)
    (gdal_driver_name : string) (a : ndarray) (size : Z * Z * Z)
    (options_ok : bool) : result dst_dataset :=
  let '(n_bands, y_size, x_size) := size in
  match DICT_NP_TO_GDAL env (dtype a) with
  | None => Raise KeyError
  | Some t =>
      match GetDriverByName env gdal_driver_name with
      | None => Raise AttributeError
      | Some drv =>
          if negb (existsb (String.eqb (GetDataTypeName env t))
                     (DMD_CREATIONDATATYPES drv))
          then Raise (ValueError DTypeUnsupported)
          else if negb options_ok then Raise NameError
          else from_gdal (Create drv new_file_name x_size y_size n_bands)
      end
  end.

(** Lines 1395-1399: the bands are written one after the other. *)
Fixpoint write_bands (ds : dst_dataset) (bs : list nat) : result unit :=
  match bs with
  | [] => Ok tt
  | b :: bs' =>
      _ <- from_gdal (WriteArray ds (Z.of_nat b + 1)) ;;
      write_bands ds bs'
  end.

(** [create_geo_image]: the heap when the call returns or raises, and the
    name of the new file with the file, or the exception.  The [data_type]
    argument only selects the type number passed to [Create] and is left
    out. *)
Definition create_geo_image (env : collaborators) (h : heap)
    (new_file_name : string) (data_np_array : ndarray)
    (gdal_driver_name : string) (gdal_geo_t : geo_transform)
    (gdal_projection : string) (NDV : ndv_arg) (options_ok : bool)
    (vrt_fallback : string) : heap * result (string * written) :=
  let dn := resolve_driver env new_file_name gdal_driver_name vrt_fallback in
  let gdal_driver_name := fst dn in
  let new_file_name := snd dn in
  match with_band_axis data_np_array with
  | Raise e => (h, Raise e)
  | Ok (a, (n_bands, y_size, x_size)) =>
      match create_dataset env new_file_name gdal_driver_name a
              (n_bands, y_size, x_size) options_ok with
      | Raise e => (h, Raise e)
      | Ok dst_ds =>
          (* data_np_array[np.isnan(data_np_array)] = NDV
             data_np_array[np.isinf(data_np_array)] = NDV *)
          let h' := match ndv_value NDV with
                    | Some v =>
                        assign_where isinf v a (assign_where isnan v a h)
                    | None => h
                    end in
          (h',
           _ <- write_bands dst_ds (seq 0 (Z.to_nat n_bands)) ;;
           Ok (new_file_name,
               Written new_file_name gdal_driver_name
                       (x_size, y_size, n_bands) gdal_geo_t gdal_projection
                       (default [] (h' !! base a)) (ndv_value NDV)))
      end
  end.

(** [write_img_like_this] with [return_obj] left false. *)
Definition write_img_like_this (env : collaborators) (h : heap)
    (img : GeoImage) (new_fname : string)
    (np_array : ndarray) (gdal_driver_name : option string)
    (options_ok : bool) (vrt_fallback : string)
  : heap * result (string * written) :=
  match with_band_axis np_array with
  | Raise e => (h, Raise e)
  | Ok (a, (_, s1, s2)) =>
      if negb ((s1 =? shape2 img) && (s2 =? shape1 img))
      then (h, Raise (ValueError SizeMismatch))
      else
        let gdal_driver_name := default (driver_name img) gdal_driver_name in
        create_geo_image env h new_fname a gdal_driver_name
          (geo_transform_of img) (projection_string img)
          (NdvPassed (no_data_value img)) options_ok vrt_fallback
  end.

(** *** Conditions of a successful write *)

(** The driver that is used takes the array: the dtype of the array is
    known, the driver exists and advertises it, [Create] succeeds, and so
    does every [WriteArray]. *)
Definition accepts (env : collaborators) (new_file_name drv fallback : string)
    (a : ndarray) : Prop :=
  let dn := resolve_driver env new_file_name drv fallback in
  exists t d,
    DICT_NP_TO_GDAL env (dtype a) = Some t /\
    GetDriverByName env (fst dn) = Some d /\
    In (GetDataTypeName env t) (DMD_CREATIONDATATYPES d) /\
    forall x y n, exists ds,
      Create d (snd dn) x y n = Done ds /\
      forall b, WriteArray ds b = Done tt.

(** The array has two or three axes; [dims3 a] is its shape with the band
    axis. *)
Definition dims3 (a : ndarray) : option (Z * Z * Z) :=
  match shape a with
  | [ys; xs] => Some (1, ys, xs)
  | [nb; ys; xs] => Some (nb, ys, xs)
  | _ => None
  end.

End Writer.

(** ** Vocabulary of the statements *)

Module Spec.
Import Affine Block Geo.

(** The container a coordinate comes in. *)
Inductive container : Type :=
| Scalar | ListOf | TupleOf | ArrayOf | OtherIterable.

Definition container_of (v : pyval) : container :=
  match v with
  | PInt _ | PFloat _ => Scalar
  | PList _ => ListOf
  | PTuple _ => TupleOf
  | PArray _ => ArrayOf
  | PSet _ => OtherIterable
  end.

Definition size_of (v : pyval) : nat :=
  match v with
  | PInt _ | PFloat _ => 1
  | PList l | PTuple l | PArray l | PSet l => length l
  end.

Definition same_shape (v w : pyval) : Prop :=
  container_of v = container_of w /\ size_of v = size_of w.

(** Pixel to projected and back. *)
Definition roundtrip (gm : geo_transform) (x y : pyval)
  : result (pyval * pyval) :=
  p <- raster_to_proj gm x y ;; proj_to_raster gm (fst p) (snd p).

(** The forward and the inverse map on one point, as the two methods
    compute them element by element. *)
Definition fwd_x (gm : geo_transform) (x y : float) : float :=
  fadd (fadd (fin (gm0 gm)) (fmul (fin (gm1 gm)) x)) (fmul (fin (gm2 gm)) y).
Definition fwd_y (gm : geo_transform) (x y : float) : float :=
  fadd (fadd (fin (gm3 gm)) (fmul (fin (gm4 gm)) x)) (fmul (fin (gm5 gm)) y).
Definition inv_x (gm : geo_transform) (px py : float) : float :=
  fdiv (fsub (fmul (fin (gm5 gm)) (fsub px (fin (gm0 gm))))
             (fmul (fin (gm2 gm)) (fsub py (fin (gm3 gm)))))
       (fin (gm5 gm * gm1 gm + gm4 gm * gm2 gm)%Qc).
Definition inv_y (gm : geo_transform) (px py : float) : float :=
  fdiv (fsub (fsub py (fin (gm3 gm))) (fmul (inv_x gm px py) (fin (gm4 gm))))
       (fin (gm5 gm)).

Definition batch_kind (k : list float -> pyval) : Prop :=
  k = PList \/ k = PTuple \/ k = PArray.

(** Both divisions of [proj_to_raster] have a divisor other than zero. *)
Definition usable (gm : geo_transform) : Prop :=
  (gm5 gm * gm1 gm + gm4 gm * gm2 gm)%Qc <> 0%Qc /\ gm5 gm <> 0%Qc.

(** [a.shape == (rows, cols)] *)
Definition band_shape {A} (rows cols : nat) (a : band A) : Prop :=
  length a = rows /\ Forall (fun r => length r = cols) a.

(** Where the padding lies in an array padded from (rows, cols) by [top]
    rows above and [left] columns before. *)
Definition is_padding (top left rows cols r c : nat) : Prop :=
  (r < top \/ top + rows <= r \/ c < left \/ left + cols <= c)%nat.

(** The window [xoff, yoff, w, h] and the raster of [W] by [H] pixels have
    a pixel in common. *)
Definition shares_pixel (W H xoff yoff w h : Z) : Prop :=
  Z.max 0 xoff < Z.min W (xoff + w) /\ Z.max 0 yoff < Z.min H (yoff + h).


(** Pixel (x, y) does not lie in the raster. *)
Definition outside (W H x y : Z) : Prop :=
  ~ (0 <= x < W /\ 0 <= y < H).

(** Every band of [bs] can be read on every window of positive size
    inside a raster of [W] by [H] pixels. *)
Definition readable (obj : dataset) (W H : Z) (bs : list Z) : Prop :=
  forall b x y w h, In b bs ->
    0 <= x -> 0 <= y -> 0 < w -> 0 < h -> x + w <= W -> y + h <= H ->
    exists f, ReadAsArray obj b x y w h = Done f.

(** [gdal.RasterizeLayer] succeeds on this geometry. *)
Definition burns (g : geometry) : Prop :=
  forall t xs ys touched, exists m, RasterizeLayer g t xs ys touched = Done m.

(** The array one successful read of band [b] gives. *)
Definition band_array (obj : dataset) (x y w h b : Z) : list (list Z) :=
  match ReadAsArray obj b x y w h with
  | Done f => tabulate (Z.to_nat h) (Z.to_nat w) f
  | Failed _ => []
  end.


(** A NaN or an Infinite is replaced by the no-data value. *)
Definition replace_non_finite (v : Qc) (e : Writer.elt) : Writer.elt :=
  if Writer.isnan e || Writer.isinf e then Writer.Num v else e.

(** [r] is not the exception [OverlapError]. *)
Definition quiet {A} (r : result A) : Prop := r <> Raise OverlapError.

(** No [window] argument, or an empty one. *)
Definition window_unset (rq : request) : Prop :=
  window rq = None \/ window rq = Some [].

(** The windows of row [j] from column [i] on, [n] of them. *)
Definition row_windows (tw th : Z) (j i n : nat) : list (list Z) :=
  map (fun k => [Z.of_nat k * tw; Z.of_nat j * th; tw; th]) (seq i n).

(** Rows [j], ..., [j + m - 1], each with columns 0 to [a]. *)
Definition grid_windows (tw th : Z) (a j m : nat) : list (list Z) :=
  flat_map (fun j' => row_windows tw th j' 0 (S a)) (seq j m).

End Spec.

(** ** Concrete rasters, geometries and arrays *)

Module Examples.
Import Affine Block Geo Iter Writer.

Definition q (z : Z) : Qc := Q2Qc (inject_Z z).

(** A north-up transform with one unit per pixel, and a rotated one. *)
Definition north_up : geo_transform := GT (q 0) (q 1) (q 0) (q 0) (q 0) (q 1).
Definition rotated : geo_transform := GT (q 0) (q 2) (q 1) (q 0) (q 1) (q 2).

(** A dataset of [nb] bands and [xs] by [ys] pixels that reads the way
    GDAL's RasterIO does: a band number out of range, a window of
    non-positive size or one that leaves the raster is an error. *)
Definition raster (nb xs ys : Z) (pix : Z -> Z -> Z -> Z) : dataset :=
  Dataset nb xs ys [xs; 1]
    (fun b xoff yoff w h =>
       if (1 <=? b) && (b <=? nb) && (0 <=? xoff) && (0 <=? yoff)
          && (0 <? w) && (0 <? h) && (xoff + w <=? xs) && (yoff + h <=? ys)
       then Done (fun r c => pix b (xoff + c) (yoff + r))
       else Failed 5).

(** Pixel (x, y) of every band holds 1 + x + 1000 y: no pixel is zero. *)
Definition ramp (b x y : Z) : Z := 1 + x + 1000 * y.

Definition image (xs ys : Z) : GeoImage :=
  Image (raster 1 xs ys ramp) [raster 1 xs ys ramp] north_up
        EmptyString (Some (q 0)) "GTiff".

Definition window_request (w : list Z) : request :=
  Request None None (Some w) None None false false VirtFalse false.

(** A mosaic of 200 by 100 pixels over two tiles of 100 by 100. *)
Definition tile_a : dataset := raster 1 100 100 ramp.
Definition tile_b : dataset := raster 1 100 100 (fun b x y => 7).
Definition mosaic : GeoImage :=
  Image (raster 1 200 100 ramp) [tile_a; tile_b] north_up
        EmptyString (Some (q 0)) "VRT".

(** A rectangle in image space that burns every pixel it is asked for. *)
Definition rectangle (minX maxX minY maxY : Z) : geometry :=
  Geometry (q minX, q maxX, q minY, q maxY)
           (fun _ _ _ _ => Done (fun _ _ => true)).

Definition feature_at (name : string) (g : geometry) : feature :=
  Feature {[ "name"%string := PVStr name ]} (GeomFrom g).



(** A float array of shape (2, 2) holding [1, nan, inf, 4] at address 1. *)
Definition float_array : ndarray := NdArray 1%positive [2; 2] "float32".
Definition float_heap : heap :=
  {[ 1%positive := [Num (q 1); NaN; PosInf; Num (q 4)] ]}.

Definition gtiff : driver :=
  Driver ["Byte"; "Float32"]%string
         (fun _ _ _ _ => Done (DstDataset (fun _ => Done tt))).

Definition environment : collaborators :=
  Collaborators (fun _ => false) (fun s => s)
    (fun d => if String.eqb d "float32" then Some 6 else None)
    (fun t => if t =? 6 then "Float32"%string else "Unknown"%string)
    (fun name => if String.eqb name "GTiff" then Some gtiff else None).

(** A rectangle over the upper left corner of the raster, and requests. *)
Definition corner_geometry : geometry := rectangle (-5) 10 (-5) 10.
Definition corner_mask_request (touched : bool) : request :=
  Request None None None None (Some (GeomFrom corner_geometry))
          true touched VirtFalse false.

Definition geometry_request (g : geometry) : request :=
  Request None None None None (Some (GeomFrom g)) false false VirtFalse false.

(** The windows asked of a raster of 100 by 100 pixels tiled by 50 by 50. *)
Definition nine_windows : list (list Z) :=
  [[0; 0; 50; 50]; [50; 0; 50; 50]; [100; 0; 50; 50];
   [0; 50; 50; 50]; [50; 50; 50; 50]; [100; 50; 50; 50];
   [0; 100; 50; 50]; [50; 100; 50; 50]; [100; 100; 50; 50]].

End Examples.

(** ** Further methods: exceptions

  The methods below raise, besides the exceptions above, a [ValueError]
  with a message of their own or of numpy. *)

Inductive exception : Type :=
| Of (e : error)
| ValueErrorSaying (message : string).

Inductive outcome (A : Type) : Type :=
| Returns (a : A)
| Raises (e : exception).
Arguments Returns {A} a.
Arguments Raises {A} e.

Definition obind {A B} (r : outcome A) (k : A -> outcome B) : outcome B :=
  match r with
  | Returns a => k a
  | Raises e => Raises e
  end.

Notation "x <~ r ;; k" := (obind r (fun x => k))
  (at level 100, r at next level, right associativity).

Definition lift {A} (r : result A) : outcome A :=
  match r with
  | Ok a => Returns a
  | Raise e => Raises (Of e)
  end.

(** ** Keyword arguments *)

Module Kwargs.
Import Geo.

(** A request with another [buffer], or other [bands]. *)
Definition with_buffer (rq : request) (b : option buffer_arg) : request :=
  Request (component rq) (bands rq) (window rq) b (geom rq) (mask rq)
          (mask_all_touched rq) (virtual rq) (return_location rq).

Definition with_bands (rq : request) (bs : list Z) : request :=
  Request (component rq) (Some bs) (window rq) (buffer rq) (geom rq)
          (mask rq) (mask_all_touched rq) (virtual rq) (return_location rq).

(** [**kwargs] of a method that hands them to [get_data]: a key is present
    with its value, or absent.  The keys whose default is [None] are absent
    when they are [None]. *)
Record keywords : Type := Keywords {
  kw_component : option Z;
  kw_bands : option (list Z);
  kw_window : option (list Z);
  kw_buffer : option buffer_arg;
  kw_geom : option geom_arg;
  kw_mask : option bool;
  kw_mask_all_touched : option bool;
  kw_virtual : option virtual_arg;
  kw_return_location : option bool
}.

(** The request [get_data(window=w, **kwargs)] makes; an absent key takes
    the default of the signature. *)
Definition request_of (kw : keywords) (w : option (list Z)) : request :=
  Request (kw_component kw) (kw_bands kw) w (kw_buffer kw) (kw_geom kw)
          (default false (kw_mask kw))
          (default false (kw_mask_all_touched kw))
          (default VirtFalse (kw_virtual kw))
          (default false (kw_return_location kw)).

(** [self.get_data(window=w, **kwargs)]: a key given twice is a
    [TypeError] of the call. *)
Definition get_data_window (img : GeoImage) (w : list Z) (kw : keywords)
  : result pixel_block :=
  match kw_window kw with
  | Some _ => Raise TypeError
  | None => get_data img (request_of kw (Some w))
  end.

End Kwargs.

(** ** [iter_window_random] *)

Module Chips.
Import Geo Iter Kwargs.

(** [np.random.randint(high)]: a [ValueError] when [high] is not positive,
    else the next number of the generator; [draw k high] is what the [k]-th
    call of the run returns. *)
Definition randint (draw : nat -> Z -> Z) (k : nat) (high : Z) : outcome Z :=
  if high <=? 0 then Raises (ValueErrorSaying "low >= high")
  else Returns (draw k high).

(** The [while True] loop of lines 506-513: two draws, one [get_data], then
    the counter is decremented and compared with zero.  [None]: more than
    [fuel] turns. *)
Fixpoint chip_loop (fuel : nat) (draw : nat -> Z -> Z) (img : GeoImage)
    (kw : keywords) (xs ys xsize ysize : Z) (k : nat) (counter : Z)
  : option (list pixel_block * option exception) :=
  match fuel with
  | O => None
  | S fuel' =>
      match randint draw k (xs - xsize + 1) with
      | Raises e => Some ([], Some e)
      | Returns xoff =>
          match randint draw (S k) (ys - ysize + 1) with
          | Raises e => Some ([], Some e)
          | Returns yoff =>
              match get_data_window img [xoff; yoff; xsize; ysize] kw with
              | Raise e => Some ([], Some (Of e))
              | Ok blk =>
                  let counter := counter - 1 in
                  if counter =? 0 then Some ([blk], None)
                  else
                    match chip_loop fuel' draw img kw xs ys xsize ysize
                            (S (S k)) counter with
                    | Some (l, e) => Some (blk :: l, e)
                    | None => None
                    end
              end
          end
      end
  end.

Definition iter_window_random (fuel : nat) (draw : nat -> Z -> Z)
    (img : GeoImage) (win_size : option (list Z)) (no_chips : Z)
    (kw : keywords) : option (list pixel_block * option exception) :=
  if seq_truthy win_size
     && existsb (fun x => x <=? 0) (default [] win_size)
  then Some ([], Some (Of (ValueError SizeNotPositive)))
  else
    match win_size with
    | None => Some ([], Some (Of TypeError))   (* None does not unpack *)
    | Some l =>
        match unpack2 l with
        | Raise e => Some ([], Some (Of e))
        | Ok p =>
            chip_loop fuel draw img kw (shape1 img) (shape2 img)
              (fst p) (snd p) 0 no_chips
        end
    end.

End Chips.

(** ** [get_data_from_vec_extent] *)

Module VecExtent.
Import Affine Geo Kwargs.

(** Layer 0 of an opened vector file: [lyr.GetExtent()] = (minX, maxX,
    minY, maxY), and the coordinate transformation from the layer's
    spatial reference to the image's, on one point. *)
Record vector_layer : Type := VectorLayer {
  GetExtent : Qc * Qc * Qc * Qc;
  TransformPoint : Qc * Qc -> float * float
}.

(** The [vector] argument: left at [None], or a name; [ogr.Open] gives
    [None] for a name it cannot open. *)
Inductive vector_arg : Type :=
| NoVector
| Vector (opened : option vector_layer).

Definition get_data_from_vec_extent (img : GeoImage) (vector : vector_arg)
    (kw : keywords) : outcome pixel_block :=
  match vector with
  | NoVector => Raises (ValueErrorSaying "Requires a vector to read.")
  | Vector opened =>
      if bool_decide (is_Some (kw_window kw)) then
        Raises (ValueErrorSaying
                  "The window argument is not valid for this method.")
      else if bool_decide (is_Some (kw_geom kw)) then
        Raises (ValueErrorSaying
                  "The geom argument is not valid for this method.")
      else if bool_decide (is_Some (kw_mask kw)) then
        Raises (ValueErrorSaying
                  "A mask request is not valid for this method")
      else
        match opened with
        | None => Raises (Of AttributeError)
        | Some lyr =>
            lift (window <- _extent_to_window img (GetExtent lyr)
                              (Some (TransformPoint lyr)) ;;
                  get_data_window img window kw)
        end
  end.

End VecExtent.

(** ** [read_geo_file_info] *)

Module Metadata.
Import Affine Geo.

(** An open GDAL dataset through what [read_geo_file_info] asks of it.
    [GetRasterBand(1)] raises on a dataset without bands;
    [AUTHORITY i] is [sr.GetAttrValue("AUTHORITY", i)], which is [None] when
    the projection has no such node. *)
Record gdal_file : Type := GdalFile {
  handle : dataset;
  GetDescription : string;
  GetFileList : list string;
  ShortName : string;
  GetRasterBand1 : gdal (option Qc * Z);   (* GetNoDataValue(), DataType *)
  GetGeoTransform : geo_transform;
  GetProjection : string;
  ExportToPrettyWkt : string;
  AUTHORITY : nat -> option string
}.

Record summary : Type := Summary {
  file_name : string;
  file_list : list string;
  s_driver_name : string;
  s_no_data_value : option Qc;
  gdal_dtype : Z;
  gdal_dtype_name : string;
  pixels : Z;
  s_shape : Z * Z * Z;                 (* (nbands, x, y) *)
  s_geo_transform : geo_transform;
  s_resolution : Qc * Qc;
  extent : Qc * Qc * Qc * Qc;          (* (xstart, xend, ystart, yend) *)
  s_projection_string : string;
  pprint_proj_string : string;
  authority : string
}.

Definition of_int (z : Z) : Qc := Q2Qc (inject_Z z).

Definition read_geo_file_info (GetDataTypeName : Z -> string)
    (fobj : gdal_file) : result summary :=
  b1 <- from_gdal (GetRasterBand1 fobj) ;;
  let x := RasterXSize (handle fobj) in
  let y := RasterYSize (handle fobj) in
  let nbands := RasterCount (handle fobj) in
  let gt := GetGeoTransform fobj in
  let xstart := gm0 gt in
  let xend := (gm0 gt + gm1 gt * of_int x + gm2 gt * of_int y)%Qc in
  let ystart := gm3 gt in
  let yend := (gm3 gt + gm4 gt * of_int x + gm5 gt * of_int y)%Qc in
  let xres := qabs (gm1 gt) in
  let yres := qabs (gm5 gt) in
  (* sr.GetAttrValue("AUTHORITY",0) + ':' + sr.GetAttrValue("AUTHORITY",1) *)
  match AUTHORITY fobj 0, AUTHORITY fobj 1 with
  | Some a0, Some a1 =>
      Ok (Summary (GetDescription fobj) (GetFileList fobj) (ShortName fobj)
                  (fst b1) (snd b1) (GetDataTypeName (snd b1)) (x * y)
                  (nbands, x, y) gt (xres, yres)
                  (xstart, xend, ystart, yend)
                  (GetProjection fobj) (ExportToPrettyWkt fobj)
                  (a0 ++ ":" ++ a1)%string)
  | _, _ => Raise TypeError
  end.

End Metadata.

(** ** [get_img_stretch_vals] *)

Module Stretch.

(** A raster band through the two calls made on it:
    [ComputeRasterMinMax(approx)] = (min, max), and [GetHistogram(min, max,
    buckets, include_out_of_range, approx_ok)], the count of each bucket. *)
Record band_object : Type := BandObject {
  ComputeRasterMinMax : Z -> gdal (Qc * Qc);
  GetHistogram : Qc -> Qc -> Z -> Z -> bool -> gdal (list Z)
}.

(** The first argument: a file name, with what [gdal.Open] gives for it
    ([None] when it cannot be opened), a dataset, given by its bands, or
    anything else. *)
Inductive source_arg : Type :=
| FileName (opened : option (list band_object))
| DatasetObject (f : list band_object)
| OtherObject.

(** [hist.cumsum()] *)
Fixpoint cumsum_from (acc : Z) (l : list Z) : list Z :=
  match l with
  | [] => []
  | x :: l' => (acc + x) :: cumsum_from (acc + x) l'
  end.
Definition cumsum (l : list Z) : list Z := cumsum_from 0 l.

(** [cdf.max()] *)
Definition array_max (l : list Z) : outcome Z :=
  match l with
  | [] => Raises (ValueErrorSaying "zero-size array to reduction operation")
  | x :: l' => Returns (fold_left Z.max l' x)
  end.

(** [np.linspace(start, stop, num)] *)
Definition linspace (start stop : Qc) (num : nat) : list Qc :=
  match num with
  | O => []
  | 1%nat => [start]
  | _ =>
      let step := ((stop - start) / Metadata.of_int (Z.of_nat num - 1))%Qc in
      map (fun i => (start + Metadata.of_int (Z.of_nat i) * step)%Qc) (seq 0 num)
  end.

(** [np.where(cond)[0]]: the indices where the condition holds. *)
Fixpoint where_from (i : nat) (cond : Z -> bool) (l : list Z) : list nat :=
  match l with
  | [] => []
  | x :: l' =>
      if cond x then i :: where_from (S i) cond l'
      else where_from (S i) cond l'
  end.
Definition np_where (cond : Z -> bool) (l : list Z) : list nat :=
  where_from 0 cond l.

(** [l[i]] for [i] not negative, [l[0]] and [l[-1]]. *)
Definition getitem {A} (l : list A) (i : nat) : outcome A :=
  match l !! i with
  | Some a => Returns a
  | None => Raises (Of IndexError)
  end.
Definition first_item {A} (l : list A) : outcome A := getitem l 0.
Definition last_item {A} (l : list A) : outcome A :=
  match last l with
  | Some a => Returns a
  | None => Raises (Of IndexError)
  end.

Definition qlt (a b : Qc) : bool := negb (Qle_bool b a).

(** The body of the loop over the bands, lines 1448-1467: the cut values
    of one band. *)
Definition band_cuts (b : band_object) (stretch : list Qc)
    (approx_ok : bool) : outcome (Qc * Qc) :=
  let approx := if approx_ok then 1 else 0 in
  tmp <~ lift (from_gdal (ComputeRasterMinMax b approx)) ;;
  let imgmax := snd tmp in
  let imgmin := fst tmp in
  hist <~ lift (from_gdal (GetHistogram b imgmin imgmax 1000 0 approx_ok)) ;;
  let bins := linspace imgmin imgmax (length hist) in
  let cdf := cumsum hist in
  m <~ array_max cdf ;;
  s1 <~ getitem stretch 1 ;;
  let top := (Metadata.of_int m * s1)%Qc in
  s0 <~ getitem stretch 0 ;;
  let bottom := (Metadata.of_int m * s0)%Qc in
  it <~ first_item (np_where (fun c => qlt top (Metadata.of_int c)) cdf) ;;
  topcut <~ getitem bins it ;;
  ib <~ last_item (np_where (fun c => qlt (Metadata.of_int c) bottom) cdf) ;;
  bottomcut <~ getitem bins ib ;;
  Returns (bottomcut, topcut).

(** The loop: the cut values are overwritten by every band. *)
Fixpoint stretch_loop (bands : list band_object) (stretch : list Qc)
    (approx_ok : bool) (cuts : option (Qc * Qc))
  : outcome (option (Qc * Qc)) :=
  match bands with
  | [] => Returns cuts
  | b :: bands' =>
      c <~ band_cuts b stretch approx_ok ;;
      stretch_loop bands' stretch approx_ok (Some c)
  end.

Definition get_img_stretch_vals (imgfname_or_gdalobj : source_arg)
    (stretch : list Qc) (approx_ok : bool) : outcome (Qc * Qc) :=
  f <~ match imgfname_or_gdalobj with
       | FileName (Some f) => Returns f
       | FileName None => Raises (Of AttributeError)
       | DatasetObject f => Returns f
       | OtherObject =>
           Raises (ValueErrorSaying
                     "The variable passed in as imgfname_or_gdalobj is neither an image filename string or a gdal object.")
       end ;;
  cuts <~ stretch_loop f stretch approx_ok None ;;
  match cuts with
  | Some c => Returns c
  | None => Raises (Of NameError)      (* the names were never bound *)
  end.

End Stretch.

(** ** Vocabulary of the further statements *)

Module Terms.
Import Affine Block Geo Spec.

(** The mask of [blk] is the burn of [g], negated, padded with [True] as
    the clipping [r] says, and repeated on every band; the raster that was
    burnt has the size of the clipped window and its upper left corner at
    the corner of the pixel that holds the upper left corner of the
    envelope of [g]. *)
Definition burnt_at_envelope_corner (img : GeoImage) (g : geometry)
    (touched : bool) (r : resolved) (blk : pixel_block) : Prop :=
  let gm := geo_transform_of img in
  let '(xmin, xmax, ymin, ymax) := GetEnvelope g in
  exists qx qy m,
    inv_x gm (fin xmin) (fin ymax) = fin qx /\
    inv_y gm (fin xmin) (fin ymax) = fin qy /\
    RasterizeLayer g
      (fwd_x gm (of_Z (Qfloor qx)) (of_Z (Qfloor qy)),
       fin (fst (resolution img)), fin 0%Qc,
       fwd_y gm (of_Z (Qfloor qx)) (of_Z (Qfloor qy)),
       fin 0%Qc, fin (- snd (resolution img))%Qc)
      (r_win_xsize r) (r_win_ysize r) touched = Done m /\
    data_mask blk
    = Some (map (fun _ =>
                   pad_band true
                     (Z.abs_nat (np_yoff_buff r)) (Z.abs_nat (np_ylim_buff r))
                     (Z.abs_nat (np_xoff_buff r)) (Z.abs_nat (np_xlim_buff r))
                     (Z.to_nat (r_win_xsize r))
                     (tabulate (Z.to_nat (r_win_ysize r))
                               (Z.to_nat (r_win_xsize r))
                               (fun r c => negb (m r c))))
                (data blk)).

(** The windows of one row of a grid: columns [i] to [i + n - 1], the
    first column at [x0], the columns [sx] apart. *)
Definition tile_row (x0 sx tw th y : Z) (i n : nat) : list (list Z) :=
  map (fun k => [x0 + Z.of_nat k * sx; y; tw; th]) (seq i n).

(** Rows [j] to [j + m - 1] of the grid, each of [cols] columns, the first
    row at [y0], the rows [sy] apart: row after row. *)
Definition tile_grid (x0 y0 sx sy tw th : Z) (cols j m : nat)
  : list (list Z) :=
  flat_map (fun j' => tile_row x0 sx tw th (y0 + Z.of_nat j' * sy) 0 cols)
           (seq j m).

(** A chip: a block read from a window of the chip size that lies inside
    the raster, without padding. *)
Definition is_chip (img : GeoImage) (bs : list Z) (xsize ysize : Z)
    (blk : pixel_block) : Prop :=
  exists xoff yoff,
    0 <= xoff <= shape1 img - xsize /\ 0 <= yoff <= shape2 img - ysize /\
    data blk = map (band_array (_fobj img) xoff yoff xsize ysize) bs.

(** What GDAL answers for a band: a minimum that is not greater than the
    maximum, and counts that are not negative. *)
Definition sound_band (b : Stretch.band_object) : Prop :=
  (forall approx mn mx,
      Stretch.ComputeRasterMinMax b approx = Done (mn, mx) -> (mn <= mx)%Qc) /\
  (forall mn mx n o ok h,
      Stretch.GetHistogram b mn mx n o ok = Done h ->
      Forall (fun c => 0 <= c) h).

(** [sum(hist)] *)
Definition total (hist : list Z) : Z := fold_right Z.add 0 hist.

End Terms.

(** ** Further concrete values *)

Module Samples.
Import Affine Geo Writer Examples.

(** A grid rotated by 45 degrees: the forward map has determinant 2. *)
Definition diagonal : geo_transform :=
  GT (q 0) (q 1) (q 1) (q 0) (q (-1)) (q 1).

Definition diagonal_image : GeoImage :=
  Image (raster 1 100 100 ramp) [] diagonal EmptyString None "GTiff".

(** A call without keyword arguments. *)
Definition no_keywords : Kwargs.keywords :=
  Kwargs.Keywords None None None None None None None None None.

(** A generator: the [k]-th draw below [high] is [k mod high]. *)
Definition dice (k : nat) (high : Z) : Z := Z.of_nat k mod high.

(** A layer in the image's own spatial reference, over the pixels
    (10, 20) to (20, 40) of [image 100 100]. *)
Definition parcels : VecExtent.vector_layer :=
  VecExtent.VectorLayer (q 10, q 20, q 20, q 40)
    (fun p => (fin (fst p), fin (snd p))).

(** A file of 100 by 50 pixels, 30 units per pixel, north up. *)
Definition scene : Metadata.gdal_file :=
  Metadata.GdalFile (raster 1 100 50 ramp) "scene.tif" ["scene.tif"%string]
    "GTiff" (Done (None, 1))
    (GT (q 1000) (q 30) (q 0) (q 5000) (q 0) (q (-30)))
    EmptyString EmptyString
    (fun i => Some (if Nat.eqb i 0 then "EPSG" else "32640")%string).

(** A driver whose datasets cannot be written to. *)
Definition read_only : driver :=
  Driver ["Float32"%string]
         (fun _ _ _ _ => Done (DstDataset (fun _ => Failed 3))).

Definition read_only_environment : collaborators :=
  Collaborators (fun _ => false) (fun s => s)
    (fun d => if String.eqb d "float32" then Some 6 else None)
    (fun t => if t =? 6 then "Float32"%string else "Unknown"%string)
    (fun name => Some read_only).

(** A band with values from 0 to 2 and the histogram [1, 98, 1], and a
    band half of whose pixels lie in the first bucket. *)
Definition even_band : Stretch.band_object :=
  Stretch.BandObject (fun _ => Done (q 0, q 2))
                     (fun _ _ _ _ _ => Done [1; 98; 1]).
Definition dark_band : Stretch.band_object :=
  Stretch.BandObject (fun _ => Done (q 0, q 2))
                     (fun _ _ _ _ _ => Done [50; 49; 1]).

(** The default [stretch], [0.02, 0.98]. *)
Definition default_stretch : list Qc :=
  [Q2Qc (2 # 100); Q2Qc (98 # 100)].

End Samples.

(** * Properties *)

Import Affine Block Geo Iter Writer Spec Examples.

(** ** Affine transform *)

Lemma length_zip_with f l1 l2 :
  length l1 = length l2 -> length (zip_with f l1 l2) = length l1.
Proof.
  revert l2; induction l1 as [|a l1 IH]; intros [|b l2]; simpl; try congruence.
  intros H; f_equal; apply IH; congruence.
Qed.

Lemma zip_with_map f (g h : float -> float) l1 l2 :
  zip_with f (map g l1) (map h l2) = zip_with (fun a b => f (g a) (h b)) l1 l2.
Proof.
  revert l2; induction l1 as [|a l1 IH]; intros [|b l2]; simpl; try reflexivity.
  f_equal; apply IH.
Qed.

Lemma map_zip_with (g : float -> float) f l1 l2 :
  map g (zip_with f l1 l2) = zip_with (fun a b => g (f a b)) l1 l2.
Proof.
  revert l2; induction l1 as [|a l1 IH]; intros [|b l2]; simpl; try reflexivity.
  f_equal; apply IH.
Qed.

Lemma zip_with_snd_zip f k l1 l2 :
  zip_with f l2 (zip_with k l1 l2) = zip_with (fun a b => f b (k a b)) l1 l2.
Proof.
  revert l2; induction l1 as [|a l1 IH]; intros [|b l2]; simpl; try reflexivity.
  f_equal; apply IH.
Qed.

Lemma broadcast2_same_length f l1 l2 :
  length l1 = length l2 ->
  broadcast2 f (Arr1 l1) (Arr1 l2) = Ok (Arr1 (zip_with f l1 l2)).
Proof.
  intros H. unfold broadcast2. rewrite H, Nat.eqb_refl. reflexivity.
Qed.

Ltac affine_step :=
  cbn [type_of pytype_eqb negb intype asarray rbind scal rscal elements
       to_intype Z.eqb Pos.eqb].

Lemma raster_to_proj_batch gm k l1 l2 :
  batch_kind k -> length l1 = length l2 ->
  raster_to_proj gm (k l1) (k l2)
  = Ok (k (zip_with (fwd_x gm) l1 l2), k (zip_with (fwd_y gm) l1 l2)).
Proof.
  intros Hk Hlen.
  destruct Hk as [->|[->| ->]];
    unfold raster_to_proj; affine_step;
    rewrite !broadcast2_same_length by (rewrite !length_map; exact Hlen);
    affine_step; rewrite !map_map, !zip_with_map; reflexivity.
Qed.

Lemma proj_to_raster_batch gm k l1 l2 :
  batch_kind k -> length l1 = length l2 ->
  proj_to_raster gm (k l1) (k l2)
  = Ok (k (zip_with (inv_x gm) l1 l2), k (zip_with (inv_y gm) l1 l2)).
Proof.
  intros Hk Hlen.
  destruct Hk as [->|[->| ->]];
    unfold proj_to_raster; affine_step;
    rewrite (broadcast2_same_length fsub) by (rewrite !length_map; exact Hlen);
    affine_step;
    rewrite (broadcast2_same_length fsub)
      by (rewrite !length_map, length_zip_with; rewrite !length_map; congruence);
    affine_step;
    rewrite !map_map, !zip_with_map, !map_zip_with, zip_with_snd_zip;
    reflexivity.
Qed.

(** What the code computes on a finite point. *)
Lemma inv_fwd_x gm (x y : Qc) :
  (gm5 gm * gm1 gm + gm4 gm * gm2 gm <> 0)%Qc ->
  inv_x gm (fwd_x gm (fin x) (fin y)) (fwd_y gm (fin x) (fin y))
  = fin (x * (gm1 gm * gm5 gm - gm2 gm * gm4 gm)
           / (gm5 gm * gm1 gm + gm4 gm * gm2 gm))%Qc.
Proof.
  intros Hden. unfold inv_x, fwd_x, fwd_y, fadd, fsub, fmul, fdiv, lift2, fin.
  destruct (Qc_eq_dec _ 0%Qc) as [E|_]; [contradiction|].
  f_equal. field. exact Hden.
Qed.

Lemma inv_fwd_north_up gm (x y : Qc) :
  (gm2 gm * gm4 gm = 0)%Qc -> gm1 gm <> 0%Qc -> gm5 gm <> 0%Qc ->
  inv_x gm (fwd_x gm (fin x) (fin y)) (fwd_y gm (fin x) (fin y)) = fin x /\
  inv_y gm (fwd_x gm (fin x) (fin y)) (fwd_y gm (fin x) (fin y)) = fin y.
Proof.
  intros H24 H1 H5.
  assert (Hden : (gm5 gm * gm1 gm + gm4 gm * gm2 gm)%Qc <> 0%Qc).
  { replace (gm4 gm * gm2 gm)%Qc with 0%Qc by (rewrite <- H24; ring).
    rewrite Qcplus_0_r. intros E. apply Qcmult_integral in E. tauto. }
  assert (Hx : inv_x gm (fwd_x gm (fin x) (fin y)) (fwd_y gm (fin x) (fin y)) = fin x).
  { rewrite inv_fwd_x by exact Hden. f_equal.
    replace (gm2 gm * gm4 gm)%Qc with 0%Qc by (rewrite <- H24; ring).
    replace (gm4 gm * gm2 gm)%Qc with 0%Qc by (rewrite <- H24; ring).
    field. tauto. }
  split; [exact Hx|].
  unfold inv_y. rewrite Hx.
  unfold fwd_y, fadd, fsub, fmul, fdiv, lift2, fin.
  destruct (Qc_eq_dec _ 0%Qc) as [E|_]; [contradiction|].
  f_equal. field. exact H5.
Qed.

Lemma zip_with_zip_zip f g1 g2 l1 l2 :
  zip_with f (zip_with g1 l1 l2) (zip_with g2 l1 l2)
  = zip_with (fun a b => f (g1 a b) (g2 a b)) l1 l2.
Proof.
  revert l2; induction l1 as [|a l1 IH]; intros [|b l2]; simpl; try reflexivity.
  f_equal; apply IH.
Qed.

Lemma zip_with_ext_finite (f : float -> float -> float) (l1 l2 : list Qc) :
  (forall a b, f (fin a) (fin b) = fin a) ->
  length l1 = length l2 ->
  zip_with f (map fin l1) (map fin l2) = map fin l1.
Proof.
  intros Hf. revert l2; induction l1 as [|a l1 IH]; intros [|b l2]; simpl; try congruence.
  intros H. rewrite Hf. f_equal. apply IH. congruence.
Qed.

Lemma zip_with_ext_finite_r (f : float -> float -> float) (l1 l2 : list Qc) :
  (forall a b, f (fin a) (fin b) = fin b) ->
  length l1 = length l2 ->
  zip_with f (map fin l1) (map fin l2) = map fin l2.
Proof.
  intros Hf. revert l2; induction l1 as [|a l1 IH]; intros [|b l2]; simpl; try congruence.
  intros H. rewrite Hf. f_equal. apply IH. congruence.
Qed.

Lemma roundtrip_north_up_batch gm k (xs ys : list Qc) :
  batch_kind k ->
  (gm2 gm * gm4 gm = 0)%Qc -> gm1 gm <> 0%Qc -> gm5 gm <> 0%Qc ->
  length xs = length ys ->
  roundtrip gm (k (map fin xs)) (k (map fin ys))
  = Ok (k (map fin xs), k (map fin ys)).
Proof.
  intros Hk H24 H1 H5 Hlen. unfold roundtrip.
  rewrite raster_to_proj_batch by (rewrite ?length_map; auto).
  cbn [rbind fst snd].
  rewrite proj_to_raster_batch
    by (rewrite ?length_zip_with; rewrite ?length_map; auto).
  rewrite !zip_with_zip_zip.
  rewrite zip_with_ext_finite, zip_with_ext_finite_r; auto.
  - intros a b. apply (inv_fwd_north_up gm a b); auto.
  - intros a b. apply (inv_fwd_north_up gm a b); auto.
Qed.

Lemma raster_to_proj_scalar gm (x y : float) :
  raster_to_proj gm (PFloat x) (PFloat y)
  = Ok (PFloat (fwd_x gm x y), PFloat (fwd_y gm x y)).
Proof. reflexivity. Qed.

Lemma proj_to_raster_scalar gm (x y : float) :
  proj_to_raster gm (PFloat x) (PFloat y)
  = Ok (PFloat (inv_x gm x y), PFloat (inv_y gm x y)).
Proof. reflexivity. Qed.

Lemma roundtrip_north_up_scalar gm (x y : Qc) :
  (gm2 gm * gm4 gm = 0)%Qc -> gm1 gm <> 0%Qc -> gm5 gm <> 0%Qc ->
  roundtrip gm (PFloat (fin x)) (PFloat (fin y))
  = Ok (PFloat (fin x), PFloat (fin y)).
Proof.
  intros H24 H1 H5.
  destruct (inv_fwd_north_up gm x y H24 H1 H5) as [Hx Hy].
  unfold roundtrip. rewrite raster_to_proj_scalar. cbn [rbind fst snd].
  rewrite proj_to_raster_scalar, Hx, Hy. reflexivity.
Qed.

Ltac qc_eq :=
  repeat match goal with
         | |- Ok _ = Ok _ => apply f_equal
         | |- (_, _) = (_, _) => apply f_equal2
         | |- PFloat _ = PFloat _ => apply f_equal
         | |- PList _ = PList _ => apply f_equal
         | |- PTuple _ = PTuple _ => apply f_equal
         | |- PArray _ = PArray _ => apply f_equal
         | |- Some _ = Some _ => apply f_equal
         | |- _ :: _ = _ :: _ => apply f_equal2
         | |- Qcmake _ _ = _ => apply Qc_is_canon; reflexivity
         | |- _ => reflexivity
         end.

(** On a point with x other than zero the round trip misses x as soon as
    gm[2]*gm[4] is not zero, that is, on every rotated or sheared grid. *)
Lemma roundtrip_is_off gm (x y : Qc) :
  (gm5 gm * gm1 gm + gm4 gm * gm2 gm)%Qc <> 0%Qc ->
  (gm2 gm * gm4 gm)%Qc <> 0%Qc -> x <> 0%Qc ->
  inv_x gm (fwd_x gm (fin x) (fin y)) (fwd_y gm (fin x) (fin y)) <> fin x.
Proof.
  intros Hden H24 Hx E. rewrite inv_fwd_x in E by exact Hden.
  injection E as E.
  assert (E1 : (x * (gm1 gm * gm5 gm - gm2 gm * gm4 gm))%Qc
               = (x * (gm5 gm * gm1 gm + gm4 gm * gm2 gm))%Qc).
  { rewrite <- E at 2. field. exact Hden. }
  assert (E2 : ((x + x) * (gm2 gm * gm4 gm))%Qc = 0%Qc).
  { transitivity ((x * (gm5 gm * gm1 gm + gm4 gm * gm2 gm))
                  - (x * (gm1 gm * gm5 gm - gm2 gm * gm4 gm)))%Qc; [ring|].
    rewrite E1. ring. }
  apply Qcmult_integral in E2. destruct E2 as [E2|E2]; [|contradiction].
  assert (E3 : ((1 + 1) * x)%Qc = 0%Qc) by (rewrite <- E2; ring).
  apply Qcmult_integral in E3. destruct E3 as [E3|E3]; [|contradiction].
  apply (f_equal this) in E3. vm_compute in E3. discriminate E3.
Qed.

Lemma pytype_eqb_eq a b : pytype_eqb a b = true <-> a = b.
Proof. destruct a, b; cbn; split; intros H; congruence. Qed.

(** C1 (code at the failing input).  The pixel to projected to pixel round
    trip is not the identity on a rotated geo-transform: with the
    coefficients (0, 2, 1, 0, 1, 2), [raster_to_proj] sends pixel (5, 0) to
    (10, 5), and [proj_to_raster] sends (10, 5) to (3, 1).  The divisor of
    [proj_to_raster] is gm[5]*gm[1] + gm[4]*gm[2]; the determinant of the
    forward map is gm[5]*gm[1] - gm[4]*gm[2]. *)
Theorem roundtrip_on_rotated_transform :
  raster_to_proj rotated (PFloat (fin (q 5))) (PFloat (fin (q 0)))
  = Ok (PFloat (fin (q 10)), PFloat (fin (q 5))) /\
  proj_to_raster rotated (PFloat (fin (q 10))) (PFloat (fin (q 5)))
  = Ok (PFloat (fin (q 3)), PFloat (fin (q 1))) /\
  roundtrip rotated (PFloat (fin (q 5))) (PFloat (fin (q 0)))
  = Ok (PFloat (fin (q 3)), PFloat (fin (q 1))).
Proof. repeat split; vm_compute; qc_eq. Qed.

(** C7, as amended.  Given two coordinates of the same Python type (both
    int, both float, both list, both tuple or both ndarray) and of the same
    length, [raster_to_proj] and [proj_to_raster] return two results in the
    container of the input and of its length; given two coordinates of
    different types they raise the ValueError of the type test. *)
Theorem same_type_inputs_keep_their_container gm x y :
  (type_of x = type_of y -> container_of x <> OtherIterable ->
   size_of x = size_of y ->
   (exists rx ry, raster_to_proj gm x y = Ok (rx, ry) /\
                  same_shape rx x /\ same_shape ry y) /\
   (exists rx ry, proj_to_raster gm x y = Ok (rx, ry) /\
                  same_shape rx x /\ same_shape ry y)) /\
  (type_of x <> type_of y ->
   raster_to_proj gm x y = Raise (ValueError MixedTypes) /\
   proj_to_raster gm x y = Raise (ValueError MixedTypes)).
Proof.
  split.
  - intros Ht Hc Hs.
    destruct x as [a|a|l1|l1|l1|l1], y as [b|b|l2|l2|l2|l2];
      try discriminate Ht; try (exfalso; apply Hc; reflexivity);
      cbn [size_of] in Hs.
    + split; eexists _, _; (split; [reflexivity|]); split; split; reflexivity.
    + split; eexists _, _; (split; [reflexivity|]); split; split; reflexivity.
    + rewrite (raster_to_proj_batch gm PList), (proj_to_raster_batch gm PList)
        by (auto; left; reflexivity).
      split; eexists _, _; (split; [reflexivity|]); split; split;
        cbn [container_of size_of]; rewrite ?length_zip_with; auto.
    + rewrite (raster_to_proj_batch gm PTuple), (proj_to_raster_batch gm PTuple)
        by (auto; right; left; reflexivity).
      split; eexists _, _; (split; [reflexivity|]); split; split;
        cbn [container_of size_of]; rewrite ?length_zip_with; auto.
    + rewrite (raster_to_proj_batch gm PArray), (proj_to_raster_batch gm PArray)
        by (auto; right; right; reflexivity).
      split; eexists _, _; (split; [reflexivity|]); split; split;
        cbn [container_of size_of]; rewrite ?length_zip_with; auto.
  - intros Hne.
    assert (E : pytype_eqb (type_of x) (type_of y) = false).
    { destruct (pytype_eqb _ _) eqn:E; [|reflexivity].
      apply pytype_eqb_eq in E. contradiction. }
    unfold raster_to_proj, proj_to_raster. rewrite E. split; reflexivity.
Qed.

(** C7, on a pair of tuples, and on a list with a tuple. *)
Lemma pairs_and_mixed_inputs :
  (exists rx ry,
      raster_to_proj north_up (PTuple [fin (q 3); fin (q 4)])
                              (PTuple [fin (q 5); fin (q 6)]) = Ok (rx, ry) /\
      same_shape rx (PTuple [fin (q 3); fin (q 4)]) /\
      same_shape ry (PTuple [fin (q 5); fin (q 6)])) /\
  proj_to_raster north_up (PList [fin (q 3)]) (PTuple [fin (q 5)])
  = Raise (ValueError MixedTypes).
Proof.
  split.
  - apply (same_type_inputs_keep_their_container north_up
             (PTuple [fin (q 3); fin (q 4)]) (PTuple [fin (q 5); fin (q 6)]));
      [reflexivity|discriminate|reflexivity].
  - apply (same_type_inputs_keep_their_container north_up
             (PList [fin (q 3)]) (PTuple [fin (q 5)])).
    discriminate.
Defined.

(** C7, counterexample.  An int and a float are both scalars, and both
    methods reject the pair. *)
Lemma int_with_float_is_rejected :
  container_of (PInt 1) = container_of (PFloat (fin (q 2))) /\
  size_of (PInt 1) = size_of (PFloat (fin (q 2))) /\
  raster_to_proj north_up (PInt 1) (PFloat (fin (q 2)))
  = Raise (ValueError MixedTypes) /\
  proj_to_raster north_up (PInt 1) (PFloat (fin (q 2)))
  = Raise (ValueError MixedTypes).
Proof. repeat split. Qed.

(** ** Arrays *)

Lemma lookup_map_list {A B} (f : A -> B) (l : list A) (i : nat) :
  map f l !! i = option_map f (l !! i).
Proof.
  revert i; induction l as [|x l IH]; intros [|i]; simpl; auto.
Qed.

Section BlockFacts.
Context {A : Type}.
Implicit Types (a : band A) (d : block A).

Lemma tabulate_lookup rows cols (f : Z -> Z -> A) (r : nat) :
  (r < rows)%nat ->
  tabulate rows cols f !! r
  = Some (map (fun c => f (Z.of_nat r) (Z.of_nat c)) (seq 0 cols)).
Proof.
  intros Hr. unfold tabulate.
  rewrite lookup_map_list, lookup_seq_lt by exact Hr. reflexivity.
Qed.

Lemma tabulate_at rows cols (f : Z -> Z -> A) (r c : nat) :
  (r < rows)%nat -> (c < cols)%nat ->
  match tabulate rows cols f !! r with
  | Some row => row !! c
  | None => None
  end = Some (f (Z.of_nat r) (Z.of_nat c)).
Proof.
  intros Hr Hc. rewrite tabulate_lookup by exact Hr.
  rewrite lookup_map_list, lookup_seq_lt by exact Hc. reflexivity.
Qed.

Lemma tabulate_shape rows cols (f : Z -> Z -> A) :
  band_shape rows cols (tabulate rows cols f).
Proof.
  split.
  - unfold tabulate. now rewrite length_map, length_seq.
  - unfold tabulate. apply List.Forall_forall. intros r Hin.
    apply in_map_iff in Hin as (i & <- & _).
    now rewrite length_map, length_seq.
Qed.

Lemma pad_row_length (c : A) left right (r : list A) :
  length (pad_row c left right r) = (left + length r + right)%nat.
Proof. unfold pad_row. rewrite !length_app, !length_replicate. lia. Qed.

Lemma pad_band_shape (c : A) top bottom left right rows cols a :
  band_shape rows cols a ->
  band_shape (top + rows + bottom) (left + cols + right)
    (pad_band c top bottom left right cols a).
Proof.
  intros [Hrows Hcols]. unfold pad_band. split.
  - rewrite !length_app, !length_replicate, length_map. lia.
  - apply List.Forall_forall. intros r Hin.
    rewrite !in_app_iff in Hin. destruct Hin as [Hin|[Hin|Hin]].
    + apply list_elem_of_In, elem_of_replicate in Hin as [-> _].
      apply length_replicate.
    + apply in_map_iff in Hin as (r0 & <- & Hr0).
      rewrite pad_row_length.
      rewrite List.Forall_forall in Hcols. rewrite (Hcols r0 Hr0). lia.
    + apply list_elem_of_In, elem_of_replicate in Hin as [-> _].
      apply length_replicate.
Qed.

(** A row of the padded band: a padding row above and below, a padded
    row of [a] in between. *)
Lemma pad_band_lookup_top (c : A) top bottom left right cols a (r : nat) :
  (r < top)%nat ->
  pad_band c top bottom left right cols a !! r
  = Some (replicate (left + cols + right) c).
Proof.
  intros Hr. unfold pad_band.
  rewrite lookup_app_l by (rewrite length_replicate; lia).
  apply lookup_replicate_2. exact Hr.
Qed.

Lemma pad_band_lookup_mid (c : A) top bottom left right cols a (r : nat) :
  (r < length a)%nat ->
  pad_band c top bottom left right cols a !! (top + r)%nat
  = option_map (pad_row c left right) (a !! r).
Proof.
  intros Hr. unfold pad_band.
  rewrite lookup_app_r by (rewrite length_replicate; lia).
  rewrite length_replicate.
  replace (top + r - top)%nat with r by lia.
  rewrite lookup_app_l by (rewrite length_map; lia).
  apply lookup_map_list.
Qed.

Lemma pad_band_lookup_bottom (c : A) top bottom left right cols a (r : nat) :
  (top + length a <= r < top + length a + bottom)%nat ->
  pad_band c top bottom left right cols a !! r
  = Some (replicate (left + cols + right) c).
Proof.
  intros Hr. unfold pad_band.
  rewrite lookup_app_r by (rewrite length_replicate; lia).
  rewrite length_replicate.
  rewrite lookup_app_r by (rewrite length_map; lia).
  rewrite length_map.
  apply lookup_replicate_2. lia.
Qed.

Lemma pad_row_lookup_left (c : A) left right (row : list A) (i : nat) :
  (i < left)%nat -> pad_row c left right row !! i = Some c.
Proof.
  intros Hi. unfold pad_row.
  rewrite lookup_app_l by (rewrite length_replicate; lia).
  apply lookup_replicate_2. exact Hi.
Qed.

Lemma pad_row_lookup_mid (c : A) left right (row : list A) (i : nat) :
  (i < length row)%nat -> pad_row c left right row !! (left + i)%nat = row !! i.
Proof.
  intros Hi. unfold pad_row.
  rewrite lookup_app_r by (rewrite length_replicate; lia).
  rewrite length_replicate.
  replace (left + i - left)%nat with i by lia.
  apply lookup_app_l. exact Hi.
Qed.

Lemma pad_row_lookup_right (c : A) left right (row : list A) (i : nat) :
  (left + length row <= i < left + length row + right)%nat ->
  pad_row c left right row !! i = Some c.
Proof.
  intros Hi. unfold pad_row.
  rewrite lookup_app_r by (rewrite length_replicate; lia).
  rewrite length_replicate.
  rewrite lookup_app_r by lia.
  apply lookup_replicate_2. lia.
Qed.

Lemma pad_band_padding (c0 : A) top bottom left right rows cols a (r c : nat) :
  band_shape rows cols a ->
  (r < top + rows + bottom)%nat -> (c < left + cols + right)%nat ->
  is_padding top left rows cols r c ->
  match pad_band c0 top bottom left right cols a !! r with
  | Some row => row !! c
  | None => None
  end = Some c0.
Proof.
  intros [Hrows Hcols] Hr Hc Hpad.
  destruct (Nat.lt_ge_cases r top) as [Ht|Ht].
  { rewrite pad_band_lookup_top by exact Ht.
    apply lookup_replicate_2. exact Hc. }
  destruct (Nat.lt_ge_cases r (top + rows)) as [Hm|Hm].
  2:{ rewrite pad_band_lookup_bottom by lia.
      apply lookup_replicate_2. exact Hc. }
  replace r with (top + (r - top))%nat by lia.
  rewrite pad_band_lookup_mid by lia.
  destruct (a !! (r - top)%nat) as [row|] eqn:Hrow.
  2:{ apply lookup_ge_None in Hrow. lia. }
  cbn [option_map].
  assert (Hlen : length row = cols).
  { rewrite List.Forall_forall in Hcols. apply Hcols.
    apply list_elem_of_In. eapply list_elem_of_lookup_2. exact Hrow. }
  destruct Hpad as [Hp|[Hp|[Hp|Hp]]]; try lia.
  - apply pad_row_lookup_left. exact Hp.
  - apply pad_row_lookup_right. lia.
Qed.

Lemma pad_band_inside (c0 : A) top bottom left right rows cols a (r c : nat) :
  band_shape rows cols a -> (r < rows)%nat -> (c < cols)%nat ->
  match pad_band c0 top bottom left right cols a !! (top + r)%nat with
  | Some row => row !! (left + c)%nat
  | None => None
  end = match a !! r with
        | Some row => row !! c
        | None => None
        end.
Proof.
  intros [Hrows Hcols] Hr Hc.
  rewrite pad_band_lookup_mid by lia.
  destruct (a !! r) as [row|] eqn:Hrow; [|reflexivity].
  cbn [option_map]. apply pad_row_lookup_mid.
  rewrite List.Forall_forall in Hcols. rewrite (Hcols row); [exact Hc|].
  apply list_elem_of_In. eapply list_elem_of_lookup_2. exact Hrow.
Qed.

Lemma block_shape_pad (c0 : A) top bottom left right n rows cols d :
  block_shape n rows cols d ->
  block_shape n (top + rows + bottom) (left + cols + right)
    (pad_block c0 top bottom left right cols d).
Proof.
  intros [Hn Hd]. unfold pad_block. split.
  - now rewrite length_map.
  - apply List.Forall_forall. intros a Hin.
    apply in_map_iff in Hin as (a0 & <- & Ha0).
    rewrite List.Forall_forall in Hd.
    apply pad_band_shape. apply Hd. exact Ha0.
Qed.

Lemma at3_pad_padding (c0 : A) top bottom left right n rows cols d (b r c : nat) :
  block_shape n rows cols d ->
  (b < n)%nat -> (r < top + rows + bottom)%nat -> (c < left + cols + right)%nat ->
  is_padding top left rows cols r c ->
  at3 (pad_block c0 top bottom left right cols d) b r c = Some c0.
Proof.
  intros [Hn Hd] Hb Hr Hc Hpad. unfold at3, pad_block.
  rewrite lookup_map_list.
  destruct (d !! b) as [a|] eqn:Ha.
  2:{ apply lookup_ge_None in Ha. lia. }
  cbn [option_map].
  eapply pad_band_padding; eauto.
  rewrite List.Forall_forall in Hd. apply Hd.
  apply list_elem_of_In. eapply list_elem_of_lookup_2. exact Ha.
Qed.

Lemma at3_pad_inside (c0 : A) top bottom left right n rows cols d (b r c : nat) :
  block_shape n rows cols d ->
  (b < n)%nat -> (r < rows)%nat -> (c < cols)%nat ->
  at3 (pad_block c0 top bottom left right cols d) b (top + r) (left + c)
  = at3 d b r c.
Proof.
  intros [Hn Hd] Hb Hr Hc. unfold at3, pad_block.
  rewrite lookup_map_list.
  destruct (d !! b) as [a|] eqn:Ha; [|reflexivity].
  cbn [option_map].
  eapply pad_band_inside; eauto.
  rewrite List.Forall_forall in Hd. apply Hd.
  apply list_elem_of_In. eapply list_elem_of_lookup_2. exact Ha.
Qed.

Lemma pad_block_nothing (c0 : A) n rows cols d :
  block_shape n rows cols d -> pad_block c0 0 0 0 0 cols d = d.
Proof.
  intros [Hn Hd]. unfold pad_block, pad_band, pad_row. cbn [replicate app].
  rewrite <- (map_id d) at 2. apply map_ext_in. intros a Ha.
  rewrite app_nil_r. rewrite <- (map_id a) at 2. apply map_ext.
  intros row. now rewrite app_nil_r.
Qed.

End BlockFacts.

(** ** The window resolver and [get_data] *)

Ltac clip_cases :=
  unfold clip_window; rewrite ?Z.gtb_ltb;
  repeat match goal with
         | |- context [?a <? ?b] => destruct (Z.ltb_spec a b)
         end;
  cbn [r_xoff r_yoff r_win_xsize r_win_ysize
       np_xoff_buff np_yoff_buff np_xlim_buff np_ylim_buff].

Lemma clip_window_inside W H xoff yoff w h :
  0 <= xoff -> 0 <= yoff -> xoff + w <= W -> yoff + h <= H ->
  clip_window W H xoff yoff w h = Resolved xoff yoff w h 0 0 0 0.
Proof. intros. clip_cases; try lia; reflexivity. Qed.

Lemma clip_window_overlap W H xoff yoff w h :
  shares_pixel W H xoff yoff w h ->
  let r := clip_window W H xoff yoff w h in
  r_xoff r = Z.max 0 xoff /\ r_yoff r = Z.max 0 yoff /\
  r_win_xsize r = Z.min W (xoff + w) - Z.max 0 xoff /\
  r_win_ysize r = Z.min H (yoff + h) - Z.max 0 yoff /\
  Z.of_nat (Z.abs_nat (np_xoff_buff r)) = Z.max 0 xoff - xoff /\
  Z.of_nat (Z.abs_nat (np_yoff_buff r)) = Z.max 0 yoff - yoff /\
  Z.of_nat (Z.abs_nat (np_xlim_buff r)) = xoff + w - Z.min W (xoff + w) /\
  Z.of_nat (Z.abs_nat (np_ylim_buff r)) = yoff + h - Z.min H (yoff + h).
Proof.
  intros [Hx Hy]. cbv zeta. clip_cases; rewrite ?Zabs2Nat.id_abs; lia.
Qed.

Lemma read_bands_ok obj x y w h bs :
  (forall b, In b bs -> exists f, ReadAsArray obj b x y w h = Done f) ->
  read_bands obj x y w h bs = Ok (map (band_array obj x y w h) bs).
Proof.
  induction bs as [|b bs IH]; intros Hall; [reflexivity|].
  cbn [read_bands map].
  destruct (Hall b (or_introl eq_refl)) as [f Hf].
  unfold band_array at 1. rewrite Hf. cbn [from_gdal rbind].
  rewrite IH by (intros b' Hb'; apply Hall; right; exact Hb').
  reflexivity.
Qed.

Lemma read_data_ok obj x y w h bs :
  bs <> [] -> 0 <= w -> 0 <= h ->
  (forall b, In b bs -> exists f, ReadAsArray obj b x y w h = Done f) ->
  read_data obj x y w h bs = Ok (Some (map (band_array obj x y w h) bs)).
Proof.
  intros Hne Hw Hh Hall. destruct bs as [|b bs]; [congruence|].
  unfold read_data.
  destruct (Hall b (or_introl eq_refl)) as [f Hf]. rewrite Hf.
  cbn [from_gdal rbind].
  destruct (Z.ltb_spec w 0); [lia|]. destruct (Z.ltb_spec h 0); [lia|].
  cbn [orb]. rewrite read_bands_ok by exact Hall. reflexivity.
Qed.

Lemma band_arrays_shape obj x y w h bs :
  (forall b, In b bs -> exists f, ReadAsArray obj b x y w h = Done f) ->
  block_shape (length bs) (Z.to_nat h) (Z.to_nat w)
    (map (band_array obj x y w h) bs).
Proof.
  intros Hall. split; [now rewrite length_map|].
  apply List.Forall_forall. intros a Hin.
  apply in_map_iff in Hin as (b & <- & Hb).
  destruct (Hall b Hb) as [f Hf]. unfold band_array. rewrite Hf.
  apply tabulate_shape.
Qed.

Lemma band_arrays_at obj x y w h bs (i : nat) b f (r c : nat) :
  bs !! i = Some b -> ReadAsArray obj b x y w h = Done f ->
  (r < Z.to_nat h)%nat -> (c < Z.to_nat w)%nat ->
  at3 (map (band_array obj x y w h) bs) i r c
  = Some (f (Z.of_nat r) (Z.of_nat c)).
Proof.
  intros Hi Hf Hr Hc. unfold at3.
  rewrite lookup_map_list, Hi. cbn [option_map].
  unfold band_array. rewrite Hf. apply tabulate_at; assumption.
Qed.

Lemma nonzero_mask_shape n rows cols (d : list (list (list Z))) :
  block_shape n rows cols d -> block_shape n rows cols (nonzero_mask d).
Proof.
  intros [Hn Hd]. unfold nonzero_mask. split; [now rewrite length_map|].
  apply List.Forall_forall. intros a Hin.
  apply in_map_iff in Hin as (a0 & <- & Ha0).
  rewrite List.Forall_forall in Hd. destruct (Hd a0 Ha0) as [Hr Hc].
  split; [now rewrite length_map|].
  apply List.Forall_forall. intros row Hrow.
  apply in_map_iff in Hrow as (r0 & <- & Hr0).
  rewrite length_map. rewrite List.Forall_forall in Hc. now apply Hc.
Qed.

Lemma tiled_mask_shape {A} n rows cols (d : list A) (m : Z -> Z -> bool) :
  length d = n ->
  block_shape n rows cols (map (fun _ => tabulate rows cols m) d).
Proof.
  intros Hn. split; [now rewrite length_map|].
  apply List.Forall_forall. intros a Hin.
  apply in_map_iff in Hin as (a0 & <- & Ha0). apply tabulate_shape.
Qed.

(** The burn succeeds when the transform is usable and GDAL burns. *)
Lemma geometry_mask_ok img g xs ys touched (d : list (list (list Z))) :
  usable (geo_transform_of img) -> burns g ->
  exists m, geometry_mask img g xs ys touched (Some d)
            = Ok (d, map (fun _ => tabulate (Z.to_nat ys) (Z.to_nat xs) m) d).
Proof.
  intros [Hden H5] Hburn. unfold geometry_mask.
  destruct (GetEnvelope g) as [[[xmin xmax] ymin] ymax].
  rewrite proj_to_raster_scalar. cbn [rbind fst snd].
  assert (Hx : exists qx, inv_x (geo_transform_of img) (fin xmin) (fin ymax) = Some qx).
  { unfold inv_x, fsub, fmul, fdiv, lift2, fin.
    destruct (Qc_eq_dec _ 0%Qc); [contradiction|eauto]. }
  destruct Hx as [qx Hx].
  assert (Hy : exists qy, inv_y (geo_transform_of img) (fin xmin) (fin ymax) = Some qy).
  { unfold inv_y. rewrite Hx. unfold fsub, fmul, fdiv, lift2, fin.
    destruct (Qc_eq_dec _ 0%Qc); [contradiction|eauto]. }
  destruct Hy as [qy Hy].
  rewrite Hx, Hy. cbn [floor_float rbind].
  rewrite raster_to_proj_scalar. cbn [rbind fst snd float_of].
  match goal with
  | |- context [RasterizeLayer g ?t xs ys touched] =>
      destruct (Hburn t xs ys touched) as [m Hm]; rewrite Hm
  end.
  cbn [from_gdal rbind use_data].
  exists (fun r c => negb (m r c)). reflexivity.
Qed.

Section Overlapping.
Variables (img : GeoImage) (rq : request) (obj : dataset).
Variables (g : option geometry) (w0 : Z * Z * Z * Z) (xoff yoff w h : Z).
Let W := shape1 img.
Let H := shape2 img.
Let bs := requested_bands obj rq.
Let cx := Z.max 0 xoff.
Let cy := Z.max 0 yoff.
Let cw := Z.min W (xoff + w) - cx.
Let ch := Z.min H (yoff + h) - cy.

Hypothesis Hvirtual : virtual rq = VirtFalse.
Hypothesis Hobj : select_dataset img (component rq) = Ok obj.
Hypothesis Hext : requested_extent img rq = Ok (g, w0).
Hypothesis Hbuf : apply_buffer (buffer rq) w0 = Ok (xoff, yoff, w, h).
Hypothesis Hshare : shares_pixel W H xoff yoff w h.
Hypothesis Hbands : bs <> [].
Hypothesis Hread : readable obj W H bs.
Hypothesis Hmask :
  mask rq = true -> forall g', g = Some g' ->
  usable (geo_transform_of img) /\ burns g'.

Lemma get_data_overlapping :
  exists blk,
    get_data img rq = Ok blk /\
    upper_left_pixel blk
    = (if return_location rq then Some (cx, cy) else None) /\
    block_shape (length bs) (Z.to_nat h) (Z.to_nat w) (data blk) /\
    (forall b r c : nat,
        (b < length bs)%nat -> (r < Z.to_nat h)%nat -> (c < Z.to_nat w)%nat ->
        outside W H (xoff + Z.of_nat c) (yoff + Z.of_nat r) ->
        at3 (data blk) b r c = Some 0) /\
    (forall (i : nat) b f (r c : nat),
        bs !! i = Some b -> ReadAsArray obj b cx cy cw ch = Done f ->
        (r < Z.to_nat h)%nat -> (c < Z.to_nat w)%nat ->
        ~ outside W H (xoff + Z.of_nat c) (yoff + Z.of_nat r) ->
        at3 (data blk) i r c
        = Some (f (yoff + Z.of_nat r - cy) (xoff + Z.of_nat c - cx))) /\
    (if mask rq
     then exists mk,
         data_mask blk = Some mk /\
         block_shape (length bs) (Z.to_nat h) (Z.to_nat w) mk /\
         (forall b r c : nat,
             (b < length bs)%nat -> (r < Z.to_nat h)%nat ->
             (c < Z.to_nat w)%nat ->
             outside W H (xoff + Z.of_nat c) (yoff + Z.of_nat r) ->
             at3 mk b r c = Some true)
     else data_mask blk = None).
Proof.
  pose proof (clip_window_overlap W H xoff yoff w h Hshare) as Hclip.
  cbv zeta in Hclip.
  destruct Hclip as (Ex & Ey & Ew & Eh & El & Et & Er & Eb).
  fold cx in Ex, Ew, El. fold cy in Ey, Eh, Et.
  fold cw in Ew. fold ch in Eh.
  assert (Hsp := Hshare). destruct Hsp as [Hsx Hsy].
  fold cx in Hsx. fold cy in Hsy.
  assert (Hall : forall b, In b bs ->
            exists f, ReadAsArray obj b cx cy cw ch = Done f).
  { intros b Hb. apply Hread; try exact Hb; unfold cw, ch; lia. }
  pose proof (read_data_ok obj cx cy cw ch bs Hbands
                ltac:(unfold cw; lia) ltac:(unfold ch; lia) Hall) as Hrd.
  pose proof (band_arrays_shape obj cx cy cw ch bs Hall) as Hshape.
  set (d := map (band_array obj cx cy cw ch) bs) in *.
  set (top := Z.abs_nat (np_yoff_buff (clip_window W H xoff yoff w h))) in *.
  set (bottom := Z.abs_nat (np_ylim_buff (clip_window W H xoff yoff w h))) in *.
  set (left := Z.abs_nat (np_xoff_buff (clip_window W H xoff yoff w h))) in *.
  set (right := Z.abs_nat (np_xlim_buff (clip_window W H xoff yoff w h))) in *.
  assert (Hrows : (top + Z.to_nat ch + bottom)%nat = Z.to_nat h) by lia.
  assert (Hcols : (left + Z.to_nat cw + right)%nat = Z.to_nat w) by lia.
  assert (Hpadding : forall r c : nat,
             (r < Z.to_nat h)%nat -> (c < Z.to_nat w)%nat ->
             outside W H (xoff + Z.of_nat c) (yoff + Z.of_nat r) ->
             is_padding top left (Z.to_nat ch) (Z.to_nat cw) r c).
  { intros r c Hr Hc Hout. unfold outside in Hout. unfold is_padding.
    unfold cw, ch in *. lia. }
  assert (Hdata : forall c0 : Z,
             block_shape (length bs) (Z.to_nat h) (Z.to_nat w)
               (pad_block c0 top bottom left right (Z.to_nat cw) d)).
  { intros c0. rewrite <- Hrows, <- Hcols. apply block_shape_pad, Hshape. }
  assert (Hzero : forall (b r c : nat),
             (b < length bs)%nat -> (r < Z.to_nat h)%nat -> (c < Z.to_nat w)%nat ->
             outside W H (xoff + Z.of_nat c) (yoff + Z.of_nat r) ->
             at3 (pad_block 0 top bottom left right (Z.to_nat cw) d) b r c
             = Some 0).
  { intros b r c Hb Hr Hc Hout.
    eapply at3_pad_padding; eauto; try lia. }
  assert (Hin : forall (i : nat) b f (r c : nat),
             bs !! i = Some b -> ReadAsArray obj b cx cy cw ch = Done f ->
             (r < Z.to_nat h)%nat -> (c < Z.to_nat w)%nat ->
             ~ outside W H (xoff + Z.of_nat c) (yoff + Z.of_nat r) ->
             at3 (pad_block 0 top bottom left right (Z.to_nat cw) d) i r c
             = Some (f (yoff + Z.of_nat r - cy) (xoff + Z.of_nat c - cx))).
  { intros i b f r c Hi Hf Hr Hc Hnout.
    assert (Hins : 0 <= xoff + Z.of_nat c < W /\ 0 <= yoff + Z.of_nat r < H).
    { unfold outside in Hnout. lia. }
    replace r with (top + (r - top))%nat by (unfold cw, ch in *; lia).
    replace c with (left + (c - left))%nat at 1 by (unfold cw, ch in *; lia).
    erewrite at3_pad_inside; eauto.
    - unfold d. erewrite band_arrays_at; eauto.
      + f_equal. f_equal; unfold cw, ch in *; lia.
      + unfold cw, ch in *; lia.
      + unfold cw, ch in *; lia.
    - apply lookup_lt_Some in Hi. exact Hi.
    - unfold cw, ch in *; lia.
    - unfold cw, ch in *; lia. }
  unfold get_data. rewrite Hobj. cbn [rbind]. rewrite Hext. cbn [rbind fst snd].
  rewrite Hbuf. cbn [rbind]. fold W H bs. rewrite Hvirtual.
  rewrite Ex, Ey, Ew, Eh. rewrite Hrd. cbn [rbind].
  fold top bottom left right.
  destruct (mask rq) eqn:Em.
  - assert (Hdm : exists m : list (list (list bool)),
               block_shape (length bs) (Z.to_nat ch) (Z.to_nat cw) m /\
               match g with
               | Some g0 =>
                   geometry_mask img g0 cw ch (mask_all_touched rq) (Some d)
               | None => d0 <- use_data (Some d) ;; Ok (d0, nonzero_mask d0)
               end = Ok (d, m)).
    { destruct g as [g0|].
      - destruct (Hmask eq_refl g0 eq_refl) as [Hu Hb].
        destruct (geometry_mask_ok img g0 cw ch (mask_all_touched rq) d Hu Hb)
          as [m Hm].
        eexists. split; [|exact Hm].
        apply tiled_mask_shape. apply Hshape.
      - eexists. split; [|reflexivity].
        apply nonzero_mask_shape, Hshape. }
    destruct Hdm as (m & Hmshape & ->). cbn [rbind fst snd].
    eexists. split; [reflexivity|].
    cbn [data data_mask upper_left_pixel].
    repeat split; auto; try apply Hdata.
    exists (pad_block true top bottom left right (Z.to_nat cw) m).
    split; [reflexivity|]. split.
    + rewrite <- Hrows, <- Hcols. apply block_shape_pad, Hmshape.
    + intros b r c Hb Hr Hc Hout.
      eapply at3_pad_padding; eauto; try lia.
  - cbn [use_data rbind].
    eexists. split; [reflexivity|].
    cbn [data data_mask upper_left_pixel].
    repeat split; auto; try apply Hdata.
Qed.
End Overlapping.

Lemma raster_readable nb xs ys pix bs :
  (forall b, In b bs -> 1 <= b <= nb) -> readable (raster nb xs ys pix) xs ys bs.
Proof.
  intros Hbs b x y w h Hb Hx Hy Hw Hh Hxw Hyh. cbn [raster ReadAsArray].
  destruct (Hbs b Hb) as [Hb1 Hb2].
  destruct (Z.leb_spec 1 b), (Z.leb_spec b nb), (Z.leb_spec 0 x),
    (Z.leb_spec 0 y), (Z.ltb_spec 0 w), (Z.ltb_spec 0 h),
    (Z.leb_spec (x + w) xs), (Z.leb_spec (y + h) ys); try lia.
  cbn [andb]. eauto.
Qed.

Lemma usable_north_up : usable north_up.
Proof.
  split; intros E; apply (f_equal this) in E; vm_compute in E; discriminate E.
Qed.

Lemma rectangle_burns a b c d : burns (rectangle a b c d).
Proof. intros t xs ys touched. eexists. reflexivity. Qed.



(** A buffered request at the corner: the window (0, 0, 10, 10) with a
    buffer of 3 comes back as 16 by 16, three rows and columns of zeros
    first, then the pixels from (0, 0) on. *)
Example buffered_window_at_the_corner :
  exists blk,
    get_data (image 100 100)
      (Request None None (Some [0; 0; 10; 10]) (Some (BufInt 3)) None
               false false VirtFalse true) = Ok blk /\
    length (data blk) = 1%nat /\
    upper_left_pixel blk = Some (0, 0) /\
    at3 (data blk) 0 0 0 = Some 0 /\ at3 (data blk) 0 2 15 = Some 0 /\
    at3 (data blk) 0 3 3 = Some 1 /\ at3 (data blk) 0 15 15 = Some 12013 /\
    at3 (data blk) 0 16 0 = None /\ at3 (data blk) 0 0 16 = None.
Proof. eexists. split; [vm_compute; reflexivity|]. repeat split. Qed.

(** A geometry request is tested for overlap before its buffer is applied.
    The envelope from x = -30 to x = -10 lies left of the raster; grown by a
    buffer of 50 pixels its window shares pixels with the raster, and the
    request raises [OverlapError].  The same window given explicitly, with
    the same buffer, returns a block. *)
Example geometry_is_tested_before_the_buffer :
  shares_pixel 100 100 (-30 - 50) (10 - 50) (20 + 2 * 50) (10 + 2 * 50) /\
  get_data (image 100 100)
    (Request None None None (Some (BufInt 50))
             (Some (GeomFrom (rectangle (-30) (-10) 10 20)))
             false false VirtFalse false) = Raise OverlapError /\
  exists blk,
    get_data (image 100 100)
      (Request None None (Some [-30; 10; 20; 10]) (Some (BufInt 50)) None
               false false VirtFalse false) = Ok blk /\
    length (data blk) = 1%nat /\
    at3 (data blk) 0 0 0 = Some 0 /\ at3 (data blk) 0 40 80 = Some 1 /\
    at3 (data blk) 0 109 119 = Some 69040.
Proof.
  split; [unfold shares_pixel; lia|].
  split; [vm_compute; reflexivity|].
  eexists. split; [vm_compute; reflexivity|].
  split; [reflexivity|]. split; [reflexivity|]. split; reflexivity.
Qed.

(** C5.  When masking is requested, with a geometry or without one, every
    element of the returned block that stands for a pixel outside the raster
    is masked and holds zero, whatever the geometry burns and whatever
    [mask_all_touched] is. *)
Theorem padding_is_masked_and_zero img rq obj g w0 xoff yoff w h :
  mask rq = true ->
  virtual rq = VirtFalse ->
  select_dataset img (component rq) = Ok obj ->
  requested_extent img rq = Ok (g, w0) ->
  apply_buffer (buffer rq) w0 = Ok (xoff, yoff, w, h) ->
  shares_pixel (shape1 img) (shape2 img) xoff yoff w h ->
  requested_bands obj rq <> [] ->
  readable obj (shape1 img) (shape2 img) (requested_bands obj rq) ->
  (forall g', g = Some g' -> usable (geo_transform_of img) /\ burns g') ->
  exists blk mk,
    get_data img rq = Ok blk /\
    data_mask blk = Some mk /\
    block_shape (length (requested_bands obj rq)) (Z.to_nat h) (Z.to_nat w) mk /\
    (forall b r c : nat,
        (b < length (requested_bands obj rq))%nat ->
        (r < Z.to_nat h)%nat -> (c < Z.to_nat w)%nat ->
        outside (shape1 img) (shape2 img)
                (xoff + Z.of_nat c) (yoff + Z.of_nat r) ->
        at3 mk b r c = Some true /\ at3 (data blk) b r c = Some 0).
Proof.
  intros Hmk Hv Ho He Hb Hs Hne Hr Hm.
  destruct (get_data_overlapping img rq obj g w0 xoff yoff w h
              Hv Ho He Hb Hs Hne Hr (fun _ => Hm))
    as (blk & H1 & _ & _ & H4 & _ & H6).
  rewrite Hmk in H6. destruct H6 as (mk & E & Hshape & Hpad).
  exists blk, mk. split; [exact H1|]. split; [exact E|].
  split; [exact Hshape|]. intros b r c Hb' Hr' Hc' Hout.
  split; [apply Hpad|apply H4]; assumption.
Qed.

(** C5, on a rectangle over the upper left corner of a raster of 100 by 100
    pixels, with [mask_all_touched] set. *)
Lemma padding_is_masked_at_the_corner :
  exists blk mk,
    get_data (image 100 100) (corner_mask_request true) = Ok blk /\
    data_mask blk = Some mk /\
    block_shape 1 15 15 mk /\
    (forall b r c : nat,
        (b < 1)%nat -> (r < 15)%nat -> (c < 15)%nat ->
        outside 100 100 (-5 + Z.of_nat c) (-5 + Z.of_nat r) ->
        at3 mk b r c = Some true /\ at3 (data blk) b r c = Some 0).
Proof.
  apply (padding_is_masked_and_zero
           (image 100 100) (corner_mask_request true) (raster 1 100 100 ramp)
           (Some corner_geometry) (-5, -5, 15, 15) (-5) (-5) 15 15).
  - reflexivity.
  - reflexivity.
  - reflexivity.
  - vm_compute. reflexivity.
  - reflexivity.
  - split; reflexivity.
  - discriminate.
  - apply raster_readable. simpl. intros b [<-|[]]. lia.
  - intros g' Hg. injection Hg as <-.
    split; [apply usable_north_up|apply rectangle_burns].
Defined.

(** C6.  A window that lies inside the raster is resolved to itself with
    all four repair offsets zero; [get_data] reads exactly that window and
    returns the bands as read, of shape (bands, h, w), without padding. *)
Theorem window_inside_is_read_unchanged img rq obj xoff yoff w h :
  window rq = Some [xoff; yoff; w; h] -> geom rq = None ->
  buffer_truthy (buffer rq) = false -> virtual rq = VirtFalse ->
  select_dataset img (component rq) = Ok obj ->
  0 <= xoff -> 0 <= yoff -> 0 < w -> 0 < h ->
  xoff + w <= shape1 img -> yoff + h <= shape2 img ->
  requested_bands obj rq <> [] ->
  readable obj (shape1 img) (shape2 img) (requested_bands obj rq) ->
  clip_window (shape1 img) (shape2 img) xoff yoff w h
  = Resolved xoff yoff w h 0 0 0 0 /\
  exists blk,
    get_data img rq = Ok blk /\
    data blk = map (band_array obj xoff yoff w h) (requested_bands obj rq) /\
    block_shape (length (requested_bands obj rq)) (Z.to_nat h) (Z.to_nat w)
      (data blk).
Proof.
  intros Hw Hg Hbuf Hv Ho Hx Hy Hpw Hph Hxw Hyh Hne Hr.
  pose proof (clip_window_inside (shape1 img) (shape2 img) xoff yoff w h
                Hx Hy Hxw Hyh) as Hclip.
  split; [exact Hclip|].
  assert (Hall : forall b, In b (requested_bands obj rq) ->
            exists f, ReadAsArray obj b xoff yoff w h = Done f).
  { intros b Hb. apply Hr; auto. }
  pose proof (band_arrays_shape obj xoff yoff w h _ Hall) as Hshape.
  unfold get_data. rewrite Ho. cbn [rbind].
  unfold requested_extent. rewrite Hw, Hg. cbn [andb rbind fst snd].
  unfold apply_buffer. rewrite Hbuf. cbn [rbind].
  rewrite Hclip, Hv.
  cbn [r_xoff r_yoff r_win_xsize r_win_ysize
       np_xoff_buff np_yoff_buff np_xlim_buff np_ylim_buff Z.abs_nat].
  rewrite read_data_ok by (auto; lia). cbn [rbind use_data].
  rewrite (pad_block_nothing 0 _ _ _ _ Hshape).
  destruct (mask rq).
  - cbn [rbind fst snd]. rewrite (pad_block_nothing 0 _ _ _ _ Hshape).
    eexists. split; [reflexivity|]. cbn [data]. auto.
  - eexists. split; [reflexivity|]. cbn [data]. auto.
Qed.

(** C6, on the window (10, 20, 30, 40) of a raster of 100 by 100 pixels. *)
Lemma window_inside_example :
  clip_window 100 100 10 20 30 40 = Resolved 10 20 30 40 0 0 0 0 /\
  exists blk,
    get_data (image 100 100) (window_request [10; 20; 30; 40]) = Ok blk /\
    data blk = map (band_array (raster 1 100 100 ramp) 10 20 30 40) [1] /\
    block_shape 1 40 30 (data blk).
Proof.
  apply (window_inside_is_read_unchanged
           (image 100 100) (window_request [10; 20; 30; 40])
           (raster 1 100 100 ramp) 10 20 30 40);
    try reflexivity; try lia; try discriminate.
  apply raster_readable. simpl. intros b [<-|[]]. lia.
Defined.

(** ** Where [OverlapError] comes from *)

Lemma quiet_ok {A} (a : A) : quiet (Ok a).
Proof. discriminate. Qed.

Lemma quiet_raise {A} (e : error) : e <> OverlapError -> quiet (@Raise A e).
Proof. intros He E. injection E. exact He. Qed.

Lemma quiet_bind {A B} (r : result A) (k : A -> result B) :
  quiet r -> (forall a, r = Ok a -> quiet (k a)) -> quiet (rbind r k).
Proof.
  intros Hr Hk. destruct r as [a|e]; cbn [rbind].
  - apply Hk. reflexivity.
  - intros E. apply Hr. injection E as ->. reflexivity.
Qed.

Lemma quiet_from_gdal {A} (r : gdal A) : quiet (from_gdal r).
Proof. destruct r; [apply quiet_ok|apply quiet_raise; discriminate]. Qed.

Ltac quiet_step :=
  repeat first
    [ apply quiet_ok
    | apply quiet_from_gdal
    | apply quiet_raise; discriminate
    | apply quiet_bind; [|intros ? ?] ].

Lemma quiet_broadcast2 f a b : quiet (broadcast2 f a b).
Proof.
  destruct a as [x|l1], b as [y|l2]; cbn [broadcast2]; quiet_step.
  destruct (length l1 =? length l2)%nat; quiet_step.
  destruct l1 as [|? [|? ?]], l2 as [|? [|? ?]]; quiet_step.
Qed.

Lemma quiet_to_intype t a : quiet (to_intype t a).
Proof.
  unfold to_intype.
  destruct (t =? 1).
  - apply quiet_bind; [|intros; apply quiet_ok].
    destruct a as [x|[|x [|? ?]]]; cbn [head_float]; quiet_step.
  - destruct (t =? 2); [apply quiet_ok|]. destruct (t =? 3); apply quiet_ok.
Qed.

Lemma quiet_intype v : quiet (intype v).
Proof. destruct v; cbn [intype]; quiet_step. Qed.

Lemma quiet_proj_to_raster gm x y : quiet (proj_to_raster gm x y).
Proof.
  unfold proj_to_raster. destruct (negb _); [quiet_step|].
  apply quiet_bind; [apply quiet_intype|intros t _].
  apply quiet_bind; [apply quiet_broadcast2|intros num _].
  apply quiet_bind; [apply quiet_broadcast2|intros d _].
  apply quiet_bind; [apply quiet_to_intype|intros rx _].
  apply quiet_bind; [apply quiet_to_intype|intros ry _].
  apply quiet_ok.
Qed.

Lemma quiet_raster_to_proj gm x y : quiet (raster_to_proj gm x y).
Proof.
  unfold raster_to_proj. destruct (negb _); [quiet_step|].
  apply quiet_bind; [apply quiet_intype|intros t _].
  apply quiet_bind; [apply quiet_broadcast2|intros sx _].
  apply quiet_bind; [apply quiet_broadcast2|intros sy _].
  apply quiet_bind; [apply quiet_to_intype|intros rx _].
  apply quiet_bind; [apply quiet_to_intype|intros ry _].
  apply quiet_ok.
Qed.

Lemma quiet_py_index {A} (l : list A) i : quiet (py_index l i).
Proof.
  unfold py_index. destruct (_ || _); [quiet_step|].
  destruct (l !! _); quiet_step.
Qed.

Lemma quiet_select_dataset img c : quiet (select_dataset img c).
Proof.
  unfold select_dataset. destruct c as [c|]; [|apply quiet_ok].
  destruct (c =? 0); [quiet_step|].
  destruct (c >? _); [quiet_step|]. apply quiet_py_index.
Qed.

Lemma quiet_apply_buffer b w : quiet (apply_buffer b w).
Proof.
  unfold apply_buffer. destruct w as [[[xoff yoff] xs] ys].
  destruct (buffer_truthy b); [|apply quiet_ok].
  destruct b as [[z|l]|]; try destruct l as [|? [|? [|? ?]]]; quiet_step.
Qed.

Lemma quiet_read_bands obj x y w h bs : quiet (read_bands obj x y w h bs).
Proof.
  induction bs as [|b bs IH]; cbn [read_bands]; [apply quiet_ok|].
  apply quiet_bind; [apply quiet_from_gdal|intros a _].
  apply quiet_bind; [exact IH|intros; apply quiet_ok].
Qed.

Lemma quiet_read_data obj x y w h bs : quiet (read_data obj x y w h bs).
Proof.
  unfold read_data. destruct bs as [|b bs]; [apply quiet_ok|].
  apply quiet_bind; [apply quiet_from_gdal|intros _ _].
  destruct (_ || _); [quiet_step|].
  apply quiet_bind; [apply quiet_read_bands|intros; apply quiet_ok].
Qed.

Lemma quiet_use_data d : quiet (use_data d).
Proof. destruct d; cbn [use_data]; quiet_step. Qed.

Lemma quiet_floor_float v : quiet (floor_float v).
Proof. destruct v as [z|[x|]| | | |]; cbn [floor_float]; quiet_step. Qed.

Lemma quiet_geometry_mask img g xs ys touched d :
  quiet (geometry_mask img g xs ys touched d).
Proof.
  unfold geometry_mask. destruct (GetEnvelope g) as [[[xmin xmax] ymin] ymax].
  apply quiet_bind; [apply quiet_proj_to_raster|intros ul _].
  apply quiet_bind; [apply quiet_floor_float|intros cx _].
  apply quiet_bind; [apply quiet_floor_float|intros cy _].
  apply quiet_bind; [apply quiet_raster_to_proj|intros corner _].
  apply quiet_bind; [apply quiet_from_gdal|intros m _].
  apply quiet_bind; [apply quiet_use_data|intros d' _].
  apply quiet_ok.
Qed.

(** [get_data] raises [OverlapError] only when [requested_extent] does. *)
Lemma get_data_quiet img rq :
  quiet (requested_extent img rq) -> quiet (get_data img rq).
Proof.
  intros Hext. unfold get_data.
  apply quiet_bind; [apply quiet_select_dataset|intros obj _].
  apply quiet_bind; [exact Hext|intros ext _].
  apply quiet_bind; [apply quiet_apply_buffer|intros w _].
  destruct w as [[[xoff yoff] xs] ys].
  destruct (virtual rq); [quiet_step| |quiet_step].
  apply quiet_bind; [apply quiet_read_data|intros d _].
  destruct (mask rq).
  - apply quiet_bind; [|intros; apply quiet_ok].
    destruct (fst ext).
    + apply quiet_geometry_mask.
    + apply quiet_bind; [apply quiet_use_data|intros; apply quiet_ok].
  - apply quiet_bind; [apply quiet_use_data|intros; apply quiet_ok].
Qed.

Lemma get_data_overlap_error img rq obj :
  select_dataset img (component rq) = Ok obj ->
  requested_extent img rq = Raise OverlapError ->
  get_data img rq = Raise OverlapError.
Proof. intros Hobj Hext. unfold get_data. now rewrite Hobj, Hext. Qed.

Lemma requested_extent_window_quiet img rq w ws :
  window rq = Some (w :: ws) -> quiet (requested_extent img rq).
Proof.
  intros Hw. unfold requested_extent. rewrite Hw.
  destruct (geom rq); cbn [andb]; [quiet_step|].
  destruct ws as [|? [|? [|? [|? ?]]]]; quiet_step.
Qed.

Lemma requested_extent_geometry img rq g xoff yoff w h :
  window_unset rq -> geom rq = Some (GeomFrom g) ->
  extent_pixels img (GetEnvelope g) None = Ok (xoff, yoff, w, h) ->
  requested_extent img rq
  = if no_content img xoff yoff w h then Raise OverlapError
    else Ok (Some g, (xoff, yoff, w, h)).
Proof.
  intros Hw Hg Hpix. unfold requested_extent. rewrite Hg.
  destruct Hw as [-> | ->]; cbn [andb _instantiate_geom rbind];
    unfold _extent_to_window; rewrite Hpix; cbn [rbind];
    destruct (no_content img xoff yoff w h); reflexivity.
Qed.

Lemma no_content_true img xoff yoff w h :
  xoff + w <= 0 \/ yoff + h <= 0 \/ shape1 img < xoff \/ shape2 img < yoff ->
  no_content img xoff yoff w h = true.
Proof.
  intros Hc. unfold no_content. rewrite !Z.gtb_ltb.
  destruct (Z.leb_spec (xoff + w) 0), (Z.leb_spec (yoff + h) 0),
    (Z.ltb_spec (shape1 img) xoff), (Z.ltb_spec (shape2 img) yoff);
    cbn [orb]; try reflexivity; lia.
Qed.

Lemma no_content_false img xoff yoff w h :
  shares_pixel (shape1 img) (shape2 img) xoff yoff w h ->
  no_content img xoff yoff w h = false.
Proof.
  intros [Hx Hy]. unfold no_content. rewrite !Z.gtb_ltb.
  destruct (Z.leb_spec (xoff + w) 0), (Z.leb_spec (yoff + h) 0),
    (Z.ltb_spec (shape1 img) xoff), (Z.ltb_spec (shape2 img) yoff);
    cbn [orb]; try reflexivity; lia.
Qed.

(** C3, as amended.  An explicit-window request never raises
    [OverlapError].  A geometry request whose envelope window ends at or
    before pixel 0 (xoff + w <= 0 or yoff + h <= 0) or starts beyond the
    raster size (xoff > W or yoff > H) raises [OverlapError]; a geometry
    request whose envelope window shares a pixel with the raster does not. *)
Theorem overlap_error_is_raised_on_the_geometry_path img :
  (forall rq w ws,
      window rq = Some (w :: ws) -> get_data img rq <> Raise OverlapError) /\
  (forall rq obj g xoff yoff w h,
      window_unset rq -> geom rq = Some (GeomFrom g) ->
      select_dataset img (component rq) = Ok obj ->
      extent_pixels img (GetEnvelope g) None = Ok (xoff, yoff, w, h) ->
      (xoff + w <= 0 \/ yoff + h <= 0 \/
       shape1 img < xoff \/ shape2 img < yoff ->
       get_data img rq = Raise OverlapError) /\
      (shares_pixel (shape1 img) (shape2 img) xoff yoff w h ->
       get_data img rq <> Raise OverlapError)).
Proof.
  split.
  - intros rq w ws Hw. apply get_data_quiet.
    eapply requested_extent_window_quiet. exact Hw.
  - intros rq obj g xoff yoff w h Hw Hg Ho Hpix.
    pose proof (requested_extent_geometry img rq g xoff yoff w h Hw Hg Hpix)
      as Hext.
    split.
    + intros Hout. rewrite (no_content_true _ _ _ _ _ Hout) in Hext.
      eapply get_data_overlap_error; eauto.
    + intros Hshare. rewrite (no_content_false _ _ _ _ _ Hshare) in Hext.
      apply get_data_quiet. unfold quiet. rewrite Hext. discriminate.
Qed.

(** C3, on a raster of 100 by 100 pixels: an explicit window outside it, a
    rectangle at x < 0, and a rectangle inside it. *)
Lemma overlap_error_examples :
  get_data (image 100 100) (window_request [2000; 0; 10; 10])
  <> Raise OverlapError /\
  get_data (image 100 100) (geometry_request (rectangle (-30) (-10) 10 20))
  = Raise OverlapError /\
  get_data (image 100 100) (geometry_request (rectangle 10 20 10 20))
  <> Raise OverlapError.
Proof.
  pose proof (overlap_error_is_raised_on_the_geometry_path (image 100 100))
    as [Hwin Hgeo].
  split; [|split].
  - apply (Hwin (window_request [2000; 0; 10; 10]) 2000 [0; 10; 10]).
    reflexivity.
  - apply (Hgeo (geometry_request (rectangle (-30) (-10) 10 20))
                (raster 1 100 100 ramp) (rectangle (-30) (-10) 10 20)
                (-30) 10 20 10).
    + left. reflexivity.
    + reflexivity.
    + reflexivity.
    + vm_compute. reflexivity.
    + left. vm_compute. discriminate.
  - apply (Hgeo (geometry_request (rectangle 10 20 10 20))
                (raster 1 100 100 ramp) (rectangle 10 20 10 20)
                10 10 10 10).
    + left. reflexivity.
    + reflexivity.
    + reflexivity.
    + vm_compute. reflexivity.
    + split; reflexivity.
Defined.

(** C3, counterexample.  The window (2000, 0, 10, 10) has no pixel in common
    with a raster of 100 by 100 pixels, and the explicit-window request for
    it does not raise [OverlapError]. *)
Lemma explicit_window_outside_raises_no_overlap_error :
  ~ shares_pixel 100 100 2000 0 10 10 /\
  get_data (image 100 100) (window_request [2000; 0; 10; 10])
  <> Raise OverlapError.
Proof.
  split.
  - unfold shares_pixel. lia.
  - vm_compute. discriminate.
Qed.

(** The test of [_extent_to_window] compares with [>]: an envelope window
    that starts on the right edge of the raster has no pixel in common with
    it and passes the test. *)
Example envelope_window_on_the_right_edge :
  ~ shares_pixel 100 100 100 10 10 10 /\
  _extent_to_window (image 100 100) (q 100, q 110, q 10, q 20) None
  = Ok [100; 10; 10; 10] /\
  get_data (image 100 100) (geometry_request (rectangle 100 110 10 20))
  <> Raise OverlapError.
Proof.
  split; [unfold shares_pixel; lia|].
  split; [vm_compute; reflexivity|vm_compute; discriminate].
Qed.

(** ** Components *)

Lemma select_dataset_checks img c :
  (c = 0 -> select_dataset img (Some c) = Raise (ValueError ComponentZero)) /\
  (Z.of_nat (length (dfile_tiles img)) < c ->
   select_dataset img (Some c) = Raise (ValueError ComponentTooLarge)) /\
  (1 <= c <= Z.of_nat (length (dfile_tiles img)) ->
   exists d, dfile_tiles img !! Z.to_nat (c - 1) = Some d /\
             select_dataset img (Some c) = Ok d) /\
  (- Z.of_nat (length (dfile_tiles img)) < c < 0 ->
   exists d,
     dfile_tiles img
       !! Z.to_nat (c - 1 + Z.of_nat (length (dfile_tiles img))) = Some d /\
     select_dataset img (Some c) = Ok d).
Proof.
  unfold select_dataset, py_index. rewrite Z.gtb_ltb.
  repeat split.
  - intros ->. reflexivity.
  - intros H. destruct (Z.eqb_spec c 0); [lia|].
    destruct (Z.ltb_spec (Z.of_nat (length (dfile_tiles img))) c); [reflexivity|lia].
  - intros H. destruct (Z.eqb_spec c 0); [lia|].
    destruct (Z.ltb_spec (Z.of_nat (length (dfile_tiles img))) c); [lia|].
    destruct (Z.ltb_spec (c - 1) 0); [lia|].
    destruct (Z.ltb_spec (c - 1) 0); [lia|].
    destruct (Z.leb_spec (Z.of_nat (length (dfile_tiles img))) (c - 1)); [lia|].
    cbn [orb].
    destruct (dfile_tiles img !! Z.to_nat (c - 1)) as [d|] eqn:E; [eauto|].
    apply lookup_ge_None in E. lia.
  - intros H. destruct (Z.eqb_spec c 0); [lia|].
    destruct (Z.ltb_spec (Z.of_nat (length (dfile_tiles img))) c); [lia|].
    destruct (Z.ltb_spec (c - 1) 0); [|lia].
    destruct (Z.ltb_spec (c - 1 + Z.of_nat (length (dfile_tiles img))) 0); [lia|].
    destruct (Z.leb_spec (Z.of_nat (length (dfile_tiles img)))
                (c - 1 + Z.of_nat (length (dfile_tiles img)))); [lia|].
    cbn [orb].
    destruct (dfile_tiles img !! _) as [d|] eqn:E; [eauto|].
    apply lookup_ge_None in E. lia.
Qed.

(** C9 (code at the failing input).  On a mosaic of two tiles, component
    -1 is accepted: the list index -2 selects the first tile, and the window
    is read from it. *)
Theorem negative_component_is_accepted :
  select_dataset mosaic (Some (-1)) = Ok tile_a /\
  exists blk,
    get_data mosaic
      (Request (Some (-1)) None (Some [0; 0; 2; 1]) None None
               false false VirtFalse false) = Ok blk /\
    data blk = [[[1; 2]]].
Proof.
  split; [reflexivity|]. eexists. split; reflexivity.
Qed.

(** The window of a component is clipped to the size of the mosaic: without
    a window, the first tile (100 by 100 pixels) of a mosaic of 200 by 100
    pixels is asked for 200 by 100 pixels. *)
Example component_read_uses_the_mosaic_extent :
  get_data mosaic
    (Request (Some 1) None None None None false false VirtFalse false)
  = Raise (GdalError 5).
Proof. vm_compute. reflexivity. Qed.

(** ** Tiling *)

Lemma window_loop_more_fuel fuel k xs ys xsize ysize xstep ystep x0 xoff yoff l :
  window_loop fuel xs ys xsize ysize xstep ystep x0 xoff yoff = Some l ->
  window_loop (fuel + k) xs ys xsize ysize xstep ystep x0 xoff yoff = Some l.
Proof.
  revert xoff yoff l. induction fuel as [|fuel IH]; intros xoff yoff l; [discriminate|].
  cbn [window_loop Nat.add].
  destruct (_ >? ys); [auto|].
  destruct (window_loop fuel _ _ _ _ _ _ _ _ _) as [l'|] eqn:E; [|discriminate].
  intros H. rewrite (IH _ _ _ E). exact H.
Qed.

Lemma tile_windows_more_fuel fuel k xs ys bsz win_size stride l :
  tile_windows fuel xs ys bsz win_size stride = Ok (Some l) ->
  tile_windows (fuel + k) xs ys bsz win_size stride = Ok (Some l).
Proof.
  unfold tile_windows.
  repeat match goal with
         | |- context [if ?c then _ else _] => destruct c
         end; try discriminate; try (intros H; exact H).
  all: repeat match goal with
         | |- context [rbind ?r _] => destruct r; cbn [rbind]
         end; try discriminate.
  all: intros H; injection H as H; f_equal; apply window_loop_more_fuel; exact H.
Qed.

Lemma yield_all_complete img rqs :
  snd (yield_all img rqs) = None ->
  length (fst (yield_all img rqs)) = length rqs.
Proof.
  induction rqs as [|rq rqs IH]; cbn [yield_all]; [reflexivity|].
  destruct (get_data img rq); cbn [fst snd length]; [|discriminate].
  intros H. f_equal. apply IH. exact H.
Qed.

Lemma tile_windows_100 (k : nat) (bsz : list Z) :
  tile_windows (9 + k) 100 100 bsz (Some [50; 50]) None = Ok (Some nine_windows).
Proof. apply tile_windows_more_fuel. reflexivity. Qed.

Lemma iter_window_100_by_100 fuel img kwargs blocks :
  shape1 img = 100 -> shape2 img = 100 ->
  iter_window fuel img (Some [50; 50]) None kwargs = Some (blocks, None) ->
  length blocks = 9%nat.
Proof.
  intros H1 H2. unfold iter_window. rewrite H1, H2.
  destruct (tile_windows fuel 100 100 _ _ _) as [[ws|]|e] eqn:E; try discriminate.
  apply (tile_windows_more_fuel _ 9) in E.
  rewrite Nat.add_comm, tile_windows_100 in E. injection E as <-.
  intros H.
  pose proof (yield_all_complete img (map (with_window kwargs) nine_windows)) as Hc.
  set (t := yield_all img (map (with_window kwargs) nine_windows)) in *.
  assert (Ht : t = (blocks, None)) by congruence.
  rewrite Ht in Hc. cbn [fst snd] in Hc. rewrite Hc by reflexivity.
  reflexivity.
Qed.

Lemma gtb_true a b : b < a -> (a >? b) = true.
Proof. intros H. rewrite Z.gtb_ltb. apply Z.ltb_lt. exact H. Qed.

Lemma gtb_false a b : a <= b -> (a >? b) = false.
Proof. intros H. rewrite Z.gtb_ltb. apply Z.ltb_ge. exact H. Qed.

Section LoopSteps.
Variables (xs ys xsize ysize xstep ystep x0 : Z).

Lemma window_loop_same_row fuel xoff yoff :
  xoff + xstep <= xs -> yoff <= ys ->
  window_loop (S fuel) xs ys xsize ysize xstep ystep x0 xoff yoff
  = option_map (cons [xoff; yoff; xsize; ysize])
      (window_loop fuel xs ys xsize ysize xstep ystep x0 (xoff + xstep) yoff).
Proof.
  intros Hx Hy. cbn [window_loop].
  rewrite (gtb_false (xoff + xstep) xs Hx), (gtb_false yoff ys Hy).
  reflexivity.
Qed.

Lemma window_loop_next_row fuel xoff yoff :
  xs < xoff + xstep -> yoff + ystep <= ys ->
  window_loop (S fuel) xs ys xsize ysize xstep ystep x0 xoff yoff
  = option_map (cons [xoff; yoff; xsize; ysize])
      (window_loop fuel xs ys xsize ysize xstep ystep x0 x0 (yoff + ystep)).
Proof.
  intros Hx Hy. cbn [window_loop].
  rewrite (gtb_true (xoff + xstep) xs Hx), (gtb_false (yoff + ystep) ys Hy).
  reflexivity.
Qed.

Lemma window_loop_last fuel xoff yoff :
  xs < xoff + xstep -> ys < yoff + ystep ->
  window_loop (S fuel) xs ys xsize ysize xstep ystep x0 xoff yoff
  = Some [[xoff; yoff; xsize; ysize]].
Proof.
  intros Hx Hy. cbn [window_loop].
  rewrite (gtb_true (xoff + xstep) xs Hx), (gtb_true (yoff + ystep) ys Hy).
  reflexivity.
Qed.
End LoopSteps.

Section Divisible.
Variables (tw th : Z) (a b : nat).
Hypothesis Htw : 0 < tw.
Hypothesis Hth : 0 < th.
Let W := Z.of_nat a * tw.
Let H := Z.of_nat b * th.

Lemma window_loop_grid (rj ri : nat) :
  (ri <= a)%nat -> (rj <= b)%nat ->
  window_loop (S (ri + rj * S a)) W H tw th tw th 0
    (Z.of_nat (a - ri) * tw) (Z.of_nat (b - rj) * th)
  = Some (row_windows tw th (b - rj) (a - ri) (S ri)
          ++ grid_windows tw th a (S (b - rj)) rj).
Proof.
  revert ri. induction rj as [|rj IHj]; intros ri; induction ri as [|ri IHi];
    intros Hri Hrj.
  - rewrite window_loop_last by (unfold W, H; nia).
    unfold row_windows, grid_windows. cbn [seq map flat_map app]. reflexivity.
  - replace (S ri + 0 * S a)%nat with (S (ri + 0 * S a)) by lia.
    rewrite window_loop_same_row by (unfold W, H; nia).
    replace (Z.of_nat (a - S ri) * tw + tw) with (Z.of_nat (a - ri) * tw) by nia.
    rewrite IHi by lia. cbn [option_map].
    unfold row_windows. replace (a - ri)%nat with (S (a - S ri)) by lia.
    reflexivity.
  - replace (0 + S rj * S a)%nat with (S (a + rj * S a)) by lia.
    rewrite window_loop_next_row by (unfold W, H; nia).
    replace (Z.of_nat (b - S rj) * th + th) with (Z.of_nat (b - rj) * th) by nia.
    pose proof (IHj a (le_n a) ltac:(lia)) as IH'.
    rewrite Nat.sub_diag in IH'. change (Z.of_nat 0 * tw) with 0 in IH'.
    rewrite IH'. cbn [option_map]. unfold grid_windows.
    replace (S (b - S rj)) with (b - rj)%nat by lia.
    cbn [seq flat_map]. unfold row_windows at 1. cbn [seq map app].
    replace (a - 0)%nat with a by lia. reflexivity.
  - replace (S ri + S rj * S a)%nat with (S (ri + S rj * S a)) by lia.
    rewrite window_loop_same_row by (unfold W, H; nia).
    replace (Z.of_nat (a - S ri) * tw + tw) with (Z.of_nat (a - ri) * tw) by nia.
    rewrite IHi by lia. cbn [option_map].
    unfold row_windows. replace (a - ri)%nat with (S (a - S ri)) by lia.
    reflexivity.
Qed.
End Divisible.

Lemma grid_windows_length tw th a j m :
  length (grid_windows tw th a j m) = (m * S a)%nat.
Proof.
  unfold grid_windows. revert j. induction m as [|m IH]; intros j; [reflexivity|].
  cbn [seq flat_map]. rewrite length_app, IH.
  unfold row_windows. rewrite length_map, length_seq. lia.
Qed.

(** Fixed tiling of a raster whose size is a multiple of the tile size:
    [a + 1] columns by [b + 1] rows of windows, the last column and the last
    row starting on the edge of the raster. *)
Lemma fixed_tiling_divisible tw th (a b k : nat) bsz :
  0 < tw -> 0 < th ->
  tile_windows (S b * S a + k) (Z.of_nat a * tw) (Z.of_nat b * th) bsz
    (Some [tw; th]) None
  = Ok (Some (grid_windows tw th a 0 (S b))) /\
  length (grid_windows tw th a 0 (S b)) = (S b * S a)%nat.
Proof.
  intros Htw Hth. split; [|apply grid_windows_length].
  apply tile_windows_more_fuel.
  unfold tile_windows.
  cbn [seq_truthy default from_option id existsb andb negb orb].
  destruct (Z.leb_spec tw 0); [lia|]. destruct (Z.leb_spec th 0); [lia|].
  cbn [orb unpack2 rbind fst snd]. unfold py_mod.
  destruct (Z.eqb_spec tw 0); [lia|]. destruct (Z.eqb_spec th 0); [lia|].
  cbn [rbind]. rewrite !Z.mod_mul by lia. change (int_half 0) with 0.
  f_equal.
  pose proof (window_loop_grid tw th a b Htw Hth b a (le_n a) (le_n b)) as Hg.
  rewrite !Nat.sub_diag in Hg. change (Z.of_nat 0 * tw) with 0 in Hg.
  change (Z.of_nat 0 * th) with 0 in Hg.
  replace (S b * S a)%nat with (S (a + b * S a)) by lia.
  rewrite Hg. reflexivity.
Qed.

(** C2 (code at the failing input).  Fixed tiling of a raster of 100 by 100
    pixels with [win_size] = (50, 50) asks [get_data] for nine windows, not
    four: the loop keeps an offset until it is greater than the raster size,
    so the offsets 100 in x and in y are used as well. *)
Theorem fixed_tiling_100_by_100 (k : nat) :
  tile_windows (9 + k) 100 100 [] (Some [50; 50]) None
  = Ok (Some [[0; 0; 50; 50]; [50; 0; 50; 50]; [100; 0; 50; 50];
              [0; 50; 50; 50]; [50; 50; 50; 50]; [100; 50; 50; 50];
              [0; 100; 50; 50]; [50; 100; 50; 50]; [100; 100; 50; 50]]).
Proof. apply tile_windows_more_fuel. reflexivity. Qed.

(** ** [iter_vector] *)
















(** ** The writer *)

Lemma existsb_eqb_In (s : string) (l : list string) :
  In s l -> existsb (String.eqb s) l = true.
Proof.
  intros H. apply existsb_exists. exists s. split; [exact H|apply String.eqb_refl].
Qed.

Lemma assign_where_both (v : Qc) (a : ndarray) (h : heap) (buf : list elt) :
  h !! base a = Some buf ->
  assign_where isinf v a (assign_where isnan v a h)
  = <[base a := map (replace_non_finite v) buf]> h.
Proof.
  intros Hb. unfold assign_where. rewrite Hb, lookup_insert_eq, insert_insert_eq.
  f_equal. rewrite map_map. apply map_ext. intros e.
  unfold replace_non_finite. destruct e; reflexivity.
Qed.

Lemma write_bands_ok ds bs :
  (forall b, WriteArray ds b = Done tt) -> write_bands ds bs = Ok tt.
Proof.
  intros Hw. induction bs as [|b bs IH]; [reflexivity|].
  cbn [write_bands]. rewrite Hw. exact IH.
Qed.

Lemma with_band_axis_dims a nb ys xs :
  dims3 a = Some (nb, ys, xs) ->
  exists a3, with_band_axis a = Ok (a3, (nb, ys, xs)) /\
             base a3 = base a /\ dtype a3 = dtype a.
Proof.
  unfold dims3, with_band_axis, ndim.
  destruct (shape a) as [|s1 [|s2 [|s3 [|? ?]]]] eqn:Hs; try discriminate;
    intros H; injection H as <- <- <-; cbn [length rbind].
  - exists (newaxis a). cbn [newaxis shape]. rewrite Hs. auto.
  - exists a. rewrite Hs. auto.
Qed.

Lemma create_dataset_ok env name drv fb a a3 size :
  accepts env name drv fb a -> dtype a3 = dtype a ->
  exists ds,
    create_dataset env (snd (resolve_driver env name drv fb))
      (fst (resolve_driver env name drv fb)) a3 size true = Ok ds /\
    forall b, WriteArray ds b = Done tt.
Proof.
  intros (t & d & Ht & Hd & Hin & Hc) Hdt. unfold create_dataset.
  destruct size as [[nb ys] xs]. rewrite Hdt, Ht, Hd.
  rewrite existsb_eqb_In by exact Hin. cbn [negb].
  destruct (Hc xs ys nb) as (ds & -> & Hw). exists ds. auto.
Qed.

Lemma create_geo_image_ok env h name a drv geo proj NDV fb nb ys xs v buf :
  dims3 a = Some (nb, ys, xs) ->
  accepts env name drv fb a ->
  ndv_value NDV = Some v ->
  h !! base a = Some buf ->
  exists name' f,
    create_geo_image env h name a drv geo proj NDV true fb
    = (<[base a := map (replace_non_finite v) buf]> h, Ok (name', f)) /\
    w_pixels f = map (replace_non_finite v) buf /\
    w_no_data f = Some v.
Proof.
  intros Hd Hacc Hv Hb. unfold create_geo_image.
  destruct (with_band_axis_dims a nb ys xs Hd) as (a3 & -> & Hbase & Hdt).
  destruct (create_dataset_ok env name drv fb a a3 (nb, ys, xs) Hacc Hdt)
    as (ds & -> & Hw).
  rewrite Hv, write_bands_ok by exact Hw. cbn [rbind].
  assert (Hb3 : h !! base a3 = Some buf) by (rewrite Hbase; exact Hb).
  rewrite (assign_where_both v a3 h buf Hb3), Hbase.
  eexists _, _. split; [reflexivity|].
  cbn [w_pixels w_no_data]. rewrite lookup_insert_eq. auto.
Qed.

Lemma create_geo_image_without_ndv env h name a drv geo proj fb opts :
  fst (create_geo_image env h name a drv geo proj (NdvPassed None) opts fb) = h.
Proof.
  unfold create_geo_image.
  destruct (with_band_axis a) as [[a3 [[nb ys] xs]]|e]; [|reflexivity].
  destruct (create_dataset _ _ _ _ _ _); reflexivity.
Qed.

Lemma write_img_like_this_ok env h img name a drv fb nb v buf :
  dims3 a = Some (nb, shape2 img, shape1 img) ->
  accepts env name (default (driver_name img) drv) fb a ->
  no_data_value img = Some v ->
  h !! base a = Some buf ->
  exists name' f,
    write_img_like_this env h img name a drv true fb
    = (<[base a := map (replace_non_finite v) buf]> h, Ok (name', f)) /\
    w_pixels f = map (replace_non_finite v) buf /\
    w_no_data f = Some v.
Proof.
  intros Hd Hacc Hv Hb. unfold write_img_like_this.
  destruct (with_band_axis_dims a nb _ _ Hd) as (a3 & Ha3 & Hbase & Hdt).
  rewrite Ha3, !Z.eqb_refl. cbn [andb negb].
  assert (Hd3 : dims3 a3 = Some (nb, shape2 img, shape1 img)).
  { unfold with_band_axis in Ha3. unfold dims3.
    destruct (ndim a) as [|[|[|[|?]]]]; cbn [rbind] in Ha3; try discriminate;
      destruct (shape _) as [|? [|? [|? [|? ?]]]] eqn:Hs; try discriminate;
      injection Ha3 as <- <- <- <-; rewrite Hs; reflexivity. }
  assert (Hacc3 : accepts env name (default (driver_name img) drv) fb a3).
  { unfold accepts in *. rewrite Hdt. exact Hacc. }
  destruct (create_geo_image_ok env h name a3 _ (geo_transform_of img)
              (projection_string img) (NdvPassed (no_data_value img)) fb
              nb (shape2 img) (shape1 img) v buf Hd3 Hacc3 Hv
              ltac:(rewrite Hbase; exact Hb))
    as (n' & f & H1 & H2 & H3).
  rewrite Hbase in H1. eauto.
Qed.

Lemma environment_accepts name a :
  dtype a = "float32"%string -> accepts environment name "GTiff" "GTiff" a.
Proof.
  intros Hd. unfold accepts. exists 6, gtiff. rewrite Hd.
  split; [reflexivity|]. split; [reflexivity|].
  split; [right; left; reflexivity|].
  intros x y n. eexists. split; reflexivity.
Qed.

(** C10.  With a no-data value [v] in effect, a successful
    [create_geo_image], and a successful [write_img_like_this] on an image
    whose no-data value is [v], leave the buffer of the array that was
    passed in with every NaN and Infinite replaced by [v]: the heap after the
    call holds the replaced elements at the address of the caller's array,
    and these are the pixels written. *)
Theorem write_replaces_in_the_callers_array
    env h img name a drv drv' geo proj NDV fb nb ys xs v buf :
  dims3 a = Some (nb, ys, xs) ->
  h !! base a = Some buf ->
  (accepts env name drv fb a -> ndv_value NDV = Some v ->
   exists name' f,
     create_geo_image env h name a drv geo proj NDV true fb
     = (<[base a := map (replace_non_finite v) buf]> h, Ok (name', f)) /\
     w_pixels f = map (replace_non_finite v) buf) /\
  (ys = shape2 img -> xs = shape1 img ->
   accepts env name (default (driver_name img) drv') fb a ->
   no_data_value img = Some v ->
   exists name' f,
     write_img_like_this env h img name a drv' true fb
     = (<[base a := map (replace_non_finite v) buf]> h, Ok (name', f)) /\
     w_pixels f = map (replace_non_finite v) buf).
Proof.
  intros Hd Hb. split.
  - intros Hacc Hv.
    destruct (create_geo_image_ok env h name a drv geo proj NDV fb nb ys xs v buf
                Hd Hacc Hv Hb) as (n' & f & H1 & H2 & _). eauto.
  - intros -> -> Hacc Hv.
    destruct (write_img_like_this_ok env h img name a drv' fb nb v buf
                Hd Hacc Hv Hb) as (n' & f & H1 & H2 & _). eauto.
Qed.

(** C10, on the array [1, nan, inf, 4] with the default no-data value 0. *)
Lemma write_mutates_the_float_array :
  (exists name' f,
      create_geo_image environment float_heap "out.tif" float_array "GTiff"
        north_up EmptyString NdvDefault true "GTiff"
      = (<[1%positive := [Num (q 1); Num (q 0); Num (q 0); Num (q 4)]]>
           float_heap,
         Ok (name', f)) /\
      w_pixels f = [Num (q 1); Num (q 0); Num (q 0); Num (q 4)]) /\
  (exists name' f,
      write_img_like_this environment float_heap (image 2 2) "out.tif"
        float_array None true "GTiff"
      = (<[1%positive := [Num (q 1); Num (q 0); Num (q 0); Num (q 4)]]>
           float_heap,
         Ok (name', f)) /\
      w_pixels f = [Num (q 1); Num (q 0); Num (q 0); Num (q 4)]).
Proof.
  destruct (write_replaces_in_the_callers_array
              environment float_heap (image 2 2) "out.tif" float_array
              "GTiff" None north_up EmptyString NdvDefault "GTiff" 1 2 2 (q 0)
              [Num (q 1); NaN; PosInf; Num (q 4)] eq_refl eq_refl)
    as [Hcreate Hwrite].
  split.
  - apply Hcreate; [apply environment_accepts; reflexivity|reflexivity].
  - apply Hwrite; try reflexivity. apply environment_accepts; reflexivity.
Defined.

(** * Further properties *)

Import Kwargs Chips VecExtent Metadata Stretch Terms Samples.

(** ** The affine transform, further *)

Lemma inv_zero_divisor gm (X Y : float) :
  (gm5 gm * gm1 gm + gm4 gm * gm2 gm)%Qc = 0%Qc ->
  inv_x gm X Y = None /\ inv_y gm X Y = None.
Proof.
  intros Hden.
  assert (Hx : inv_x gm X Y = None).
  { unfold inv_x. rewrite Hden. unfold fdiv.
    destruct (fsub _ _); [|reflexivity].
    unfold fin. destruct (Qc_eq_dec 0%Qc 0%Qc); [reflexivity|congruence]. }
  split; [exact Hx|]. unfold inv_y. rewrite Hx.
  unfold fsub, fmul, fdiv, lift2, fin. destruct Y; reflexivity.
Qed.

(** X3.  When gm[5]*gm[1] + gm[4]*gm[2] is zero, as on a grid rotated by
    45 degrees, [proj_to_raster] raises nothing: it returns a pair of floats
    that are not finite for every point.  [_extent_to_window] then fails on
    every extent, and so does every call of [get_data] with a geometry. *)
Theorem zero_divisor_breaks_every_geometry_request img :
  (gm5 (geo_transform_of img) * gm1 (geo_transform_of img)
   + gm4 (geo_transform_of img) * gm2 (geo_transform_of img))%Qc = 0%Qc ->
  (forall X Y : Qc,
      proj_to_raster (geo_transform_of img) (PFloat (fin X)) (PFloat (fin Y))
      = Ok (PFloat None, PFloat None)) /\
  (forall extent, _extent_to_window img extent None = Raise FloatError) /\
  (forall rq g,
      component rq = None -> window_unset rq -> geom rq = Some (GeomFrom g) ->
      get_data img rq = Raise FloatError).
Proof.
  intros Hden.
  assert (Hw : forall extent, _extent_to_window img extent None
                              = Raise FloatError).
  { intros [[[minX maxX] minY] maxY].
    unfold _extent_to_window, extent_pixels. cbn [fst snd].
    rewrite (proj_to_raster_batch _ PTuple)
      by (try reflexivity; right; left; reflexivity).
    cbn [zip_with rbind fst snd tuple_items].
    destruct (inv_zero_divisor (geo_transform_of img)
                (fin minX) (fin maxY) Hden) as [-> _].
    reflexivity. }
  split; [|split; [exact Hw|]].
  - intros X Y. rewrite proj_to_raster_scalar.
    destruct (inv_zero_divisor (geo_transform_of img) (fin X) (fin Y) Hden)
      as [-> ->].
    reflexivity.
  - intros rq g Hc Hwin Hg. unfold get_data. rewrite Hc.
    cbn [select_dataset rbind]. unfold requested_extent. rewrite Hg.
    destruct Hwin as [-> | ->]; cbn [andb _instantiate_geom rbind];
      rewrite Hw; reflexivity.
Qed.

(** X3, on the grid (0, 1, 1, 0, -1, 1), rotated by 45 degrees. *)
Lemma diagonal_grid_breaks_geometry_requests :
  (forall X Y : Qc,
      proj_to_raster diagonal (PFloat (fin X)) (PFloat (fin Y))
      = Ok (PFloat None, PFloat None)) /\
  (forall extent,
      _extent_to_window diagonal_image extent None = Raise FloatError) /\
  (forall rq g,
      component rq = None -> window_unset rq -> geom rq = Some (GeomFrom g) ->
      get_data diagonal_image rq = Raise FloatError).
Proof.
  apply (zero_divisor_breaks_every_geometry_request diagonal_image).
  apply Qc_is_canon. reflexivity.
Defined.

(** X4.  Two batches of different lengths, none of them of length one,
    are rejected by both methods with numpy's broadcasting error. *)
Theorem batches_of_different_lengths_are_rejected gm k (l1 l2 : list float) :
  batch_kind k ->
  length l1 <> length l2 -> length l1 <> 1%nat -> length l2 <> 1%nat ->
  raster_to_proj gm (k l1) (k l2) = Raise (ValueError BroadcastError) /\
  proj_to_raster gm (k l1) (k l2) = Raise (ValueError BroadcastError).
Proof.
  intros Hk Hne H1 H2.
  assert (Hb : forall f (g1 g2 : float -> float),
             broadcast2 f (Arr1 (map g1 l1)) (Arr1 (map g2 l2))
             = Raise (ValueError BroadcastError)).
  { intros f g1 g2. unfold broadcast2. rewrite !length_map.
    destruct (Nat.eqb_spec (length l1) (length l2)); [contradiction|].
    destruct l1 as [|a [|a' l1]], l2 as [|b [|b' l2]]; cbn in *;
      congruence. }
  destruct Hk as [->|[->| ->]];
    unfold raster_to_proj, proj_to_raster; affine_step;
    rewrite ?map_map, !Hb; split; reflexivity.
Qed.

(** X4, on lists of two and of three coordinates. *)
Lemma batches_of_two_and_three :
  raster_to_proj north_up (PList [fin (q 1); fin (q 2)])
    (PList [fin (q 1); fin (q 2); fin (q 3)])
  = Raise (ValueError BroadcastError) /\
  proj_to_raster north_up (PList [fin (q 1); fin (q 2)])
    (PList [fin (q 1); fin (q 2); fin (q 3)])
  = Raise (ValueError BroadcastError).
Proof.
  apply (batches_of_different_lengths_are_rejected north_up PList);
    [left; reflexivity|discriminate|discriminate|discriminate].
Defined.

(** ** [_extent_to_window] *)

Lemma qmin_le a b : (qmin a b <= a)%Qc /\ (qmin a b <= b)%Qc.
Proof.
  unfold qmin, Qcle. destruct (Qle_bool a b) eqn:E.
  - apply Qle_bool_iff in E. split; [apply Qle_refl|exact E].
  - split; [|apply Qle_refl].
    apply Qlt_le_weak, Qnot_le_lt. intros H.
    apply Qle_bool_iff in H. congruence.
Qed.

Lemma qmax_ge a b : (a <= qmax a b)%Qc /\ (b <= qmax a b)%Qc.
Proof.
  unfold qmax, Qcle. destruct (Qle_bool a b) eqn:E.
  - apply Qle_bool_iff in E. split; [exact E|apply Qle_refl].
  - split; [apply Qle_refl|].
    apply Qlt_le_weak, Qnot_le_lt. intros H.
    apply Qle_bool_iff in H. congruence.
Qed.

Lemma of_int_floor_le (x : Qc) : (of_int (Qfloor x) <= x)%Qc.
Proof.
  unfold of_int, Qcle. cbn [this Q2Qc]. rewrite Qred_correct.
  apply Qfloor_le.
Qed.

Lemma of_int_ceiling_ge (x : Qc) : (x <= of_int (Qceiling x))%Qc.
Proof.
  unfold of_int, Qcle. cbn [this Q2Qc]. rewrite Qred_correct.
  apply Qle_ceiling.
Qed.

Lemma of_int_le a b : a <= b -> (of_int a <= of_int b)%Qc.
Proof.
  intros H. unfold of_int, Qcle. cbn [this Q2Qc]. rewrite !Qred_correct.
  rewrite <- Zle_Qle. exact H.
Qed.

Lemma of_int_le_inv a b : (of_int a <= of_int b)%Qc -> a <= b.
Proof.
  unfold of_int, Qcle. cbn [this Q2Qc]. rewrite !Qred_correct.
  rewrite <- Zle_Qle. auto.
Qed.

(** The pixel window of an extent, from the two corners in pixels. *)
Lemma extent_pixels_inv img minX maxX minY maxY xoff yoff w h :
  extent_pixels img (minX, maxX, minY, maxY) None = Ok (xoff, yoff, w, h) ->
  exists x1 y1 x2 y2,
    inv_x (geo_transform_of img) (fin minX) (fin maxY) = fin x1 /\
    inv_y (geo_transform_of img) (fin minX) (fin maxY) = fin y1 /\
    inv_x (geo_transform_of img) (fin maxX) (fin minY) = fin x2 /\
    inv_y (geo_transform_of img) (fin maxX) (fin minY) = fin y2 /\
    xoff = Qfloor (qmin x1 x2) /\ yoff = Qfloor (qmin y1 y2) /\
    xoff + w = Qceiling (qmax x1 x2) /\ yoff + h = Qceiling (qmax y1 y2).
Proof.
  unfold extent_pixels. cbn [fst snd].
  rewrite (proj_to_raster_batch _ PTuple)
    by (try reflexivity; right; left; reflexivity).
  cbn [zip_with rbind fst snd tuple_items].
  unfold floor_min, ceil_max. cbn [all_finite].
  destruct (inv_x _ (fin minX) (fin maxY)) as [x1|]; [|discriminate].
  destruct (inv_x _ (fin maxX) (fin minY)) as [x2|]; [|discriminate].
  cbn [option_map rbind fold_left].
  destruct (inv_y _ (fin minX) (fin maxY)) as [y1|]; [|discriminate].
  destruct (inv_y _ (fin maxX) (fin minY)) as [y2|]; [|discriminate].
  cbn [option_map rbind fold_left].
  intros H. injection H as <- <- <- <-.
  exists x1, y1, x2, y2. repeat split; lia.
Qed.

(** X5.  The pixel window [_extent_to_window] computes for an extent holds
    both corners of the extent as [proj_to_raster] places them, and its
    width and height are never negative. *)
Theorem extent_window_holds_the_corners
    img minX maxX minY maxY xoff yoff w h :
  extent_pixels img (minX, maxX, minY, maxY) None = Ok (xoff, yoff, w, h) ->
  0 <= w /\ 0 <= h /\
  forall X Y, (X, Y) = (minX, maxY) \/ (X, Y) = (maxX, minY) ->
    exists x y,
      proj_to_raster (geo_transform_of img) (PFloat (fin X)) (PFloat (fin Y))
      = Ok (PFloat (fin x), PFloat (fin y)) /\
      (of_int xoff <= x)%Qc /\ (x <= of_int (xoff + w))%Qc /\
      (of_int yoff <= y)%Qc /\ (y <= of_int (yoff + h))%Qc.
Proof.
  intros H.
  destruct (extent_pixels_inv _ _ _ _ _ _ _ _ _ H)
    as (x1 & y1 & x2 & y2 & Hx1 & Hy1 & Hx2 & Hy2 & Ex & Ey & Ew & Eh).
  pose proof (qmin_le x1 x2) as [Hm1 Hm2].
  pose proof (qmax_ge x1 x2) as [HM1 HM2].
  pose proof (qmin_le y1 y2) as [Hn1 Hn2].
  pose proof (qmax_ge y1 y2) as [HN1 HN2].
  pose proof (of_int_floor_le (qmin x1 x2)) as Fx.
  pose proof (of_int_ceiling_ge (qmax x1 x2)) as Cx.
  pose proof (of_int_floor_le (qmin y1 y2)) as Fy.
  pose proof (of_int_ceiling_ge (qmax y1 y2)) as Cy.
  rewrite <- Ex in Fx. rewrite <- Ew in Cx.
  rewrite <- Ey in Fy. rewrite <- Eh in Cy.
  assert (Hw : 0 <= w).
  { assert (of_int xoff <= of_int (xoff + w))%Qc
      by (repeat (eapply Qcle_trans; [eassumption|]); apply Qcle_refl).
    apply of_int_le_inv in H0. lia. }
  assert (Hh : 0 <= h).
  { assert (of_int yoff <= of_int (yoff + h))%Qc
      by (repeat (eapply Qcle_trans; [eassumption|]); apply Qcle_refl).
    apply of_int_le_inv in H0. lia. }
  split; [exact Hw|]. split; [exact Hh|].
  intros X Y [E|E]; injection E as -> ->; rewrite proj_to_raster_scalar.
  - exists x1, y1. rewrite Hx1, Hy1. split; [reflexivity|].
    repeat split; eapply Qcle_trans; eassumption.
  - exists x2, y2. rewrite Hx2, Hy2. split; [reflexivity|].
    repeat split; eapply Qcle_trans; eassumption.
Qed.

(** X5, on the extent (10, 20, 20, 40) over a north-up raster: the window (10, 20, 10, 20). *)
Lemma extent_window_of_a_rectangle :
  0 <= 10 /\ 0 <= 20 /\
  forall X Y, (X, Y) = (q 10, q 40) \/ (X, Y) = (q 20, q 20) ->
    exists x y,
      proj_to_raster (geo_transform_of (image 100 100))
        (PFloat (fin X)) (PFloat (fin Y))
      = Ok (PFloat (fin x), PFloat (fin y)) /\
      (of_int 10 <= x)%Qc /\ (x <= of_int (10 + 10))%Qc /\
      (of_int 20 <= y)%Qc /\ (y <= of_int (20 + 20))%Qc.
Proof.
  apply (extent_window_holds_the_corners (image 100 100)
           (q 10) (q 20) (q 20) (q 40) 10 20 10 20).
  vm_compute. reflexivity.
Defined.

(** ** [get_data]: what a call that returns has done *)

Lemma map_replicate {A B} (f : A -> B) n (x : A) :
  map f (replicate n x) = replicate n (f x).
Proof. induction n as [|n IH]; cbn; [reflexivity|now rewrite IH]. Qed.

Lemma pad_band_map {A B} (f : A -> B) (c : A) t b l r cols (a : list (list A)) :
  pad_band (f c) t b l r cols (map (map f) a)
  = map (map f) (pad_band c t b l r cols a).
Proof.
  unfold pad_band. rewrite !map_app, !map_replicate, !map_map.
  f_equal. f_equal. apply map_ext. intros row. unfold pad_row.
  rewrite !map_app, !map_replicate. reflexivity.
Qed.

Lemma pad_block_map {A B} (f : A -> B) (c : A) t b l r cols
    (d : list (list (list A))) :
  pad_block (f c) t b l r cols (map (map (map f)) d)
  = map (map (map f)) (pad_block c t b l r cols d).
Proof.
  unfold pad_block. rewrite !map_map. apply map_ext. intros a.
  apply pad_band_map.
Qed.

Lemma pad_block_tile {A B} (c : A) t b l r cols (d : list B)
    (a : list (list A)) :
  pad_block c t b l r cols (map (fun _ => a) d)
  = map (fun _ => pad_band c t b l r cols a) d.
Proof. unfold pad_block. rewrite map_map. reflexivity. Qed.

Lemma pad_block_app {A} (c : A) t b l r cols (d1 d2 : list (list (list A))) :
  pad_block c t b l r cols (d1 ++ d2)
  = pad_block c t b l r cols d1 ++ pad_block c t b l r cols d2.
Proof. unfold pad_block. apply map_app. Qed.

(** The steps of a call of [get_data] that returns. *)
Lemma get_data_inv img rq blk :
  get_data img rq = Ok blk ->
  exists obj g w0 xoff yoff w h d,
    select_dataset img (component rq) = Ok obj /\
    requested_extent img rq = Ok (g, w0) /\
    apply_buffer (buffer rq) w0 = Ok (xoff, yoff, w, h) /\
    virtual rq = VirtFalse /\
    let r := clip_window (shape1 img) (shape2 img) xoff yoff w h in
    let top := Z.abs_nat (np_yoff_buff r) in
    let bottom := Z.abs_nat (np_ylim_buff r) in
    let left := Z.abs_nat (np_xoff_buff r) in
    let right := Z.abs_nat (np_xlim_buff r) in
    let cols := Z.to_nat (r_win_xsize r) in
    read_data obj (r_xoff r) (r_yoff r) (r_win_xsize r) (r_win_ysize r)
      (requested_bands obj rq) = Ok (Some d) /\
    data blk = pad_block 0 top bottom left right cols d /\
    upper_left_pixel blk
    = (if return_location rq then Some (r_xoff r, r_yoff r) else None) /\
    (mask rq = false -> data_mask blk = None) /\
    (mask rq = true -> g = None ->
     data_mask blk
     = Some (pad_block true top bottom left right cols (nonzero_mask d))) /\
    (mask rq = true -> forall g', g = Some g' ->
     exists m,
       geometry_mask img g' (r_win_xsize r) (r_win_ysize r)
         (mask_all_touched rq) (Some d) = Ok (d, m) /\
       data_mask blk = Some (pad_block true top bottom left right cols m)).
Proof.
  unfold get_data. intros H.
  destruct (select_dataset img (component rq)) as [obj|] eqn:Eo;
    [|discriminate]. cbn [rbind] in H.
  destruct (requested_extent img rq) as [[g w0]|] eqn:Ee; [|discriminate].
  cbn [rbind fst snd] in H.
  destruct (apply_buffer (buffer rq) w0) as [[[[xoff yoff] w] h]|] eqn:Eb;
    [|discriminate]. cbn [rbind] in H.
  destruct (virtual rq) eqn:Ev; try discriminate.
  destruct (read_data obj _ _ _ _ _) as [d|] eqn:Er; [|discriminate].
  cbn [rbind] in H.
  exists obj, g, w0, xoff, yoff, w, h.
  destruct (mask rq) eqn:Em.
  - destruct g as [g'|].
    + destruct (geometry_mask img g' _ _ _ d) as [[d' m]|] eqn:Eg;
        [|discriminate].
      cbn [rbind fst snd] in H. injection H as <-.
      assert (Hd : d = Some d').
      { unfold geometry_mask in Eg.
        destruct (GetEnvelope g') as [[[? ?] ?] ?].
        destruct d as [d0|]; cbn [use_data] in Eg;
          repeat match type of Eg with
                 | rbind ?r _ = _ => destruct r; cbn [rbind] in Eg;
                                     [|discriminate]
                 end; [|discriminate].
        injection Eg as -> _. reflexivity. }
      subst d. exists d'. cbv zeta. cbn [data data_mask upper_left_pixel].
      repeat split; auto; try discriminate.
      intros _ g0 Hg. injection Hg as <-. exists m. auto.
    + destruct d as [d|]; cbn [use_data rbind fst snd] in H; [|discriminate].
      injection H as <-. exists d. cbv zeta.
      cbn [data data_mask upper_left_pixel].
      repeat split; auto; try discriminate.
  - destruct d as [d|]; cbn [use_data rbind] in H; [|discriminate].
    injection H as <-. exists d. cbv zeta.
    cbn [data data_mask upper_left_pixel].
    repeat split; auto; try discriminate.
Qed.

Lemma requested_extent_without_geom img rq g w0 :
  geom rq = None -> requested_extent img rq = Ok (g, w0) -> g = None.
Proof.
  unfold requested_extent. intros ->. rewrite andb_false_r.
  destruct (window rq) as [[|a [|b [|c [|d [|e l]]]]]|]; intros H;
    try discriminate; injection H as <- _; reflexivity.
Qed.

(** X6.  Asked for a mask without a geometry, [get_data] masks exactly the
    elements of the returned block that are zero: the padding, and every
    pixel of the raster whose value is zero. *)
Theorem mask_without_geometry_is_the_zero_set img rq blk :
  get_data img rq = Ok blk -> mask rq = true -> geom rq = None ->
  data_mask blk = Some (nonzero_mask (data blk)).
Proof.
  intros H Hm Hg.
  destruct (get_data_inv img rq blk H)
    as (obj & g & w0 & xoff & yoff & w & h & d & _ & He & _ & _ & Hrest).
  cbv zeta in Hrest. destruct Hrest as (_ & Hd & _ & _ & Hmask & _).
  rewrite (Hmask Hm (requested_extent_without_geom img rq g w0 Hg He)), Hd.
  unfold nonzero_mask. f_equal.
  apply (pad_block_map (fun v => v =? 0) 0).
Qed.

(** X6, on the window (-1, 0, 3, 1) of a raster that holds 1 and 2 in its first two pixels. *)
Lemma mask_without_geometry_example :
  let rq := Request None None (Some [-1; 0; 3; 1]) None None true false
                    VirtFalse false in
  let blk := PixelBlock [[[0; 1; 2]]] (Some [[[true; false; false]]]) None in
  get_data (image 100 100) rq = Ok blk /\
  data_mask blk = Some (nonzero_mask (data blk)).
Proof.
  intros rq blk. split; [reflexivity|].
  apply (mask_without_geometry_is_the_zero_set (image 100 100) rq blk);
    reflexivity.
Defined.

(** The burn of [geometry_mask], step by step. *)
Lemma geometry_mask_inv img g xs ys touched d d' mm :
  geometry_mask img g xs ys touched (Some d) = Ok (d', mm) ->
  let gm := geo_transform_of img in
  let '(xmin, xmax, ymin, ymax) := GetEnvelope g in
  exists qx qy m,
    inv_x gm (fin xmin) (fin ymax) = fin qx /\
    inv_y gm (fin xmin) (fin ymax) = fin qy /\
    RasterizeLayer g
      (fwd_x gm (of_Z (Qfloor qx)) (of_Z (Qfloor qy)),
       fin (fst (resolution img)), fin 0%Qc,
       fwd_y gm (of_Z (Qfloor qx)) (of_Z (Qfloor qy)),
       fin 0%Qc, fin (- snd (resolution img))%Qc) xs ys touched = Done m /\
    d' = d /\
    mm = map (fun _ => tabulate (Z.to_nat ys) (Z.to_nat xs)
                         (fun r c => negb (m r c))) d.
Proof.
  unfold geometry_mask. cbv zeta.
  destruct (GetEnvelope g) as [[[xmin xmax] ymin] ymax].
  rewrite proj_to_raster_scalar. cbn [rbind fst snd].
  destruct (inv_x _ (fin xmin) (fin ymax)) as [qx|] eqn:Ex;
    cbn [floor_float rbind]; [|discriminate].
  destruct (inv_y _ (fin xmin) (fin ymax)) as [qy|] eqn:Ey;
    cbn [floor_float rbind]; [|discriminate].
  rewrite raster_to_proj_scalar. cbn [rbind fst snd float_of].
  destruct (RasterizeLayer g _ xs ys touched) as [m|] eqn:Em;
    cbn [from_gdal rbind use_data]; [|discriminate].
  intros H. injection H as <- <-.
  exists qx, qy, m. repeat split; auto.
Qed.

Lemma geometry_mask_other_data img g xs ys touched d mm
    (e : list (list (list Z))) :
  geometry_mask img g xs ys touched (Some d) = Ok (d, mm) ->
  exists a, mm = map (fun _ => a) d /\
            geometry_mask img g xs ys touched (Some e)
            = Ok (e, map (fun _ => a) e).
Proof.
  intros H. pose proof (geometry_mask_inv _ _ _ _ _ _ _ _ H) as Hinv.
  cbv zeta in Hinv. unfold geometry_mask.
  destruct (GetEnvelope g) as [[[xmin xmax] ymin] ymax].
  destruct Hinv as (qx & qy & m & Hx & Hy & Hr & _ & ->).
  rewrite proj_to_raster_scalar. cbn [rbind fst snd].
  rewrite Hx, Hy. cbn [floor_float rbind fin].
  rewrite raster_to_proj_scalar. cbn [rbind fst snd float_of].
  rewrite Hr. cbn [from_gdal rbind use_data].
  eexists. split; reflexivity.
Qed.

(** X7.  Asked for a mask with a geometry, [get_data] returns the same
    two-dimensional mask on every band: the burn of the geometry, negated,
    and padded with [True].  The raster that is burnt has the size of the
    clipped window, and its upper left corner is the corner of the pixel that
    holds the upper left corner of the envelope, whatever the buffer is and
    wherever the window was clipped. *)
Theorem geometry_mask_is_burnt_from_the_envelope_corner
    img rq blk g w0 xoff yoff w h :
  get_data img rq = Ok blk -> mask rq = true ->
  requested_extent img rq = Ok (Some g, w0) ->
  apply_buffer (buffer rq) w0 = Ok (xoff, yoff, w, h) ->
  burnt_at_envelope_corner img g (mask_all_touched rq)
    (clip_window (shape1 img) (shape2 img) xoff yoff w h) blk.
Proof.
  intros H Hm He Hb.
  destruct (get_data_inv img rq blk H)
    as (obj & g0 & w1 & xoff' & yoff' & w' & h' & d & _ & He' & Hb' & _ & Hrest).
  rewrite He in He'. injection He' as <- <-.
  rewrite Hb in Hb'. injection Hb' as <- <- <- <-.
  cbv zeta in Hrest. destruct Hrest as (_ & Hd & _ & _ & _ & Hmask).
  destruct (Hmask Hm g eq_refl) as (mm & Hg & Hdm).
  pose proof (geometry_mask_inv _ _ _ _ _ _ _ _ Hg) as Hinv.
  unfold burnt_at_envelope_corner. cbv zeta in Hinv |- *.
  destruct (GetEnvelope g) as [[[xmin xmax] ymin] ymax].
  destruct Hinv as (qx & qy & m & Hx & Hy & Hr & _ & ->).
  exists qx, qy, m. repeat split; auto.
  rewrite Hdm, Hd, pad_block_tile. unfold pad_block. rewrite map_map.
  reflexivity.
Qed.

(** X7, on the rectangle over the upper left corner of a raster of 100 by 100 pixels. *)
Lemma geometry_mask_at_the_corner :
  exists blk,
    get_data (image 100 100) (corner_mask_request true) = Ok blk /\
    burnt_at_envelope_corner (image 100 100) corner_geometry true
      (clip_window 100 100 (-5) (-5) 15 15) blk.
Proof.
  destruct (get_data (image 100 100) (corner_mask_request true))
    as [blk|e] eqn:E; [|vm_compute in E; discriminate E].
  exists blk. split; [reflexivity|].
  apply (geometry_mask_is_burnt_from_the_envelope_corner
           (image 100 100) (corner_mask_request true) blk corner_geometry
           (-5, -5, 15, 15) (-5) (-5) 15 15);
    [exact E|reflexivity|vm_compute; reflexivity|reflexivity].
Defined.

Lemma clip_window_offset W H xoff yoff w h :
  r_xoff (clip_window W H xoff yoff w h) = Z.max 0 xoff /\
  r_yoff (clip_window W H xoff yoff w h) = Z.max 0 yoff.
Proof. clip_cases; lia. Qed.

(** X8.  The location [get_data] reports with [return_location] is the
    offset of the window after clipping: the pixel of the raster at which
    the read started, which is never negative.  For a window that starts
    left of or above the raster it is not the pixel of the first element of
    the (padded) block. *)
Theorem reported_location_is_the_clipped_offset img rq blk :
  get_data img rq = Ok blk -> return_location rq = true ->
  exists g w0 xoff yoff w h,
    requested_extent img rq = Ok (g, w0) /\
    apply_buffer (buffer rq) w0 = Ok (xoff, yoff, w, h) /\
    upper_left_pixel blk = Some (Z.max 0 xoff, Z.max 0 yoff).
Proof.
  intros H Hloc.
  destruct (get_data_inv img rq blk H)
    as (obj & g & w0 & xoff & yoff & w & h & d & _ & He & Hb & _ & Hrest).
  cbv zeta in Hrest. destruct Hrest as (_ & _ & Hl & _).
  exists g, w0, xoff, yoff, w, h. split; [exact He|]. split; [exact Hb|].
  rewrite Hl, Hloc.
  destruct (clip_window_offset (shape1 img) (shape2 img) xoff yoff w h)
    as [-> ->].
  reflexivity.
Qed.

(** X8, on the window (-5, -5, 20, 20) of a raster of 100 by 100 pixels. *)
Lemma reported_location_at_the_corner :
  let rq := Request None None (Some [-5; -5; 20; 20]) None None false false
                    VirtFalse true in
  exists blk,
    get_data (image 100 100) rq = Ok blk /\
    exists g w0 xoff yoff w h,
      requested_extent (image 100 100) rq = Ok (g, w0) /\
      apply_buffer (buffer rq) w0 = Ok (xoff, yoff, w, h) /\
      upper_left_pixel blk = Some (Z.max 0 xoff, Z.max 0 yoff).
Proof.
  intros rq.
  destruct (get_data (image 100 100) rq) as [blk|e] eqn:E;
    [|vm_compute in E; discriminate E].
  exists blk. split; [reflexivity|].
  apply (reported_location_is_the_clipped_offset (image 100 100) rq blk);
    [exact E|reflexivity].
Defined.

(** ** [get_data]: the buffer and the bands *)

Lemma get_data_buffer_ext img rq b1 b2 :
  (forall w0, apply_buffer b1 w0 = apply_buffer b2 w0) ->
  get_data img (with_buffer rq b1) = get_data img (with_buffer rq b2).
Proof.
  intros Hb. unfold get_data, with_buffer, requested_extent, requested_bands.
  cbn [component bands window buffer geom mask mask_all_touched virtual
       return_location].
  destruct (select_dataset img (component rq)) as [obj|]; [|reflexivity].
  cbn [rbind].
  match goal with
  | |- rbind ?e _ = _ => destruct e as [[g w0]|]; [|reflexivity]
  end.
  cbn [rbind fst snd]. rewrite Hb. reflexivity.
Qed.

(** X9.  The three ways to write a buffer of [b] pixels on every side, the
    int [b], the sequence [[b]] and the sequence [[b, b]], give the same
    result; a buffer of zero gives the result of a call without buffer, and
    a buffer of any other length raises the ValueError of the buffer. *)
Theorem buffer_forms_agree img rq (b : Z) :
  get_data img (with_buffer rq (Some (BufSeq [b])))
  = get_data img (with_buffer rq (Some (BufInt b))) /\
  get_data img (with_buffer rq (Some (BufSeq [b; b])))
  = get_data img (with_buffer rq (Some (BufInt b))) /\
  get_data img (with_buffer rq (Some (BufInt 0)))
  = get_data img (with_buffer rq None) /\
  get_data img (with_buffer rq (Some (BufSeq [0; 0])))
  = get_data img (with_buffer rq None).
Proof.
  split; [|split; [|split]]; apply get_data_buffer_ext;
    intros [[[xoff yoff] w] h].
  - destruct (Z.eq_dec b 0) as [->|Hb].
    + cbn. repeat f_equal; lia.
    + unfold apply_buffer. cbn [buffer_truthy].
      destruct b; [congruence|reflexivity|reflexivity].
  - destruct (Z.eq_dec b 0) as [->|Hb].
    + cbn. repeat f_equal; lia.
    + unfold apply_buffer. cbn [buffer_truthy].
      destruct b; [congruence|reflexivity|reflexivity].
  - reflexivity.
  - cbn. repeat f_equal; lia.
Qed.

Lemma read_data_inv obj x y w h bs d :
  read_data obj x y w h bs = Ok (Some d) ->
  bs <> [] /\ 0 <= w /\ 0 <= h /\ read_bands obj x y w h bs = Ok d.
Proof.
  unfold read_data. destruct bs as [|b bs]; [discriminate|].
  destruct (from_gdal (ReadAsArray obj b x y w h)); cbn [rbind];
    [|discriminate].
  destruct (Z.ltb_spec w 0), (Z.ltb_spec h 0); cbn [orb]; try discriminate.
  destruct (read_bands obj x y w h (b :: bs)) as [d'|]; cbn [rbind];
    [|discriminate].
  intros E. injection E as <-. repeat split; auto; discriminate.
Qed.

Lemma read_bands_prefix obj x y w h l1 l2 d :
  read_bands obj x y w h (l1 ++ l2) = Ok d ->
  read_bands obj x y w h l1 = Ok (take (length l1) d) /\
  length d = length (l1 ++ l2).
Proof.
  revert d. induction l1 as [|b l1 IH]; intros d; cbn [app length take].
  - intros H. split; [reflexivity|].
    revert d H. induction l2 as [|b l2 IH2]; intros d; cbn [read_bands].
    + intros H. injection H as <-. reflexivity.
    + destruct (from_gdal _); cbn [rbind]; [|discriminate].
      destruct (read_bands obj x y w h l2) as [r|]; cbn [rbind];
        [|discriminate].
      intros H. injection H as <-. cbn [length]. f_equal. apply IH2.
      reflexivity.
  - cbn [read_bands].
    destruct (from_gdal (ReadAsArray obj b x y w h)); cbn [rbind];
      [|discriminate].
    destruct (read_bands obj x y w h (l1 ++ l2)) as [r|]; cbn [rbind];
      [|discriminate].
    intros H. injection H as <-.
    destruct (IH r eq_refl) as [-> Hlen].
    cbn [rbind take length]. split; [reflexivity|]. f_equal. exact Hlen.
Qed.

Lemma read_data_prefix obj x y w h l1 l2 d :
  l1 <> [] ->
  read_data obj x y w h (l1 ++ l2) = Ok (Some d) ->
  read_data obj x y w h l1 = Ok (Some (take (length l1) d)) /\
  length d = length (l1 ++ l2).
Proof.
  intros Hne H.
  destruct (read_data_inv _ _ _ _ _ _ _ H) as (_ & Hw & Hh & R).
  destruct (read_bands_prefix _ _ _ _ _ _ _ _ R) as [R1 Hlen].
  split; [|exact Hlen].
  destruct l1 as [|b l1]; [congruence|].
  unfold read_data in *. cbn [app] in H.
  destruct (from_gdal (ReadAsArray obj b x y w h)); cbn [rbind] in *;
    [|discriminate].
  destruct (Z.ltb_spec w 0), (Z.ltb_spec h 0); cbn [orb]; try lia.
  rewrite R1. reflexivity.
Qed.

Lemma requested_bands_given obj rq l :
  l <> [] -> requested_bands obj (with_bands rq l) = l.
Proof. destruct l; [congruence|reflexivity]. Qed.

Lemma take_pad_block {A} n (c : A) t b l r cols (d : list (list (list A))) :
  take n (pad_block c t b l r cols d) = pad_block c t b l r cols (take n d).
Proof. unfold pad_block. apply firstn_map. Qed.

(** X10.  What [get_data] returns for a band does not depend on the bands
    asked for after it: when the call for the bands [l1 ++ l2] returns, the
    call for [l1] alone returns as well, and its data, its mask and its
    location are those of the first bands of the longer call, which has one
    band for each band asked for. *)
Theorem leading_bands_do_not_depend_on_later_ones img rq l1 l2 blk :
  l1 <> [] ->
  get_data img (with_bands rq (l1 ++ l2)) = Ok blk ->
  get_data img (with_bands rq l1)
  = Ok (PixelBlock (take (length l1) (data blk))
          (option_map (take (length l1)) (data_mask blk))
          (upper_left_pixel blk)) /\
  length (data blk) = length (l1 ++ l2).
Proof.
  intros N1 H.
  destruct (get_data_inv _ _ _ H)
    as (obj & g & w0 & xoff & yoff & w & h & d & Ho & He & Hb & Hv & R).
  cbn [with_bands component buffer virtual mask mask_all_touched
       return_location] in *.
  cbv zeta in R.
  rewrite requested_bands_given in R
    by (destruct l1; [congruence|discriminate]).
  destruct R as (Hr & Hd & Hl & Hn & Hz & Hg).
  destruct (read_data_prefix _ _ _ _ _ _ _ _ N1 Hr) as [Hr1 Hlen].
  split; [|rewrite Hd; unfold pad_block; rewrite length_map; exact Hlen].
  unfold get_data.
  cbn [with_bands component buffer virtual mask mask_all_touched
       return_location].
  rewrite Ho. cbn [rbind].
  change (requested_extent img (with_bands rq l1))
    with (requested_extent img (with_bands rq (l1 ++ l2))).
  rewrite He. cbn [rbind fst snd]. rewrite Hb. cbn [rbind]. rewrite Hv.
  rewrite requested_bands_given by assumption.
  rewrite Hr1. cbn [rbind].
  rewrite Hd, Hl, take_pad_block.
  destruct (mask rq) eqn:Em.
  - destruct g as [g0|].
    + destruct (Hg eq_refl g0 eq_refl) as (m & G & ->).
      destruct (geometry_mask_other_data _ _ _ _ _ _ _
                  (take (length l1) d) G) as (a & -> & G1).
      rewrite G1. cbn [rbind fst snd option_map].
      rewrite take_pad_block, <- firstn_map. reflexivity.
    + rewrite (Hz eq_refl eq_refl).
      cbn [use_data rbind fst snd option_map]. unfold nonzero_mask.
      rewrite take_pad_block, <- firstn_map. reflexivity.
  - rewrite (Hn eq_refl). cbn [use_data rbind option_map]. reflexivity.
Qed.

(** X10, on a raster of two bands: band 2 alone, and band 2 before band 1. *)
(** X10, on a raster of two bands: band 2 alone, and band 2 before band 1. *)
Lemma band_two_before_band_one :
  let img := Image (raster 2 10 10 (fun b x y => b)) [] north_up
                   EmptyString None "GTiff" in
  let rq := window_request [0; 0; 2; 1] in
  let blk := PixelBlock [[[2; 2]]; [[1; 1]]] None None in
  get_data img (with_bands rq ([2] ++ [1])) = Ok blk /\
  get_data img (with_bands rq [2])
  = Ok (PixelBlock (take (length [2]) (data blk))
          (option_map (take (length [2])) (data_mask blk))
          (upper_left_pixel blk)) /\
  length (data blk) = length ([2] ++ [1]).
Proof.
  intros img rq blk. split; [reflexivity|].
  apply (leading_bands_do_not_depend_on_later_ones img rq [2] [1] blk);
    [discriminate|reflexivity].
Defined.

(** ** [get_data]: windows inside and windows off the raster *)

Lemma get_data_inside img rq obj w0 xoff yoff w h :
  virtual rq = VirtFalse ->
  select_dataset img (component rq) = Ok obj ->
  requested_extent img rq = Ok (None, w0) ->
  apply_buffer (buffer rq) w0 = Ok (xoff, yoff, w, h) ->
  0 <= xoff -> 0 <= yoff -> 0 < w -> 0 < h ->
  xoff + w <= shape1 img -> yoff + h <= shape2 img ->
  requested_bands obj rq <> [] ->
  readable obj (shape1 img) (shape2 img) (requested_bands obj rq) ->
  let d := map (band_array obj xoff yoff w h) (requested_bands obj rq) in
  get_data img rq
  = Ok (PixelBlock d (if mask rq then Some (nonzero_mask d) else None)
          (if return_location rq then Some (xoff, yoff) else None)) /\
  block_shape (length (requested_bands obj rq)) (Z.to_nat h) (Z.to_nat w) d.
Proof.
  intros Hv Ho He Hb Hx Hy Hpw Hph Hxw Hyh Hne Hr d. subst d.
  pose proof (clip_window_inside (shape1 img) (shape2 img) xoff yoff w h
                Hx Hy Hxw Hyh) as Hclip.
  assert (Hall : forall b, In b (requested_bands obj rq) ->
            exists f, ReadAsArray obj b xoff yoff w h = Done f).
  { intros b Hin. apply Hr; auto. }
  pose proof (band_arrays_shape obj xoff yoff w h _ Hall) as Hshape.
  split; [|exact Hshape].
  unfold get_data. rewrite Ho. cbn [rbind]. rewrite He. cbn [rbind fst snd].
  rewrite Hb. cbn [rbind]. rewrite Hclip, Hv.
  cbn [r_xoff r_yoff r_win_xsize r_win_ysize
       np_xoff_buff np_yoff_buff np_xlim_buff np_ylim_buff Z.abs_nat].
  rewrite read_data_ok by (auto; lia). cbn [rbind use_data].
  destruct (mask rq);
    [|rewrite (pad_block_nothing 0 _ _ _ _ Hshape); reflexivity].
  cbn [rbind fst snd].
  rewrite (pad_block_nothing 0 _ _ _ _ Hshape).
  rewrite (pad_block_nothing true _ _ _ _ (nonzero_mask_shape _ _ _ _ Hshape)).
  reflexivity.
Qed.

(** X11.  Without window, geometry and buffer, [get_data] reads the whole
    raster: every band asked for comes back as read from the window
    (0, 0, [shape[1]], [shape[2]]), unpadded.  The block has the shape
    (bands, [shape[2]], [shape[1]]): rows first, where [meta.shape] has the
    x size first. *)
Theorem no_window_reads_the_whole_raster img rq obj :
  window_unset rq -> geom rq = None ->
  buffer_truthy (buffer rq) = false -> virtual rq = VirtFalse ->
  select_dataset img (component rq) = Ok obj ->
  0 < shape1 img -> 0 < shape2 img ->
  requested_bands obj rq <> [] ->
  readable obj (shape1 img) (shape2 img) (requested_bands obj rq) ->
  exists blk,
    get_data img rq = Ok blk /\
    data blk = map (band_array obj 0 0 (shape1 img) (shape2 img))
                   (requested_bands obj rq) /\
    block_shape (length (requested_bands obj rq))
      (Z.to_nat (shape2 img)) (Z.to_nat (shape1 img)) (data blk).
Proof.
  intros Hw Hg Hb Hv Ho H1 H2 Hne Hr.
  assert (He : requested_extent img rq
               = Ok (None, (0, 0, shape1 img, shape2 img))).
  { unfold requested_extent. rewrite Hg.
    destruct Hw as [-> | ->]; reflexivity. }
  assert (Hbuf : apply_buffer (buffer rq) (0, 0, shape1 img, shape2 img)
                 = Ok (0, 0, shape1 img, shape2 img)).
  { unfold apply_buffer. rewrite Hb. reflexivity. }
  destruct (get_data_inside img rq obj _ 0 0 (shape1 img) (shape2 img)
              Hv Ho He Hbuf) as [E S]; auto; try lia.
  eexists. split; [exact E|]. cbn [data]. auto.
Qed.

(** X11, on a raster of 3 by 2 pixels: the block has 2 rows of 3 columns. *)
Lemma whole_raster_example :
  exists blk,
    get_data (image 3 2) default_request = Ok blk /\
    data blk = map (band_array (raster 1 3 2 ramp) 0 0 3 2) [1] /\
    block_shape 1 2 3 (data blk).
Proof.
  apply (no_window_reads_the_whole_raster (image 3 2) default_request
           (raster 1 3 2 ramp));
    try reflexivity; try discriminate.
  - left. reflexivity.
  - apply raster_readable. simpl. intros b [<-|[]]. lia.
Defined.

Lemma requested_extent_of_window img rq xoff yoff w h g w0 :
  window rq = Some [xoff; yoff; w; h] ->
  requested_extent img rq = Ok (g, w0) ->
  g = None /\ w0 = (xoff, yoff, w, h).
Proof.
  unfold requested_extent. intros ->.
  destruct (geom rq); cbn [andb]; [discriminate|].
  intros H. injection H as <- <-. auto.
Qed.

(** X12.  An explicit window that lies off the raster, beyond its right or
    lower edge or wholly left of or above it, never returns data, whatever
    the reader does: the clipped window has a negative size, so the read
    fails or the array cannot be allocated. *)
Theorem window_off_the_raster_returns_no_data img rq xoff yoff w h blk :
  window rq = Some [xoff; yoff; w; h] ->
  buffer_truthy (buffer rq) = false ->
  0 <= shape1 img -> 0 <= shape2 img ->
  xoff + w < 0 \/ shape1 img < xoff \/ yoff + h < 0 \/ shape2 img < yoff ->
  get_data img rq <> Ok blk.
Proof.
  intros Hw Hb HW HH Hoff H.
  destruct (get_data_inv img rq blk H)
    as (obj & g & w0 & xoff' & yoff' & w' & h' & d & _ & He & Hbuf & _ & Hrest).
  destruct (requested_extent_of_window _ _ _ _ _ _ _ _ Hw He) as [-> ->].
  unfold apply_buffer in Hbuf. rewrite Hb in Hbuf.
  injection Hbuf as <- <- <- <-.
  cbv zeta in Hrest. destruct Hrest as (Hr & _).
  apply read_data_inv in Hr. destruct Hr as (_ & Hw0 & Hh0 & _).
  revert Hw0 Hh0. clip_cases; lia.
Qed.

(** X12, on a window that starts one pixel beyond the right edge. *)
Lemma window_right_of_the_raster :
  shape1 (image 100 100) < 101 /\
  forall blk, get_data (image 100 100) (window_request [101; 0; 10; 10])
              <> Ok blk.
Proof.
  split; [reflexivity|]. intros blk.
  apply (window_off_the_raster_returns_no_data (image 100 100)
           (window_request [101; 0; 10; 10]) 101 0 10 10 blk);
    [reflexivity|reflexivity|discriminate|discriminate|right; left; reflexivity].
Defined.

(** ** [iter_window]: the windows of a run *)

Section Grid.
Variables (xs ys tw th sx sy x0 y0 : Z) (a b : nat).
Hypothesis Hsx : 0 < sx.
Hypothesis Hsy : 0 < sy.
Hypothesis Ha : x0 + Z.of_nat a * sx <= xs < x0 + (Z.of_nat a + 1) * sx.
Hypothesis Hb : y0 + Z.of_nat b * sy <= ys < y0 + (Z.of_nat b + 1) * sy.

Lemma window_loop_tiles (rj ri : nat) :
  (ri <= a)%nat -> (rj <= b)%nat ->
  window_loop (S (ri + rj * S a)) xs ys tw th sx sy x0
    (x0 + Z.of_nat (a - ri) * sx) (y0 + Z.of_nat (b - rj) * sy)
  = Some (tile_row x0 sx tw th (y0 + Z.of_nat (b - rj) * sy) (a - ri) (S ri)
          ++ tile_grid x0 y0 sx sy tw th (S a) (S (b - rj)) rj).
Proof.
  revert ri. induction rj as [|rj IHj]; intros ri; induction ri as [|ri IHi];
    intros Hri Hrj.
  - rewrite window_loop_last by nia.
    unfold tile_row, tile_grid. cbn [seq map flat_map app]. reflexivity.
  - replace (S ri + 0 * S a)%nat with (S (ri + 0 * S a)) by lia.
    rewrite window_loop_same_row by nia.
    replace (x0 + Z.of_nat (a - S ri) * sx + sx)
      with (x0 + Z.of_nat (a - ri) * sx) by nia.
    rewrite IHi by lia. cbn [option_map].
    unfold tile_row. replace (a - ri)%nat with (S (a - S ri)) by lia.
    reflexivity.
  - replace (0 + S rj * S a)%nat with (S (a + rj * S a)) by lia.
    rewrite window_loop_next_row by nia.
    replace (y0 + Z.of_nat (b - S rj) * sy + sy)
      with (y0 + Z.of_nat (b - rj) * sy) by nia.
    pose proof (IHj a (le_n a) ltac:(lia)) as IH'.
    rewrite Nat.sub_diag in IH'.
    replace (x0 + Z.of_nat 0 * sx) with x0 in IH' by lia.
    rewrite IH'. cbn [option_map]. unfold tile_grid.
    replace (S (b - S rj)) with (b - rj)%nat by lia.
    cbn [seq flat_map]. unfold tile_row at 1. cbn [seq map app].
    replace (a - 0)%nat with a by lia. reflexivity.
  - replace (S ri + S rj * S a)%nat with (S (ri + S rj * S a)) by lia.
    rewrite window_loop_same_row by nia.
    replace (x0 + Z.of_nat (a - S ri) * sx + sx)
      with (x0 + Z.of_nat (a - ri) * sx) by nia.
    rewrite IHi by lia. cbn [option_map].
    unfold tile_row. replace (a - ri)%nat with (S (a - S ri)) by lia.
    reflexivity.
Qed.

Lemma window_loop_all_tiles :
  window_loop (S b * S a) xs ys tw th sx sy x0 x0 y0
  = Some (tile_grid x0 y0 sx sy tw th (S a) 0 (S b)).
Proof.
  pose proof (window_loop_tiles b a (le_n a) (le_n b)) as Hg.
  rewrite !Nat.sub_diag in Hg.
  replace (x0 + Z.of_nat 0 * sx) with x0 in Hg by lia.
  replace (y0 + Z.of_nat 0 * sy) with y0 in Hg by lia.
  replace (S b * S a)%nat with (S (a + b * S a)) by lia.
  rewrite Hg. unfold tile_grid. cbn [seq flat_map].
  replace (y0 + Z.of_nat 0 * sy) with y0 by lia. reflexivity.
Qed.
End Grid.

Lemma columns_of_a_row x0 s xs :
  0 < s -> x0 <= xs ->
  let a := Z.to_nat ((xs - x0) / s) in
  x0 + Z.of_nat a * s <= xs < x0 + (Z.of_nat a + 1) * s.
Proof.
  intros Hs Hx a. subst a.
  rewrite Z2Nat.id by (apply Z.div_pos; lia).
  pose proof (Z.mul_div_le (xs - x0) s Hs).
  pose proof (Z.mul_succ_div_gt (xs - x0) s Hs).
  nia.
Qed.

Lemma int_half_bounds n : 0 <= n -> 0 <= int_half n <= n.
Proof.
  intros H. unfold int_half. rewrite Z.quot_div_nonneg by lia.
  pose proof (Z.div_pos n 2 H ltac:(lia)).
  pose proof (Z.mul_div_le n 2 ltac:(lia)). lia.
Qed.

Lemma tile_grid_length x0 y0 sx sy tw th cols j m :
  length (tile_grid x0 y0 sx sy tw th cols j m) = (m * cols)%nat.
Proof.
  unfold tile_grid. revert j. induction m as [|m IH]; intros j; [reflexivity|].
  cbn [seq flat_map]. rewrite length_app, IH.
  unfold tile_row. rewrite length_map, length_seq. lia.
Qed.

Lemma tile_windows_fixed xs ys bsz tw th (k : nat) :
  0 < tw -> 0 < th -> 0 <= xs -> 0 <= ys ->
  let x0 := int_half (xs mod tw) in
  let y0 := int_half (ys mod th) in
  let a := Z.to_nat ((xs - x0) / tw) in
  let b := Z.to_nat ((ys - y0) / th) in
  tile_windows (S b * S a + k) xs ys bsz (Some [tw; th]) None
  = Ok (Some (tile_grid x0 y0 tw th tw th (S a) 0 (S b))) /\
  tile_windows (S b * S a + k) xs ys [tw; th] None None
  = Ok (Some (tile_grid x0 y0 tw th tw th (S a) 0 (S b))) /\
  length (tile_grid x0 y0 tw th tw th (S a) 0 (S b)) = (S b * S a)%nat.
Proof.
  intros Htw Hth Hxs Hys x0 y0 a b.
  pose proof (int_half_bounds (xs mod tw) ltac:(apply Z.mod_pos_bound; lia)).
  pose proof (int_half_bounds (ys mod th) ltac:(apply Z.mod_pos_bound; lia)).
  pose proof (Z.mod_le xs tw Hxs Htw).
  pose proof (Z.mod_le ys th Hys Hth).
  assert (Hloop : window_loop (S b * S a) xs ys tw th tw th x0 x0 y0
                  = Some (tile_grid x0 y0 tw th tw th (S a) 0 (S b))).
  { apply window_loop_all_tiles; auto.
    - apply columns_of_a_row; [exact Htw|]. unfold x0. lia.
    - apply columns_of_a_row; [exact Hth|]. unfold y0. lia. }
  split; [|split; [|apply tile_grid_length]].
  - apply tile_windows_more_fuel. unfold tile_windows.
    cbn [seq_truthy default from_option id existsb andb negb orb].
    destruct (Z.leb_spec tw 0); [lia|]. destruct (Z.leb_spec th 0); [lia|].
    cbn [orb unpack2 rbind fst snd]. unfold py_mod.
    destruct (Z.eqb_spec tw 0); [lia|]. destruct (Z.eqb_spec th 0); [lia|].
    cbn [rbind]. fold x0 y0. rewrite Hloop. reflexivity.
  - apply tile_windows_more_fuel. unfold tile_windows.
    cbn [seq_truthy default from_option id existsb andb negb orb
         unpack2 rbind fst snd].
    unfold py_mod.
    destruct (Z.eqb_spec tw 0); [lia|]. destruct (Z.eqb_spec th 0); [lia|].
    cbn [rbind]. fold x0 y0. rewrite Hloop. reflexivity.
Qed.


Lemma tile_windows_strided xs ys bsz tw th sx sy (k : nat) :
  0 < tw -> 0 < th -> 0 < sx -> 0 < sy -> tw <= xs -> th <= ys ->
  let x0 := int_half ((xs - tw) mod sx) in
  let y0 := int_half ((ys - th) mod sy) in
  let a := Z.to_nat ((xs - x0) / sx) in
  let b := Z.to_nat ((ys - y0) / sy) in
  tile_windows (S b * S a + k) xs ys bsz (Some [tw; th]) (Some [sx; sy])
  = Ok (Some (tile_grid x0 y0 sx sy tw th (S a) 0 (S b))).
Proof.
  intros Htw Hth Hsx Hsy Hxs Hys x0 y0 a b.
  pose proof (int_half_bounds ((xs - tw) mod sx)
                ltac:(apply Z.mod_pos_bound; lia)).
  pose proof (int_half_bounds ((ys - th) mod sy)
                ltac:(apply Z.mod_pos_bound; lia)).
  pose proof (Z.mod_le (xs - tw) sx ltac:(lia) Hsx).
  pose proof (Z.mod_le (ys - th) sy ltac:(lia) Hsy).
  assert (Hloop : window_loop (S b * S a) xs ys tw th sx sy x0 x0 y0
                  = Some (tile_grid x0 y0 sx sy tw th (S a) 0 (S b))).
  { apply window_loop_all_tiles; auto.
    - apply columns_of_a_row; [exact Hsx|]. unfold x0. lia.
    - apply columns_of_a_row; [exact Hsy|]. unfold y0. lia. }
  apply tile_windows_more_fuel. unfold tile_windows.
  cbn [seq_truthy default from_option id existsb andb negb orb].
  destruct (Z.leb_spec tw 0); [lia|]. destruct (Z.leb_spec th 0); [lia|].
  destruct (Z.leb_spec sx 0); [lia|]. destruct (Z.leb_spec sy 0); [lia|].
  cbn [orb unpack2 rbind fst snd]. unfold py_mod.
  destruct (Z.eqb_spec sx 0); [lia|]. destruct (Z.eqb_spec sy 0); [lia|].
  cbn [rbind]. fold x0 y0. rewrite Hloop. reflexivity.
Qed.

(** X13.  For a positive window size on a raster of [xs] by [ys] pixels,
    the loop of [iter_window] ends, and the windows it asks of [get_data]
    are those of a grid, row after row: the first window at the start
    offset ([x0], [y0]), the columns one step apart up to the last one that
    starts at or before [xs], the rows likewise up to [ys].  Without a
    stride the step is the window size and the start offset is half of what
    [xs] and [ys] leave over; calling without [win_size] uses the block size
    in the same way. *)
Theorem fixed_tiling_is_a_grid xs ys bsz tw th (k : nat) :
  0 < tw -> 0 < th -> 0 <= xs -> 0 <= ys ->
  let x0 := int_half (xs mod tw) in
  let y0 := int_half (ys mod th) in
  let a := Z.to_nat ((xs - x0) / tw) in
  let b := Z.to_nat ((ys - y0) / th) in
  tile_windows (S b * S a + k) xs ys bsz (Some [tw; th]) None
  = Ok (Some (tile_grid x0 y0 tw th tw th (S a) 0 (S b))) /\
  tile_windows (S b * S a + k) xs ys [tw; th] None None
  = Ok (Some (tile_grid x0 y0 tw th tw th (S a) 0 (S b))) /\
  length (tile_grid x0 y0 tw th tw th (S a) 0 (S b)) = (S b * S a)%nat.
Proof. apply tile_windows_fixed. Qed.

(** X13, on a raster of 10 by 7 pixels tiled by 4 by 4: three columns from x = 1, two rows from y = 1. *)
Lemma fixed_tiling_of_a_raster_of_10_by_7 :
  tile_windows (6 + 0) 10 7 [] (Some [4; 4]) None
  = Ok (Some [[1; 1; 4; 4]; [5; 1; 4; 4]; [9; 1; 4; 4];
              [1; 5; 4; 4]; [5; 5; 4; 4]; [9; 5; 4; 4]]) /\
  tile_windows (6 + 0) 10 7 [4; 4] None None
  = Ok (Some [[1; 1; 4; 4]; [5; 1; 4; 4]; [9; 1; 4; 4];
              [1; 5; 4; 4]; [5; 5; 4; 4]; [9; 5; 4; 4]]) /\
  length [[1; 1; 4; 4]; [5; 1; 4; 4]; [9; 1; 4; 4];
          [1; 5; 4; 4]; [5; 5; 4; 4]; [9; 5; 4; 4]] = 6%nat.
Proof.
  apply (fixed_tiling_is_a_grid 10 7 [] 4 4 0); lia.
Defined.

(** X14.  With a stride, the windows are those of the grid whose columns
    and rows are one stride apart, from half of what the strides leave over
    of [xs - xsize] and [ys - ysize] up to the last offset that is not
    greater than [xs] and [ys]. *)
Theorem strided_tiling_is_a_grid xs ys bsz tw th sx sy (k : nat) :
  0 < tw -> 0 < th -> 0 < sx -> 0 < sy -> tw <= xs -> th <= ys ->
  let x0 := int_half ((xs - tw) mod sx) in
  let y0 := int_half ((ys - th) mod sy) in
  let a := Z.to_nat ((xs - x0) / sx) in
  let b := Z.to_nat ((ys - y0) / sy) in
  tile_windows (S b * S a + k) xs ys bsz (Some [tw; th]) (Some [sx; sy])
  = Ok (Some (tile_grid x0 y0 sx sy tw th (S a) 0 (S b))).
Proof. apply tile_windows_strided. Qed.

(** X14, on a raster of 10 by 7 pixels, windows of 4 by 4 with a stride of 5. *)
Lemma strided_tiling_of_a_raster_of_10_by_7 :
  tile_windows (6 + 0) 10 7 [] (Some [4; 4]) (Some [5; 5])
  = Ok (Some [[0; 1; 4; 4]; [5; 1; 4; 4]; [10; 1; 4; 4];
              [0; 6; 4; 4]; [5; 6; 4; 4]; [10; 6; 4; 4]]).
Proof.
  apply (strided_tiling_is_a_grid 10 7 [] 4 4 5 5 0); lia.
Defined.

(** X15.  A window size greater than the raster in both directions gives
    one window, and that window starts in the middle of the raster, at
    (xs / 2, ys / 2): the left and the upper half of the raster are not in
    it. *)
Theorem tile_larger_than_the_raster xs ys bsz tw th (k : nat) :
  0 <= xs < tw -> 0 <= ys < th ->
  tile_windows (1 + k) xs ys bsz (Some [tw; th]) None
  = Ok (Some [[xs / 2; ys / 2; tw; th]]).
Proof.
  intros Hx Hy.
  destruct (tile_windows_fixed xs ys bsz tw th k) as [E _]; try lia.
  cbv zeta in E. rewrite !Z.mod_small in E by lia.
  unfold int_half in E. rewrite !Z.quot_div_nonneg in E by lia.
  assert (Hxd : (xs - xs / 2) / tw = 0).
  { apply Z.div_small. pose proof (Z.mul_div_le xs 2 ltac:(lia)).
    pose proof (Z.div_pos xs 2 ltac:(lia) ltac:(lia)). lia. }
  assert (Hyd : (ys - ys / 2) / th = 0).
  { apply Z.div_small. pose proof (Z.mul_div_le ys 2 ltac:(lia)).
    pose proof (Z.div_pos ys 2 ltac:(lia) ltac:(lia)). lia. }
  rewrite Hxd, Hyd in E. change (Z.to_nat 0) with 0%nat in E.
  change (1 * 1 + k)%nat with (1 + k)%nat in E.
  rewrite E. unfold tile_grid, tile_row. cbn [seq flat_map map app].
  repeat f_equal; lia.
Qed.

(** X15, on a raster of 100 by 100 pixels and a window size of 150 by 150. *)
Lemma tile_of_150_on_a_raster_of_100 :
  tile_windows (1 + 0) 100 100 [] (Some [150; 150]) None
  = Ok (Some [[100 / 2; 100 / 2; 150; 150]]).
Proof.
  apply (tile_larger_than_the_raster 100 100 [] 150 150 0); lia.
Defined.

(** ** [iter_components] and [iter_window_random] *)

(** X16.  [iter_components] yields nothing: the first component it asks
    for is 0, the index [xrange] starts with, and [get_data] rejects a
    component of 0.  On an image with at least one component file the
    generator ends with that ValueError before the first item; with none it
    ends at once. *)
Theorem iter_components_yields_nothing img kwargs :
  (dfile_tiles img <> [] ->
   iter_components img kwargs = ([], Some (ValueError ComponentZero))) /\
  (dfile_tiles img = [] -> iter_components img kwargs = ([], None)).
Proof.
  unfold iter_components. split.
  - destruct (dfile_tiles img) as [|t ts]; [congruence|]. intros _.
    reflexivity.
  - intros ->. reflexivity.
Qed.

(** X16, on the mosaic of two tiles. *)
Lemma iter_components_on_the_mosaic :
  iter_components mosaic default_request
  = ([], Some (ValueError ComponentZero)).
Proof.
  apply (iter_components_yields_nothing mosaic default_request).
  discriminate.
Defined.

Section RandomChips.
Variables (draw : nat -> Z -> Z) (img : GeoImage) (kw : keywords).
Variables (xsize ysize : Z).
Let bs := requested_bands (_fobj img) (request_of kw None).

Hypothesis Hdraw : forall k high, 0 < high -> 0 <= draw k high < high.
Hypothesis Hwindow : kw_window kw = None.
Hypothesis Hcomponent : kw_component kw = None.
Hypothesis Hgeom : kw_geom kw = None.
Hypothesis Hbuffer : buffer_truthy (kw_buffer kw) = false.
Hypothesis Hvirtual : default VirtFalse (kw_virtual kw) = VirtFalse.
Hypothesis Hxsize : 0 < xsize <= shape1 img.
Hypothesis Hysize : 0 < ysize <= shape2 img.
Hypothesis Hbands : bs <> [].
Hypothesis Hread : readable (_fobj img) (shape1 img) (shape2 img) bs.

Lemma chip_is_read xoff yoff :
  0 <= xoff <= shape1 img - xsize -> 0 <= yoff <= shape2 img - ysize ->
  exists blk,
    get_data_window img [xoff; yoff; xsize; ysize] kw = Ok blk /\
    is_chip img bs xsize ysize blk.
Proof.
  intros Hx Hy. unfold get_data_window. rewrite Hwindow.
  destruct (get_data_inside img (request_of kw (Some [xoff; yoff; xsize; ysize]))
              (_fobj img) (xoff, yoff, xsize, ysize) xoff yoff xsize ysize)
    as [E _]; try lia.
  - exact Hvirtual.
  - cbn [request_of component]. rewrite Hcomponent. reflexivity.
  - unfold requested_extent. cbn [request_of window geom].
    rewrite Hgeom. reflexivity.
  - unfold apply_buffer. cbn [request_of buffer]. rewrite Hbuffer.
    reflexivity.
  - exact Hbands.
  - exact Hread.
  - eexists. split; [exact E|]. exists xoff, yoff. auto.
Qed.

Lemma randint_in_range k high :
  0 < high -> exists v, randint draw k high = Returns v /\ 0 <= v < high.
Proof.
  intros H. unfold randint. destruct (Z.leb_spec high 0); [lia|].
  eexists. split; [reflexivity|]. apply Hdraw. exact H.
Qed.

Lemma chip_loop_counts (n extra k : nat) :
  exists chips,
    chip_loop (S n + extra) draw img kw (shape1 img) (shape2 img)
      xsize ysize k (Z.of_nat (S n)) = Some (chips, None) /\
    length chips = S n /\ Forall (is_chip img bs xsize ysize) chips.
Proof.
  revert k. induction n as [|n IH]; intros k.
  - cbn [chip_loop Nat.add].
    destruct (randint_in_range k (shape1 img - xsize + 1) ltac:(lia))
      as (xoff & -> & Hx).
    destruct (randint_in_range (S k) (shape2 img - ysize + 1) ltac:(lia))
      as (yoff & -> & Hy).
    destruct (chip_is_read xoff yoff ltac:(lia) ltac:(lia)) as (blk & -> & Hc).
    cbn. eexists. split; [reflexivity|]. split; [reflexivity|].
    constructor; [exact Hc|constructor].
  - change (S (S n) + extra)%nat with (S (S n + extra)).
    cbn [chip_loop].
    destruct (randint_in_range k (shape1 img - xsize + 1) ltac:(lia))
      as (xoff & -> & Hx).
    destruct (randint_in_range (S k) (shape2 img - ysize + 1) ltac:(lia))
      as (yoff & -> & Hy).
    destruct (chip_is_read xoff yoff ltac:(lia) ltac:(lia)) as (blk & -> & Hc).
    destruct (Z.eqb_spec (Z.of_nat (S (S n)) - 1) 0); [lia|].
    replace (Z.of_nat (S (S n)) - 1) with (Z.of_nat (S n)) by lia.
    destruct (IH (S (S k))) as (chips & -> & Hlen & Hall).
    exists (blk :: chips). split; [reflexivity|].
    split; [cbn [length]; lia|]. constructor; assumption.
Qed.

Lemma chip_loop_runs_on fuel k counter :
  counter <= 0 ->
  chip_loop fuel draw img kw (shape1 img) (shape2 img) xsize ysize k counter
  = None.
Proof.
  revert k counter. induction fuel as [|fuel IH]; intros k counter Hc;
    [reflexivity|].
  cbn [chip_loop].
  destruct (randint_in_range k (shape1 img - xsize + 1) ltac:(lia))
    as (xoff & -> & Hx).
  destruct (randint_in_range (S k) (shape2 img - ysize + 1) ltac:(lia))
    as (yoff & -> & Hy).
  destruct (chip_is_read xoff yoff ltac:(lia) ltac:(lia)) as (blk & -> & _).
  destruct (Z.eqb_spec (counter - 1) 0); [lia|].
  rewrite IH by lia. reflexivity.
Qed.

Lemma iter_window_random_loop fuel no_chips :
  iter_window_random fuel draw img (Some [xsize; ysize]) no_chips kw
  = chip_loop fuel draw img kw (shape1 img) (shape2 img) xsize ysize 0
      no_chips.
Proof.
  unfold iter_window_random.
  cbn [seq_truthy default from_option id existsb andb orb].
  destruct (Z.leb_spec xsize 0); [lia|]. destruct (Z.leb_spec ysize 0); [lia|].
  reflexivity.
Qed.
End RandomChips.

(** X17.  Asked for [n] chips of a size that fits the raster, with [n] at
    least one, [iter_window_random] yields exactly [n] blocks and ends, and
    every block is a chip: it was read from a window of the chip size that
    lies inside the raster, so it holds no padding. *)
Theorem random_chips_lie_inside_the_raster
    draw img kw xsize ysize (n extra : nat) :
  (forall k high, 0 < high -> 0 <= draw k high < high) ->
  kw_window kw = None -> kw_component kw = None -> kw_geom kw = None ->
  buffer_truthy (kw_buffer kw) = false ->
  default VirtFalse (kw_virtual kw) = VirtFalse ->
  0 < xsize <= shape1 img -> 0 < ysize <= shape2 img ->
  requested_bands (_fobj img) (request_of kw None) <> [] ->
  readable (_fobj img) (shape1 img) (shape2 img)
    (requested_bands (_fobj img) (request_of kw None)) ->
  exists chips,
    iter_window_random (S n + extra) draw img (Some [xsize; ysize])
      (Z.of_nat (S n)) kw = Some (chips, None) /\
    length chips = S n /\
    Forall (is_chip img (requested_bands (_fobj img) (request_of kw None))
              xsize ysize) chips.
Proof.
  intros Hd Hw Hc Hg Hb Hv Hx Hy Hne Hr.
  rewrite iter_window_random_loop by assumption.
  apply chip_loop_counts; assumption.
Qed.

Lemma dice_in_range k high : 0 < high -> 0 <= dice k high < high.
Proof. intros H. apply Z.mod_pos_bound. exact H. Qed.

(** X17, on two chips of 10 by 10 pixels from a raster of 100 by 100. *)
Lemma two_random_chips :
  exists chips,
    iter_window_random (2 + 0) dice (image 100 100) (Some [10; 10])
      (Z.of_nat 2) no_keywords = Some (chips, None) /\
    length chips = 2%nat /\
    Forall (is_chip (image 100 100) [1] 10 10) chips.
Proof.
  apply (random_chips_lie_inside_the_raster dice (image 100 100) no_keywords
           10 10 1 0); try reflexivity.
  - apply dice_in_range.
  - split; [reflexivity|discriminate].
  - split; [reflexivity|discriminate].
  - discriminate.
  - apply raster_readable. simpl. intros b [<-|[]]. lia.
Defined.

(** X18.  Asked for zero chips, or for a negative number of them,
    [iter_window_random] never stops: the counter is decremented before it
    is compared with zero, so it is never zero again, and on a raster every
    chip of which can be read no exception ends the loop.  Whatever the
    number of turns allowed, the generator is still running. *)
Theorem zero_random_chips_never_stops
    draw img kw xsize ysize (no_chips : Z) (fuel : nat) :
  (forall k high, 0 < high -> 0 <= draw k high < high) ->
  kw_window kw = None -> kw_component kw = None -> kw_geom kw = None ->
  buffer_truthy (kw_buffer kw) = false ->
  default VirtFalse (kw_virtual kw) = VirtFalse ->
  0 < xsize <= shape1 img -> 0 < ysize <= shape2 img ->
  requested_bands (_fobj img) (request_of kw None) <> [] ->
  readable (_fobj img) (shape1 img) (shape2 img)
    (requested_bands (_fobj img) (request_of kw None)) ->
  no_chips <= 0 ->
  iter_window_random fuel draw img (Some [xsize; ysize]) no_chips kw = None.
Proof.
  intros Hd Hw Hc Hg Hb Hv Hx Hy Hne Hr Hn.
  rewrite iter_window_random_loop by assumption.
  apply chip_loop_runs_on; assumption.
Qed.

(** X18, with [no_chips] = 0, after five turns. *)
Lemma zero_random_chips_after_five_turns :
  iter_window_random 5 dice (image 100 100) (Some [10; 10]) 0 no_keywords
  = None.
Proof.
  apply (zero_random_chips_never_stops dice (image 100 100) no_keywords
           10 10 0 5); try reflexivity.
  - apply dice_in_range.
  - split; [reflexivity|discriminate].
  - split; [reflexivity|discriminate].
  - discriminate.
  - apply raster_readable. simpl. intros b [<-|[]]. lia.
Defined.

(** ** [iter_vector]: properties and filters *)

Lemma propval_eqb_eq a b : propval_eqb a b = true <-> a = b.
Proof.
  destruct a, b; cbn; split; intros H; try congruence; try discriminate.
  - apply Z.eqb_eq in H. congruence.
  - injection H as ->. apply Z.eqb_refl.
  - apply String.eqb_eq in H. congruence.
  - injection H as ->. apply String.eqb_refl.
Qed.

Lemma any_key_missing_total prop_test (l : list pydict) :
  Forall (fun d => d <> []) l ->
  exists b, any_key_missing prop_test l = Ok b.
Proof.
  induction 1 as [|d l Hd _ IH]; cbn [any_key_missing]; [eauto|].
  destruct d as [|e d]; [congruence|]. cbn [first_entry rbind].
  destruct (bool_decide _); eauto.
Qed.

Lemma any_match_spec prop_test (l : list pydict) :
  Forall (fun d => d <> []) l ->
  exists keep,
    any_match prop_test l = Ok keep /\
    (keep = true <->
     exists d k v rest,
       In d l /\ d = (k, v) :: rest /\ default PVNone (prop_test !! k) = v).
Proof.
  induction 1 as [|d l Hd _ IH]; cbn [any_match].
  - exists false. split; [reflexivity|]. split; [discriminate|].
    intros (d & k & v & rest & [] & _).
  - destruct d as [|[k v] rest]; [congruence|]. cbn [first_entry rbind fst snd].
    destruct (propval_eqb _ v) eqn:E.
    + exists true. split; [reflexivity|]. split; [|reflexivity]. intros _.
      exists ((k, v) :: rest), k, v, rest.
      split; [left; reflexivity|]. split; [reflexivity|].
      apply propval_eqb_eq. exact E.
    + destruct IH as (keep & -> & Hk). exists keep. split; [reflexivity|].
      rewrite Hk. split.
      * intros (d & k' & v' & rest' & Hin & Hd' & Hv).
        exists d, k', v', rest'. split; [right; exact Hin|auto].
      * intros (d & k' & v' & rest' & [Hin|Hin] & Hd' & Hv).
        -- subst d. injection Hd' as <- <- <-.
           apply propval_eqb_eq in Hv. congruence.
        -- exists d, k', v', rest'. auto.
Qed.

(** X19.  A feature passes a filter given as a sequence of dicts when, for
    one of the dicts, the value of the feature at the first key of the dict
    equals the first value of the dict.  Only the first entry of each dict
    is looked at, and a feature that lacks the key is taken to hold [None]
    there: it passes a filter whose value is [None]. *)
Theorem filter_tests_the_first_entry_of_each_dict feat (l : list pydict) :
  l <> [] -> Forall (fun d => d <> []) l ->
  exists keep,
    passes_filter (Some (FilterSeq l)) feat = Ok keep /\
    (keep = true <->
     exists d k v rest,
       In d l /\ d = (k, v) :: rest /\
       default PVNone (items feat !! k) = v).
Proof.
  intros Hne Hall. unfold passes_filter.
  destruct l as [|d0 l0]; [congruence|]. cbn [filter_truthy].
  destruct (any_key_missing_total (items feat) (d0 :: l0) Hall) as [b ->].
  cbn [rbind]. apply any_match_spec. exact Hall.
Qed.

(** X19, on a feature without the key kind and a filter whose first entry asks for kind = None. *)
Lemma filter_on_a_missing_key :
  exists keep,
    passes_filter
      (Some (FilterSeq [[("kind"%string, PVNone); ("name"%string, PVInt 1)]]))
      (feature_at "inside" (rectangle 10 20 10 20)) = Ok keep /\
    (keep = true <->
     exists d k v rest,
       In d [[("kind"%string, PVNone); ("name"%string, PVInt 1)]] /\
       d = (k, v) :: rest /\
       default PVNone
         (items (feature_at "inside" (rectangle 10 20 10 20)) !! k) = v).
Proof.
  apply (filter_tests_the_first_entry_of_each_dict
           (feature_at "inside" (rectangle 10 20 10 20))
           [[("kind"%string, PVNone); ("name"%string, PVInt 1)]]).
  - discriminate.
  - repeat constructor; discriminate.
Defined.

Lemma selected_lookup (it : gmap string propval) (names : list string) k :
  (list_to_map (omap (fun x => option_map (pair x) (it !! x)) names)
     : gmap string propval) !! k
  = if bool_decide (k ∈ names) then it !! k else None.
Proof.
  induction names as [|x names IH].
  - cbn. rewrite lookup_empty. reflexivity.
  - cbn [omap list_omap]. destruct (it !! x) as [v|] eqn:Ex; cbn [option_map].
    + cbn [list_to_map foldr]. cbn.
      destruct (decide (k = x)) as [->|Hkx].
      * rewrite lookup_insert_eq.
        rewrite bool_decide_eq_true_2 by (left). congruence.
      * rewrite lookup_insert_ne by congruence. rewrite IH.
        destruct (bool_decide (k ∈ names)) eqn:Ein.
        -- apply bool_decide_eq_true_1 in Ein.
           rewrite bool_decide_eq_true_2 by (right; exact Ein). reflexivity.
        -- apply bool_decide_eq_false_1 in Ein.
           rewrite bool_decide_eq_false_2; [reflexivity|].
           intros Hin. apply elem_of_cons in Hin. tauto.
    + rewrite IH.
      destruct (decide (k = x)) as [->|Hkx].
      * rewrite Ex. destruct (bool_decide _), (bool_decide _); reflexivity.
      * destruct (bool_decide (k ∈ names)) eqn:Ein.
        -- apply bool_decide_eq_true_1 in Ein.
           rewrite bool_decide_eq_true_2 by (right; exact Ein). reflexivity.
        -- apply bool_decide_eq_false_1 in Ein.
           rewrite bool_decide_eq_false_2; [reflexivity|].
           intros Hin. apply elem_of_cons in Hin. tauto.
Qed.

Lemma present_names_truthy (it : gmap string propval) (names : list string) :
  forallb (fun x => negb (String.eqb x EmptyString))
    (List.filter (fun x => bool_decide (is_Some (it !! x))) names) = false
  <-> (EmptyString ∈ names /\ is_Some (it !! EmptyString)).
Proof.
  induction names as [|x names IH].
  - cbn. split; [discriminate|]. intros [H _]. inversion H.
  - cbn [List.filter].
    destruct (bool_decide (is_Some (it !! x))) eqn:Ex.
    + apply bool_decide_eq_true_1 in Ex. cbn [forallb].
      destruct (String.eqb_spec x EmptyString) as [->|Hx]; cbn [negb andb].
      * split; [|reflexivity]. intros _. split; [left|exact Ex].
      * rewrite IH. split.
        -- intros [Hin Hs]. split; [right; exact Hin|exact Hs].
        -- intros [Hin Hs]. apply elem_of_cons in Hin.
           destruct Hin as [Hin|Hin]; [congruence|auto].
    + apply bool_decide_eq_false_1 in Ex. rewrite IH. split.
      * intros [Hin Hs]. split; [right; exact Hin|exact Hs].
      * intros [Hin Hs]. apply elem_of_cons in Hin.
        destruct Hin as [Hin|Hin]; [subst x; contradiction|auto].
Qed.

(** X20.  Asked for a list of property names, [iter_vector] returns, for each
    feature, the requested properties the feature has, and [None] when it
    has none of them.  A requested property that the feature lacks is left
    out without an error: the ValueError that says a requested property is
    not in the feature is raised in one case only, when the empty string is
    among the names and the feature has a property of that name. *)
Theorem missing_properties_are_left_out feat (names : list string) :
  (select_properties (PropsNames names) feat
   = Raise (ValueError PropertiesMissing)
   <-> (EmptyString ∈ names /\ is_Some (items feat !! EmptyString))) /\
  (~ (EmptyString ∈ names /\ is_Some (items feat !! EmptyString)) ->
   exists out,
     select_properties (PropsNames names) feat = Ok out /\
     forall k,
       (match out with Some m => m !! k | None => None end)
       = if bool_decide (k ∈ names) then items feat !! k else None).
Proof.
  unfold select_properties.
  pose proof (present_names_truthy (items feat) names) as Hp.
  destruct (forallb _ _) eqn:E; cbn [negb].
  - split.
    + split.
      * destruct (bool_decide _); discriminate.
      * intros H. apply Hp in H. discriminate.
    + intros _.
      destruct (bool_decide _) eqn:Eempty.
      * apply bool_decide_eq_true_1 in Eempty. exists None.
        split; [reflexivity|]. intros k.
        rewrite <- selected_lookup, Eempty, lookup_empty. reflexivity.
      * eexists. split; [reflexivity|]. intros k. apply selected_lookup.
  - split.
    + split; [|reflexivity]. intros _. apply Hp. reflexivity.
    + intros H. exfalso. apply H, Hp. reflexivity.
Qed.

(** X20, on a feature that has name and lacks kind. *)
Lemma a_missing_property_is_left_out :
  exists out,
    select_properties (PropsNames ["name"; "kind"]%string)
      (feature_at "inside" (rectangle 10 20 10 20)) = Ok out /\
    forall k,
      (match out with Some m => m !! k | None => None end)
      = if bool_decide (k ∈ ["name"; "kind"]%string)
        then items (feature_at "inside" (rectangle 10 20 10 20)) !! k
        else None.
Proof.
  apply (missing_properties_are_left_out
           (feature_at "inside" (rectangle 10 20 10 20))
           ["name"; "kind"]%string).
  intros [H _].
  apply elem_of_cons in H as [H|H]; [discriminate H|].
  apply elem_of_cons in H as [H|H]; [discriminate H|].
  inversion H.
Defined.

(** ** [get_data_from_vec_extent] *)

(** X21.  A call of [get_data_from_vec_extent] that returns has read the
    pixel window of the extent of the layer, after the overlap test on that
    window, and the block it returns is never masked: the key [mask] is
    refused.  An extent that has no content raises OverlapError here;
    nothing turns it into [None] as [iter_vector] does. *)
Theorem vec_extent_block_is_read_from_the_layer_window img vector kw :
  (forall blk,
      get_data_from_vec_extent img vector kw = Returns blk ->
      data_mask blk = None /\
      exists lyr xoff yoff w h,
        vector = Vector (Some lyr) /\
        extent_pixels img (GetExtent lyr) (Some (TransformPoint lyr))
        = Ok (xoff, yoff, w, h) /\
        no_content img xoff yoff w h = false /\
        get_data img (request_of kw (Some [xoff; yoff; w; h])) = Ok blk) /\
  (forall lyr xoff yoff w h,
      vector = Vector (Some lyr) ->
      kw_window kw = None -> kw_geom kw = None -> kw_mask kw = None ->
      extent_pixels img (GetExtent lyr) (Some (TransformPoint lyr))
      = Ok (xoff, yoff, w, h) ->
      no_content img xoff yoff w h = true ->
      get_data_from_vec_extent img vector kw = Raises (Of OverlapError)).
Proof.
  split.
  - intros blk. unfold get_data_from_vec_extent.
    destruct vector as [|[lyr|]]; try discriminate;
      destruct (kw_window kw) as [?|] eqn:Ew; cbn [bool_decide]; try discriminate;
      destruct (kw_geom kw) as [?|] eqn:Eg; try discriminate;
      destruct (kw_mask kw) as [?|] eqn:Em; try discriminate.
    all: rewrite ?bool_decide_eq_true_2 by eauto; try discriminate.
    all: rewrite ?bool_decide_eq_false_2 by (intros [? ?]; discriminate);
      try discriminate.
    unfold _extent_to_window.
    destruct (extent_pixels img _ _) as [[[[xoff yoff] w] h]|] eqn:Ep;
      cbn [rbind lift]; [|discriminate].
    destruct (no_content img xoff yoff w h) eqn:En; cbn [rbind lift];
      [discriminate|].
    unfold get_data_window. rewrite Ew.
    destruct (get_data img _) as [b|] eqn:Ed; cbn [lift]; [|discriminate].
    intros H. injection H as <-. split.
    + destruct (get_data_inv _ _ _ Ed)
        as (? & ? & ? & ? & ? & ? & ? & ? & _ & _ & _ & _ & Hrest).
      cbv zeta in Hrest. destruct Hrest as (_ & _ & _ & Hn & _).
      apply Hn. cbn [request_of mask]. rewrite Em. reflexivity.
    + exists lyr, xoff, yoff, w, h. auto.
  - intros lyr xoff yoff w h -> Ew Eg Em Ep En.
    unfold get_data_from_vec_extent. rewrite Ew, Eg, Em.
    rewrite !bool_decide_eq_false_2 by (intros [? ?]; discriminate).
    unfold _extent_to_window. rewrite Ep. cbn [rbind]. rewrite En.
    reflexivity.
Qed.

(** X21, on a layer over the pixels (10, 20) to (20, 40). *)
Lemma vec_extent_of_the_parcels :
  exists blk,
    get_data_from_vec_extent (image 100 100) (Vector (Some parcels))
      no_keywords = Returns blk /\
    data_mask blk = None /\
    exists lyr xoff yoff w h,
      Vector (Some parcels) = Vector (Some lyr) /\
      extent_pixels (image 100 100) (GetExtent lyr)
        (Some (TransformPoint lyr)) = Ok (xoff, yoff, w, h) /\
      no_content (image 100 100) xoff yoff w h = false /\
      get_data (image 100 100)
        (request_of no_keywords (Some [xoff; yoff; w; h])) = Ok blk.
Proof.
  destruct (get_data_from_vec_extent (image 100 100) (Vector (Some parcels))
              no_keywords) as [blk|e] eqn:E;
    [|vm_compute in E; discriminate E].
  exists blk. split; [reflexivity|].
  apply (vec_extent_block_is_read_from_the_layer_window (image 100 100)
           (Vector (Some parcels)) no_keywords).
  exact E.
Defined.

(** ** [read_geo_file_info] *)

(** X22.  The extent [read_geo_file_info] reports is made of the projected
    coordinates [raster_to_proj] gives for the pixel corners (0, 0) and
    (x size, y size): (xstart, ystart) for the first and (xend, yend) for
    the second; the pixel count is the product of the two sizes. *)
Theorem extent_is_the_projected_raster_corners name fobj s :
  read_geo_file_info name fobj = Ok s ->
  let '(nb, x, y) := s_shape s in
  let '(xstart, xend, ystart, yend) := extent s in
  raster_to_proj (s_geo_transform s) (PInt 0) (PInt 0)
  = Ok (PFloat (fin xstart), PFloat (fin ystart)) /\
  raster_to_proj (s_geo_transform s) (PInt x) (PInt y)
  = Ok (PFloat (fin xend), PFloat (fin yend)) /\
  pixels s = x * y /\
  x = RasterXSize (handle fobj) /\ y = RasterYSize (handle fobj).
Proof.
  unfold read_geo_file_info.
  destruct (from_gdal (GetRasterBand1 fobj)) as [b1|]; cbn [rbind];
    [|discriminate].
  destruct (AUTHORITY fobj 0) as [a0|]; [|discriminate].
  destruct (AUTHORITY fobj 1) as [a1|]; [|discriminate].
  intros H. injection H as <-. cbn [s_shape extent s_geo_transform pixels].
  split; [|split; [reflexivity|auto]].
  unfold raster_to_proj. affine_step.
  cbn [broadcast2 rbind head_float of_Z fadd fmul lift2 fin].
  apply f_equal. apply f_equal2; apply f_equal; apply f_equal.
  - change (Q2Qc (inject_Z 0)) with 0%Qc. ring.
  - change (Q2Qc (inject_Z 0)) with 0%Qc. ring.
Qed.

(** X22, on a file of 100 by 50 pixels of 30 units. *)
Lemma extent_of_the_scene :
  exists s,
    read_geo_file_info (fun _ => "Byte"%string) scene = Ok s /\
    let '(nb, x, y) := s_shape s in
    let '(xstart, xend, ystart, yend) := extent s in
    raster_to_proj (s_geo_transform s) (PInt 0) (PInt 0)
    = Ok (PFloat (fin xstart), PFloat (fin ystart)) /\
    raster_to_proj (s_geo_transform s) (PInt x) (PInt y)
    = Ok (PFloat (fin xend), PFloat (fin yend)) /\
    pixels s = x * y /\
    x = RasterXSize (handle scene) /\ y = RasterYSize (handle scene).
Proof.
  destruct (read_geo_file_info (fun _ => "Byte"%string) scene) as [s|e] eqn:E;
    [|vm_compute in E; discriminate E].
  exists s. split; [reflexivity|].
  apply (extent_is_the_projected_raster_corners (fun _ => "Byte"%string)
           scene s E).
Defined.

(** ** The writer, further *)

Lemma write_bands_raises ds bs e :
  write_bands ds bs = Raise e -> exists c, e = GdalError c.
Proof.
  induction bs as [|b bs IH]; cbn [write_bands]; [discriminate|].
  destruct (WriteArray ds _) as [[]|c]; cbn [from_gdal rbind]; [exact IH|].
  intros H. injection H as <-. eauto.
Qed.

Lemma replace_non_finite_twice v e :
  replace_non_finite v (replace_non_finite v e) = replace_non_finite v e.
Proof. destruct e; reflexivity. Qed.

Lemma create_geo_image_heap env h name a drv geo proj NDV opts fb
    a3 size ds v buf :
  with_band_axis a = Ok (a3, size) ->
  create_dataset env (snd (resolve_driver env name drv fb))
    (fst (resolve_driver env name drv fb)) a3 size opts = Ok ds ->
  ndv_value NDV = Some v -> h !! base a3 = Some buf ->
  fst (create_geo_image env h name a drv geo proj NDV opts fb)
  = <[base a3 := map (replace_non_finite v) buf]> h.
Proof.
  intros Ha Hc Hv Hb. unfold create_geo_image. rewrite Ha.
  destruct size as [[nb ys] xs]. rewrite Hc, Hv. cbn [fst].
  apply assign_where_both. exact Hb.
Qed.

(** X23.  The replacement of NaN and Infinite is made in the caller's array
    before the first band is written: once the checks have passed and the
    file was created, the array holds the replaced values when the call
    ends, whether writing the bands succeeded or raised.  A call that ends
    with an exception of a check (any exception that is not GDAL's) has not
    touched the array. *)
Theorem failed_write_keeps_the_replacement
    env h name a drv geo proj NDV opts fb :
  (forall e,
      snd (create_geo_image env h name a drv geo proj NDV opts fb) = Raise e ->
      (forall c, e <> GdalError c) ->
      fst (create_geo_image env h name a drv geo proj NDV opts fb) = h) /\
  (forall a3 size ds v buf,
      with_band_axis a = Ok (a3, size) ->
      create_dataset env (snd (resolve_driver env name drv fb))
        (fst (resolve_driver env name drv fb)) a3 size opts = Ok ds ->
      ndv_value NDV = Some v -> h !! base a3 = Some buf ->
      fst (create_geo_image env h name a drv geo proj NDV opts fb)
      = <[base a3 := map (replace_non_finite v) buf]> h).
Proof.
  split.
  - intros e. unfold create_geo_image.
    destruct (with_band_axis a) as [[a3 [[nb ys] xs]]|e0]; [|reflexivity].
    destruct (create_dataset _ _ _ _ _ _) as [ds|e0]; [|reflexivity].
    cbn [fst snd].
    destruct (write_bands ds _) as [[]|e0] eqn:Ew; cbn [rbind];
      [discriminate|].
    intros H Hne. injection H as <-.
    destruct (write_bands_raises _ _ _ Ew) as [c ->].
    exfalso. apply (Hne c). reflexivity.
  - intros a3 size ds v buf. apply create_geo_image_heap.
Qed.

(** X23, on the array [1, nan, inf, 4] and a driver whose [WriteArray] fails. *)
Lemma failed_write_of_the_float_array :
  create_geo_image read_only_environment float_heap "out.tif" float_array
    "GTiff" north_up EmptyString NdvDefault true "GTiff"
  = (<[1%positive := [Num (q 1); Num (q 0); Num (q 0); Num (q 4)]]>
       float_heap,
     Raise (GdalError 3)).
Proof.
  apply injective_projections; [|reflexivity].
  destruct (failed_write_keeps_the_replacement read_only_environment
              float_heap "out.tif" float_array "GTiff" north_up EmptyString
              NdvDefault true "GTiff") as [_ H].
  apply (H (newaxis float_array) (1, 2, 2)
           (DstDataset (fun _ => Failed 3)) (q 0)
           [Num (q 1); NaN; PosInf; Num (q 4)]); reflexivity.
Defined.

(** X24.  Writing is idempotent on the array: after a write that
    succeeded with a no-data value, the array holds the pixels that were
    written, and a second write of the same array leaves the array as it is
    and writes the same pixels. *)
Theorem second_write_changes_nothing
    env h name a drv geo proj NDV fb nb ys xs v buf :
  dims3 a = Some (nb, ys, xs) ->
  accepts env name drv fb a ->
  ndv_value NDV = Some v ->
  h !! base a = Some buf ->
  exists h1 name1 f1 f2,
    create_geo_image env h name a drv geo proj NDV true fb
    = (h1, Ok (name1, f1)) /\
    h1 !! base a = Some (w_pixels f1) /\
    create_geo_image env h1 name a drv geo proj NDV true fb
    = (h1, Ok (name1, f2)) /\
    w_pixels f2 = w_pixels f1.
Proof.
  intros Hd Hacc Hv Hb.
  destruct (create_geo_image_ok env h name a drv geo proj NDV fb nb ys xs v
              buf Hd Hacc Hv Hb) as (n1 & f1 & E1 & P1 & _).
  set (h1 := <[base a := map (replace_non_finite v) buf]> h) in *.
  assert (Hb1 : h1 !! base a = Some (map (replace_non_finite v) buf))
    by (unfold h1; apply lookup_insert_eq).
  destruct (create_geo_image_ok env h1 name a drv geo proj NDV fb nb ys xs v
              _ Hd Hacc Hv Hb1) as (n2 & f2 & E2 & P2 & _).
  assert (Hsame : map (replace_non_finite v) (map (replace_non_finite v) buf)
                  = map (replace_non_finite v) buf).
  { rewrite map_map. apply map_ext. intros e. apply replace_non_finite_twice. }
  rewrite Hsame in E2, P2.
  assert (Hh : <[base a := map (replace_non_finite v) buf]> h1 = h1)
    by (unfold h1; apply insert_insert_eq).
  rewrite Hh in E2.
  assert (Hn : n2 = n1).
  { unfold create_geo_image in E1, E2.
    destruct (with_band_axis a) as [[a3 [[? ?] ?]]|]; [|discriminate].
    destruct (create_dataset _ _ _ _ _ _); [|discriminate].
    destruct (write_bands _ _); cbn [rbind] in E1, E2; [|discriminate].
    congruence. }
  subst n2.
  exists h1, n1, f1, f2. split; [exact E1|].
  split; [rewrite P1; exact Hb1|]. split; [exact E2|congruence].
Qed.

(** X24, on the array [1, nan, inf, 4] with the default no-data value 0. *)
(** X24, on the array [1, nan, inf, 4] with the default no-data value 0. *)
Lemma second_write_of_the_float_array :
  exists h1 name1 f1 f2,
    create_geo_image environment float_heap "out.tif" float_array "GTiff"
      north_up EmptyString NdvDefault true "GTiff" = (h1, Ok (name1, f1)) /\
    h1 !! base float_array = Some (w_pixels f1) /\
    create_geo_image environment h1 "out.tif" float_array "GTiff"
      north_up EmptyString NdvDefault true "GTiff" = (h1, Ok (name1, f2)) /\
    w_pixels f2 = w_pixels f1.
Proof.
  apply (second_write_changes_nothing environment float_heap "out.tif"
           float_array "GTiff" north_up EmptyString NdvDefault "GTiff"
           1 2 2 (q 0) [Num (q 1); NaN; PosInf; Num (q 4)]);
    try reflexivity.
  apply environment_accepts. reflexivity.
Defined.

Lemma resolve_driver_name env name drv fb :
  fst (resolve_driver env name drv fb)
  = if String.eqb drv "VRT" then fb else drv.
Proof.
  unfold resolve_driver. destruct (String.eqb drv "VRT"); [|reflexivity].
  destruct (is_vrt_name env name); [|reflexivity].
  destruct (String.eqb fb "GTiff"); reflexivity.
Qed.

(** X25.  [create_geo_image] never writes a VRT unless the fallback itself
    is VRT: a file that was written has the driver that was asked for, or
    the fallback when a VRT was asked for.  The name returned is the name of
    the file written; it is the name passed in whenever the driver asked for
    is not VRT, and also for a VRT when the name does not end in .vrt. *)
Theorem a_vrt_is_written_with_the_fallback_driver
    env h name a drv geo proj NDV opts fb h' name' f :
  create_geo_image env h name a drv geo proj NDV opts fb
  = (h', Ok (name', f)) ->
  w_file_name f = name' /\
  w_driver f = (if String.eqb drv "VRT" then fb else drv) /\
  (fb <> "VRT"%string -> w_driver f <> "VRT"%string) /\
  (drv <> "VRT"%string \/ is_vrt_name env name = false -> name' = name).
Proof.
  unfold create_geo_image.
  destruct (with_band_axis a) as [[a3 [[nb ys] xs]]|e]; [|discriminate].
  destruct (create_dataset _ _ _ _ _ _) as [ds|e]; [|discriminate].
  destruct (write_bands ds _) as [[]|e]; cbn [rbind]; [|discriminate].
  intros H. injection H as _ <- <-. cbn [w_file_name w_driver].
  rewrite resolve_driver_name.
  split; [reflexivity|]. split; [reflexivity|]. split.
  - intros Hfb. destruct (String.eqb_spec drv "VRT"); assumption.
  - unfold resolve_driver. intros [Hd|Hn].
    + destruct (String.eqb_spec drv "VRT"); [contradiction|reflexivity].
    + rewrite Hn. destruct (String.eqb drv "VRT"); reflexivity.
Qed.

(** X25, on a VRT request with the fallback GTiff. *)
Lemma a_vrt_written_as_gtiff :
  exists h' name' f,
    create_geo_image environment float_heap "out.tif" float_array "VRT"
      north_up EmptyString NdvDefault true "GTiff" = (h', Ok (name', f)) /\
    w_file_name f = name' /\
    w_driver f = (if String.eqb "VRT" "VRT" then "GTiff" else "VRT")%string /\
    ("GTiff"%string <> "VRT"%string -> w_driver f <> "VRT"%string) /\
    ("VRT"%string <> "VRT"%string \/ is_vrt_name environment "out.tif" = false ->
     name' = "out.tif"%string).
Proof.
  destruct (create_geo_image environment float_heap "out.tif" float_array
              "VRT" north_up EmptyString NdvDefault true "GTiff")
    as [h' [[name' f]|e]] eqn:E; [|vm_compute in E; discriminate E].
  exists h', name', f. split; [reflexivity|].
  apply (a_vrt_is_written_with_the_fallback_driver environment float_heap
           "out.tif" float_array "VRT" north_up EmptyString NdvDefault true
           "GTiff" h' name' f E).
Defined.

(** ** [get_img_stretch_vals] *)

Lemma stretch_loop_last bands b stretch ok cuts r :
  stretch_loop (bands ++ [b]) stretch ok cuts = Returns r ->
  exists c, band_cuts b stretch ok = Returns c /\ r = Some c.
Proof.
  revert cuts. induction bands as [|b0 bands IH]; intros cuts;
    cbn [app stretch_loop].
  - destruct (band_cuts b stretch ok) as [c|e]; cbn [obind]; [|discriminate].
    intros H. injection H as <-. eauto.
  - destruct (band_cuts b0 stretch ok) as [c0|e]; cbn [obind];
      [|discriminate].
    apply IH.
Qed.

Lemma stretch_loop_first b bands stretch ok cuts e :
  band_cuts b stretch ok = Raises e ->
  stretch_loop (b :: bands) stretch ok cuts = Raises e.
Proof. intros H. cbn [stretch_loop]. rewrite H. reflexivity. Qed.

(** X26.  The values [get_img_stretch_vals] returns for an image of several
    bands are the cut values of its last band alone: every band is worked
    through, and each overwrites the values of the band before. *)
Theorem stretch_values_are_those_of_the_last_band bands b stretch ok c :
  get_img_stretch_vals (DatasetObject (bands ++ [b])) stretch ok = Returns c ->
  band_cuts b stretch ok = Returns c.
Proof.
  unfold get_img_stretch_vals. cbn [obind].
  destruct (stretch_loop (bands ++ [b]) stretch ok None) as [r|e] eqn:E;
    cbn [obind]; [|discriminate].
  destruct (stretch_loop_last _ _ _ _ _ _ E) as (c' & Hc & ->).
  intros H. injection H as <-. exact Hc.
Qed.

(** X26, on a dataset of two bands. *)
Lemma last_band_example :
  band_cuts even_band default_stretch true = Returns (q 0, q 1).
Proof.
  apply (stretch_values_are_those_of_the_last_band [even_band] even_band
           default_stretch true (q 0, q 1)).
  vm_compute. apply f_equal. apply f_equal2; apply Qc_is_canon; reflexivity.
Defined.

Lemma cumsum_from_ge acc l i c :
  Forall (fun x => 0 <= x) l -> cumsum_from acc l !! i = Some c -> acc <= c.
Proof.
  intros Hl. revert acc i. induction Hl as [|x l Hx _ IH]; intros acc i;
    [discriminate|].
  destruct i as [|i]; cbn [cumsum_from].
  - intros H. injection H as <-. lia.
  - intros H. apply IH in H. lia.
Qed.

Lemma cumsum_from_mono acc l i j a b :
  Forall (fun x => 0 <= x) l -> (i <= j)%nat ->
  cumsum_from acc l !! i = Some a -> cumsum_from acc l !! j = Some b ->
  a <= b.
Proof.
  intros Hl. revert acc i j. induction Hl as [|x l Hx Hl IH]; intros acc i j;
    [discriminate|].
  destruct i as [|i], j as [|j]; cbn [cumsum_from]; intros Hij Ha Hb.
  - injection Ha as <-. injection Hb as <-. lia.
  - injection Ha as <-. exact (cumsum_from_ge _ _ _ _ Hl Hb).
  - lia.
  - apply (IH (acc + x) i j); [lia|exact Ha|exact Hb].
Qed.

Lemma cumsum_from_max acc x l :
  Forall (fun x => 0 <= x) (x :: l) ->
  array_max (cumsum_from acc (x :: l)) = Returns (acc + total (x :: l)).
Proof.
  revert acc x. induction l as [|y l IH]; intros acc x Hl.
  - cbn. f_equal. lia.
  - inversion Hl as [|? ? Hx Hl']; subst.
    specialize (IH (acc + x) y Hl').
    cbn [cumsum_from array_max fold_left] in *.
    inversion Hl' as [|? ? Hy _]; subst.
    rewrite Z.max_r by lia. rewrite IH. f_equal.
    unfold total. cbn [fold_right]. lia.
Qed.

Lemma where_from_In k cond l i :
  In i (where_from k cond l) ->
  exists x, (k <= i)%nat /\ l !! (i - k)%nat = Some x /\ cond x = true.
Proof.
  revert k. induction l as [|y l IH]; intros k; cbn [where_from]; [intros []|].
  destruct (cond y) eqn:Ey.
  - intros [<-|Hin].
    + exists y. rewrite Nat.sub_diag. auto.
    + destruct (IH _ Hin) as (x & Hk & Hx & Hc). exists x.
      split; [lia|]. split; [|exact Hc].
      replace (i - k)%nat with (S (i - S k)) by lia. exact Hx.
  - intros Hin. destruct (IH _ Hin) as (x & Hk & Hx & Hc). exists x.
    split; [lia|]. split; [|exact Hc].
    replace (i - k)%nat with (S (i - S k)) by lia. exact Hx.
Qed.

Lemma where_from_none k cond l :
  (forall x, In x l -> cond x = false) -> where_from k cond l = [].
Proof.
  revert k. induction l as [|y l IH]; intros k Hall; [reflexivity|].
  cbn [where_from]. rewrite (Hall y (or_introl eq_refl)).
  apply IH. intros x Hx. apply Hall. right. exact Hx.
Qed.

Lemma first_item_In {A} (l : list A) x : first_item l = Returns x -> In x l.
Proof.
  destruct l as [|a l]; [discriminate|]. cbn. intros H. injection H as <-.
  left. reflexivity.
Qed.

Lemma last_item_In {A} (l : list A) x : last_item l = Returns x -> In x l.
Proof.
  unfold last_item. destruct (last l) as [a|] eqn:E; [|discriminate].
  intros H. injection H as <-.
  apply last_Some in E as [l' ->]. apply in_or_app. right. left. reflexivity.
Qed.

Lemma getitem_Returns {A} (l : list A) i x :
  getitem l i = Returns x -> l !! i = Some x.
Proof.
  unfold getitem. destruct (l !! i); [|discriminate].
  intros H. injection H as <-. reflexivity.
Qed.

Lemma qlt_true a b : qlt a b = true -> (a < b)%Qc.
Proof.
  unfold qlt. destruct (Qle_bool b a) eqn:E; [discriminate|]. intros _.
  apply Qnot_le_lt. intros H. apply Qle_bool_iff in H. congruence.
Qed.

Lemma qlt_false a b : (b <= a)%Qc -> qlt a b = false.
Proof.
  intros H. unfold qlt. apply Qle_bool_iff in H. rewrite H. reflexivity.
Qed.

Lemma of_int_nonneg z : 0 <= z -> (0 <= of_int z)%Qc.
Proof. intros H. apply (of_int_le 0 z H). Qed.

Lemma qc_inv_nonneg (y : Qc) : (0 <= y)%Qc -> (0 <= / y)%Qc.
Proof.
  intros H. unfold Qcle in *. cbn [this Qcinv Q2Qc].
  setoid_rewrite Qred_correct. apply Qinv_le_0_compat. exact H.
Qed.

Lemma linspace_mono mn mx n i j vi vj :
  (mn <= mx)%Qc -> (i <= j)%nat ->
  linspace mn mx n !! i = Some vi -> linspace mn mx n !! j = Some vj ->
  (vi <= vj)%Qc.
Proof.
  intros Hm Hij. unfold linspace.
  destruct n as [|[|n]]; [discriminate| |].
  - destruct i, j; try discriminate. intros H1 H2.
    injection H1 as <-. injection H2 as <-. apply Qcle_refl.
  - set (step := ((mx - mn) / of_int (Z.of_nat (S (S n)) - 1))%Qc).
    rewrite !lookup_map_list.
    destruct (seq 0 (S (S n)) !! i) as [i'|] eqn:Ei; [|discriminate].
    destruct (seq 0 (S (S n)) !! j) as [j'|] eqn:Ej; [|discriminate].
    apply lookup_seq in Ei as [-> _]. apply lookup_seq in Ej as [-> _].
    cbn [option_map Nat.add]. intros H1 H2.
    injection H1 as <-. injection H2 as <-.
    apply Qcplus_le_compat; [apply Qcle_refl|].
    apply Qcmult_le_compat_r; [apply of_int_le; lia|].
    unfold step, Qcdiv.
    replace 0%Qc with (0 * / of_int (Z.of_nat (S (S n)) - 1))%Qc by ring.
    apply Qcmult_le_compat_r.
    + apply Qcle_minus_iff in Hm. exact Hm.
    + apply qc_inv_nonneg, of_int_nonneg. lia.
Qed.

(** The steps of [band_cuts] when it returns. *)
Lemma band_cuts_inv b stretch ok lo hi :
  band_cuts b stretch ok = Returns (lo, hi) ->
  exists mn mx hist m s0 s1 (it ib : nat),
    ComputeRasterMinMax b (if ok then 1 else 0) = Done (mn, mx) /\
    GetHistogram b mn mx 1000 0 ok = Done hist /\
    array_max (cumsum hist) = Returns m /\
    stretch !! 1%nat = Some s1 /\ stretch !! 0%nat = Some s0 /\
    In it (np_where (fun c => qlt (of_int m * s1) (of_int c)) (cumsum hist)) /\
    linspace mn mx (length hist) !! it = Some hi /\
    In ib (np_where (fun c => qlt (of_int c) (of_int m * s0)) (cumsum hist)) /\
    linspace mn mx (length hist) !! ib = Some lo.
Proof.
  unfold band_cuts.
  destruct (ComputeRasterMinMax b _) as [[mn mx]|] eqn:E1;
    cbn [from_gdal lift obind fst snd]; [|discriminate].
  destruct (GetHistogram b mn mx 1000 0 ok) as [hist|] eqn:E2;
    cbn [from_gdal lift obind]; [|discriminate].
  destruct (array_max (cumsum hist)) as [m|] eqn:E3; cbn [obind];
    [|discriminate].
  destruct (getitem stretch 1) as [s1|] eqn:E4; cbn [obind]; [|discriminate].
  destruct (getitem stretch 0) as [s0|] eqn:E5; cbn [obind]; [|discriminate].
  destruct (first_item _) as [it|] eqn:E6; cbn [obind]; [|discriminate].
  destruct (getitem _ it) as [topcut|] eqn:E7; cbn [obind]; [|discriminate].
  destruct (last_item _) as [ib|] eqn:E8; cbn [obind]; [|discriminate].
  destruct (getitem _ ib) as [bottomcut|] eqn:E9; cbn [obind];
    [|discriminate].
  intros H. injection H as <- <-.
  exists mn, mx, hist, m, s0, s1, it, ib.
  repeat split; auto using getitem_Returns, first_item_In, last_item_In.
Qed.

Lemma band_cuts_ordered b stretch ok s0 s1 lo hi :
  sound_band b -> stretch = [s0; s1] -> (s0 <= s1)%Qc ->
  band_cuts b stretch ok = Returns (lo, hi) -> (lo <= hi)%Qc.
Proof.
  intros [Hminmax Hhist] -> Hs H.
  destruct (band_cuts_inv _ _ _ _ _ H)
    as (mn & mx & hist & m & s0' & s1' & it & ib
        & E1 & E2 & E3 & E4 & E5 & Hit & Hhi & Hib & Hlo).
  injection E4 as <-. injection E5 as <-.
  pose proof (Hminmax _ _ _ E1) as Hmm.
  pose proof (Hhist _ _ _ _ _ _ E2) as Hnn.
  destruct (where_from_In _ _ _ _ Hit) as (ct & _ & Hct & Ht).
  destruct (where_from_In _ _ _ _ Hib) as (cb & _ & Hcb & Hb).
  rewrite Nat.sub_0_r in Hct, Hcb.
  apply qlt_true in Ht. apply qlt_true in Hb.
  assert (Hm0 : 0 <= m).
  { destruct hist as [|x hist]; [discriminate|].
    unfold cumsum in E3. rewrite cumsum_from_max in E3 by exact Hnn.
    injection E3 as <-.
    assert (Htot : forall l, Forall (fun c => 0 <= c) l -> 0 <= total l).
    { induction 1; unfold total in *; cbn [fold_right]; lia. }
    pose proof (Htot _ Hnn) as Hx.
    change (total (x :: hist)) with (x + total hist) in Hx. lia. }
  assert (Hbt : (of_int m * s0 <= of_int m * s1)%Qc).
  { rewrite (Qcmult_comm _ s0), (Qcmult_comm _ s1).
    apply Qcmult_le_compat_r; [exact Hs|apply of_int_nonneg; exact Hm0]. }
  assert (Hlt : (of_int cb < of_int ct)%Qc).
  { eapply Qclt_trans; [exact Hb|].
    eapply Qcle_lt_trans; [exact Hbt|exact Ht]. }
  assert (Hidx : (ib <= it)%nat).
  { destruct (le_lt_dec ib it) as [Hle|Hgt]; [exact Hle|].
    exfalso.
    pose proof (cumsum_from_mono 0 hist it ib ct cb Hnn ltac:(lia) Hct Hcb)
      as Hc.
    apply of_int_le in Hc. apply Qcle_not_lt in Hc. contradiction. }
  exact (linspace_mono mn mx _ ib it lo hi Hmm Hidx Hlo Hhi).
Qed.

(** X27.  When GDAL answers soundly (minimum not greater than maximum,
    counts not negative) and [stretch] is a pair in ascending order, the
    pair [get_img_stretch_vals] returns is in ascending order too: the low
    cut is not greater than the high cut. *)
Theorem stretch_values_are_ordered src bands stretch ok s0 s1 lo hi :
  src = DatasetObject bands \/ src = FileName (Some bands) ->
  Forall sound_band bands -> stretch = [s0; s1] -> (s0 <= s1)%Qc ->
  get_img_stretch_vals src stretch ok = Returns (lo, hi) -> (lo <= hi)%Qc.
Proof.
  intros Hsrc Hall Hst Hs.
  assert (E : get_img_stretch_vals src stretch ok
              = (cuts <~ stretch_loop bands stretch ok None ;;
                 match cuts with
                 | Some c => Returns c
                 | None => Raises (Of NameError)
                 end)).
  { destruct Hsrc as [-> | ->]; reflexivity. }
  rewrite E. clear E.
  destruct (stretch_loop bands stretch ok None) as [r|e] eqn:El;
    cbn [obind]; [|discriminate].
  destruct r as [c|]; [|discriminate]. intros H. injection H as ->.
  destruct bands as [|b0 bands] using rev_ind.
  - discriminate.
  - destruct (stretch_loop_last _ _ _ _ _ _ El) as (c' & Hc & Ec).
    injection Ec as <-.
    apply Forall_app in Hall as [_ Hb]. inversion Hb as [|? ? Hsound _]; subst.
    exact (band_cuts_ordered _ _ _ _ _ _ _ Hsound eq_refl Hs Hc).
Qed.

Lemma even_band_sound : sound_band even_band.
Proof.
  split; cbn; intros.
  - injection H as <- <-. discriminate.
  - injection H as <-. repeat constructor; discriminate.
Qed.

(** X27, on the histogram [1, 98, 1] over the values 0 to 2: the cuts are 0 and 1. *)
Lemma stretch_values_of_the_even_band :
  get_img_stretch_vals (DatasetObject [even_band; even_band])
    default_stretch true = Returns (q 0, q 1) /\
  (q 0 <= q 1)%Qc.
Proof.
  assert (E : get_img_stretch_vals (DatasetObject [even_band; even_band])
                default_stretch true = Returns (q 0, q 1)).
  { vm_compute. apply f_equal. apply f_equal2; apply Qc_is_canon; reflexivity. }
  split; [exact E|].
  apply (stretch_values_are_ordered (DatasetObject [even_band; even_band])
           [even_band; even_band] default_stretch true
           (Q2Qc (2 # 100)) (Q2Qc (98 # 100)) (q 0) (q 1)).
  - left. reflexivity.
  - repeat constructor; apply even_band_sound.
  - reflexivity.
  - discriminate.
  - exact E.
Defined.

Lemma length_cumsum_from acc l : length (cumsum_from acc l) = length l.
Proof.
  revert acc. induction l as [|x l IH]; intros acc; cbn; [reflexivity|].
  now rewrite IH.
Qed.

Lemma length_linspace mn mx n : length (linspace mn mx n) = n.
Proof.
  unfold linspace. destruct n as [|[|n]]; try reflexivity.
  rewrite length_map, length_seq. reflexivity.
Qed.

Lemma first_item_raises {A} (l : list A) e :
  first_item l = Raises e -> e = Of IndexError.
Proof.
  unfold first_item, getitem. destruct (l !! 0%nat); [discriminate|].
  intros H. injection H as <-. reflexivity.
Qed.

Lemma band_cuts_heavy_first_bucket b (ok : bool) mn mx h0 hs s0 s1 :
  ComputeRasterMinMax b (if ok then 1 else 0) = Done (mn, mx) ->
  GetHistogram b mn mx 1000 0 ok = Done (h0 :: hs) ->
  Forall (fun c => 0 <= c) (h0 :: hs) ->
  (of_int (total (h0 :: hs)) * s0 <= of_int h0)%Qc ->
  band_cuts b [s0; s1] ok = Raises (Of IndexError).
Proof.
  intros E1 E2 Hnn Hheavy. unfold band_cuts. rewrite E1.
  cbn [from_gdal lift obind fst snd]. rewrite E2. cbn [from_gdal lift obind].
  unfold cumsum at 1. rewrite cumsum_from_max by exact Hnn.
  cbn [obind getitem lookup list_lookup]. rewrite Z.add_0_l.
  destruct (first_item _) as [it|e] eqn:Ef; cbn [obind];
    [|apply first_item_raises in Ef; subst e; reflexivity].
  apply first_item_In, where_from_In in Ef as (ct & _ & Hct & _).
  rewrite Nat.sub_0_r in Hct. apply lookup_lt_Some in Hct.
  unfold cumsum in Hct. rewrite length_cumsum_from in Hct.
  unfold getitem.
  destruct (linspace mn mx (length (h0 :: hs)) !! it) as [v|] eqn:Ev.
  - cbn [obind]. unfold np_where. rewrite where_from_none; [reflexivity|].
    intros c Hin. apply qlt_false.
    eapply Qcle_trans; [exact Hheavy|]. apply of_int_le.
    apply In_nth_error in Hin as [i Hi].
    assert (Hi' : cumsum (h0 :: hs) !! i = Some c).
    { clear -Hi. revert i Hi. generalize (cumsum (h0 :: hs)).
      induction l as [|a l IH]; intros [|i]; cbn; try discriminate; auto. }
    assert (H0' : cumsum (h0 :: hs) !! 0%nat = Some h0).
    { reflexivity. }
    exact (cumsum_from_mono 0 (h0 :: hs) 0 i h0 c Hnn ltac:(lia) H0' Hi').
  - apply lookup_ge_None in Ev. rewrite length_linspace in Ev. lia.
Qed.

(** X28.  When the first bucket of the histogram of the first band holds
    at least the share [stretch[0]] of all counted pixels, as it does on an
    image with many pixels at its minimum, [get_img_stretch_vals] raises
    IndexError: no bucket lies below the low cut, and the last index of an
    empty selection is taken. *)
Theorem heavy_first_bucket_raises_index_error
    b rest (ok : bool) mn mx h0 hs s0 s1 :
  ComputeRasterMinMax b (if ok then 1 else 0) = Done (mn, mx) ->
  GetHistogram b mn mx 1000 0 ok = Done (h0 :: hs) ->
  Forall (fun c => 0 <= c) (h0 :: hs) ->
  (of_int (total (h0 :: hs)) * s0 <= of_int h0)%Qc ->
  get_img_stretch_vals (DatasetObject (b :: rest)) [s0; s1] ok
  = Raises (Of IndexError).
Proof.
  intros E1 E2 Hnn Hheavy. unfold get_img_stretch_vals. cbn [obind].
  rewrite (stretch_loop_first b rest [s0; s1] ok None (Of IndexError));
    [reflexivity|].
  exact (band_cuts_heavy_first_bucket b ok mn mx h0 hs s0 s1 E1 E2 Hnn Hheavy).
Qed.

(** X28, on the histogram [50, 49, 1] with the default stretch. *)
Lemma stretch_values_of_the_dark_band :
  get_img_stretch_vals (DatasetObject [dark_band; even_band])
    [Q2Qc (2 # 100); Q2Qc (98 # 100)] true
  = Raises (Of IndexError).
Proof.
  apply (heavy_first_bucket_raises_index_error dark_band [even_band] true
           (q 0) (q 2) 50 [49; 1]).
  - reflexivity.
  - reflexivity.
  - repeat constructor; discriminate.
  - discriminate.
Defined.
